(** * Conductor.js: the query translation layer of the client-side database

    A shallow embedding of the two storage adapters of Conductor.js
    (indexed-db.js and web-sql.js), of the helpers they share
    (db-factory.js: [mixin], base.js: [baseModel]) and of the parts of the
    host they call: JavaScript values and operators, jQuery's [extend] and
    [each], promises, and the IndexedDB object store, index, cursor and key
    range primitives. *)

From Stdlib Require Import ZArith String Ascii List Bool Lia Permutation Sorted.
From stdpp Require Import base option gmap strings list pretty.

Set Warnings "-register-all".

Local Open Scope string_scope.
Local Open Scope list_scope.
Local Open Scope Z_scope.

(** ** JavaScript values *)

Module JS.

(** Numbers are the integers among the host's numbers, and [NaN], the
    number [parseInt] returns for a string without digits; a function value
    is opaque and carries only a label; an object is the list of its own
    enumerable properties in enumeration order (insertion order: property
    names are attribute names, never array indices). *)
Inductive value : Type :=
| VUndefined
| VNull
| VBool (b : bool)
| VNum (n : Z)
| VStr (s : string)
| VFun (label : string)
| VObj (props : list (string * value))
| VNaN.

Abbreviation object := (list (string * value)).

(** Synchronous code either completes or throws. *)
Inductive error : Type :=
| TypeError
| DataError
| NotFoundError
| DataCloneError
| ConstraintError
| SyntaxError.

Inductive completion (A : Type) : Type :=
| Normal (a : A)
| Throw (e : error).
Arguments Normal {A} a.
Arguments Throw {A} e.

Definition bind {A B : Type} (m : completion A) (f : A -> completion B)
    : completion B :=
  match m with
  | Normal a => f a
  | Throw e => Throw e
  end.

Notation "x <- m ;; k" := (bind m (fun x => k))
  (at level 100, m at next level, right associativity).

(** A promise is fulfilled, rejected, or never settled (a callback of the
    operation threw, so neither [fulfill] nor [reject] is ever called).
    [Raised] is for a facade function that throws before it returns a
    promise. *)
Inductive outcome (A : Type) : Type :=
| Fulfilled (a : A)
| Rejected
| Unsettled
| Raised (e : error).
Arguments Fulfilled {A} a.
Arguments Rejected {A}.
Arguments Unsettled {A}.
Arguments Raised {A} e.

(** [typeof v] *)
Definition typeof (v : value) : string :=
  match v with
  | VUndefined => "undefined"
  | VNull => "object"
  | VBool _ => "boolean"
  | VNum _ => "number"
  | VStr _ => "string"
  | VFun _ => "function"
  | VObj _ => "object"
  | VNaN => "number"
  end.

(** [$.isFunction(v)] *)
Definition isFunction (v : value) : bool :=
  match v with VFun _ => true | _ => false end.

(** Truthiness, as [if (v)] and [a || b] test it. *)
Definition truthy (v : value) : bool :=
  match v with
  | VUndefined | VNull | VNaN => false
  | VBool b => b
  | VNum n => negb (n =? 0)
  | VStr s => negb (String.eqb s "")
  | VFun _ | VObj _ => true
  end.

(** [o[key]]: the property, or [undefined] when there is none. *)
Fixpoint get (o : object) (key : string) : value :=
  match o with
  | [] => VUndefined
  | (k, v) :: rest => if String.eqb k key then v else get rest key
  end.

(** [o[key] = v]: overwrite in place, or append a new property. *)
Fixpoint set (o : object) (key : string) (v : value) : object :=
  match o with
  | [] => [(key, v)]
  | (k, w) :: rest =>
      if String.eqb k key then (k, v) :: rest else (k, w) :: set rest key v
  end.

(** [Object.keys(v)]: own enumerable property names, functions included;
    throws on [null] and [undefined]. *)
Definition Object_keys (v : value) : completion (list string) :=
  match v with
  | VObj props => Normal (map fst props)
  | VUndefined | VNull => Throw TypeError
  | _ => Normal []
  end.

(** [keys.indexOf(name) > -1] *)
Definition contains (keys : list string) (name : string) : bool :=
  existsb (String.eqb name) keys.

(** [a === b].  Two primitives are strictly equal when they have the same
    type and value; [NaN] is equal to nothing, itself included.  Objects and
    functions are equal only to themselves by
    reference; the operands compared in this program are a stored value and
    a query term or a string literal, never the same reference. *)
Definition strict_equal (a b : value) : bool :=
  match a, b with
  | VUndefined, VUndefined => true
  | VNull, VNull => true
  | VBool x, VBool y => Bool.eqb x y
  | VNum x, VNum y => x =? y
  | VStr x, VStr y => String.eqb x y
  | _, _ => false
  end.

(** The abstract relational comparison of the host.  Two numbers compare by
    value and two strings by code units; a comparison with [NaN] is
    undefined, which is [None].  For any other pair of operands the host
    converts them first (ToPrimitive, ToNumber); that conversion is the
    parameter [coerce], whose result [None] stands for "undefined" (the
    conversion gave a NaN). *)
Definition coercion := value -> value -> option comparison.

Section Relational.
Variable coerce : coercion.

Definition compare_values (a b : value) : option comparison :=
  match a, b with
  | VNaN, _ | _, VNaN => None
  | VNum x, VNum y => Some (x ?= y)
  | VStr s, VStr t => Some (String.compare s t)
  | _, _ => coerce a b
  end.

(** [a < b] *)
Definition lt (a b : value) : bool :=
  match compare_values a b with Some Lt => true | _ => false end.

(** [a > b] is [b < a]. *)
Definition gt (a b : value) : bool :=
  match compare_values b a with Some Lt => true | _ => false end.

(** [a <= b] is "not [b < a]", and false when undefined. *)
Definition le (a b : value) : bool :=
  match compare_values b a with Some Eq | Some Gt => true | _ => false end.

(** [a >= b] is "not [a < b]", and false when undefined. *)
Definition ge (a b : value) : bool :=
  match compare_values a b with Some Eq | Some Gt => true | _ => false end.
End Relational.

(** A host that is never asked to convert: for runs whose compared operands
    are all numbers. *)
Definition numbers_only : coercion := fun _ _ => None.

(** [keys.toString()] of an array of strings. *)
Definition toString (keys : list string) : string := String.concat "," keys.

(** [jQuery.extend(target, source)], shallow: every enumerable property of
    the source whose value is not [undefined] is assigned to the target. *)
Definition extend1 (target source : object) : object :=
  fold_left (fun t '(name, copy) =>
               match copy with
               | VUndefined => t
               | _ => set t name copy
               end) source target.

(** [jQuery.extend({}, s1, s2, ...)] *)
Definition extend (sources : list object) : object :=
  fold_left extend1 sources [].

(** [Array.prototype.sort(cmp)], stable (ECMAScript 2019): insertion from
    the right, an element stepping over the elements it sorts strictly
    after.  [cmp a b] is the sign of the comparator: [Lt] negative, [Eq]
    zero, [Gt] positive. *)
Section Sort.
Context {A : Type} (cmp : A -> A -> comparison).

Fixpoint insert_sorted (x : A) (l : list A) : list A :=
  match l with
  | [] => [x]
  | y :: rest =>
      match cmp x y with
      | Gt => y :: insert_sorted x rest
      | _ => x :: y :: rest
      end
  end.

Definition sort (l : list A) : list A :=
  fold_right insert_sorted [] l.
End Sort.

(** An optional object argument of the facade ([attributes], [orderBy]):
    left out ([undefined]), [null], or an object. *)
Inductive argument : Type :=
| Omitted
| Null
| Obj (o : object).

(** The properties a [for (key in a)] loop visits: none for [null] and
    [undefined]. *)
Definition properties (a : argument) : object :=
  match a with
  | Obj o => o
  | _ => []
  end.

(** [if (a)] *)
Definition given (a : argument) : bool :=
  match a with
  | Obj _ => true
  | _ => false
  end.

End JS.

Import JS.

(** ** db-factory.js: the helpers mixed into both adapters *)

Module Mixin.

(** [base.getKeysFromObject]: the keys of all the attributes of an object,
    excluding functions. *)
Fixpoint getKeysFromObject (object : JS.object) : list string :=
  match object with
  | [] => []
  | (key, v) :: rest =>
      if isFunction v then getKeysFromObject rest
      else key :: getKeysFromObject rest
  end.

(** [base.getValuesFromObject(object, deep)]: the values of all the
    attributes, excluding functions; with [deep], the values of a sub-object
    take the place of the sub-object. *)
Fixpoint valuesOf (deep : bool) (v : value) : list value :=
  match v with
  | VObj props =>
      (fix each (ps : JS.object) : list value :=
         match ps with
         | [] => []
         | (_, x) :: rest =>
             match x with
             | VObj _ => if deep then valuesOf deep x ++ each rest
                         else x :: each rest
             | VFun _ => each rest
             | _ => x :: each rest
             end
         end) props
  | _ => []
  end.

Definition getValuesFromObject (object : JS.object) (deep : bool) : list value :=
  valuesOf deep (VObj object).

(** [base.isLast(index, length)] *)
Definition isLast (index length : nat) : bool := Nat.eqb (index + 1) length.

(** [base.isFirst(index)] *)
Definition isFirst (index : nat) : bool := Nat.eqb index 0.

End Mixin.

(** ** base.js: the base model merged with every user model *)

Module BaseModel.

(** The object [new context.baseModel(modelName)] returns: four methods.
    User models are taken not to redefine them. *)
Definition baseM : JS.object :=
  [("modelName", VFun "modelName");
   ("createFromObject", VFun "createFromObject");
   ("clone", VFun "clone");
   ("getKeysFromObject", VFun "getKeysFromObject")].

(** [base.getKeysFromObject] and [base.getValuesFromObject] of base.js. *)
Fixpoint getKeysFromObject (object : JS.object) : list string :=
  match object with
  | [] => []
  | (key, v) :: rest =>
      if isFunction v then getKeysFromObject rest
      else key :: getKeysFromObject rest
  end.

Fixpoint getValuesFromObject (object : JS.object) : list value :=
  match object with
  | [] => []
  | (_, v) :: rest =>
      if isFunction v then getValuesFromObject rest
      else v :: getValuesFromObject rest
  end.

(** [createFromObject(object)] of the model whose constructor, called
    without arguments, returns [blank]:
    [$.extend({}, object, baseM, new context.models[modelName]())]. *)
Definition createFromObject (blank object : JS.object) : JS.object :=
  extend [object; baseM; blank].

(** [clone()]: the same object with what cannot be stored, the functions,
    removed: [obj[keys[i]] = values[i]] for every value. *)
Definition clone (this : JS.object) : JS.object :=
  let keys := getKeysFromObject this in
  let values := getValuesFromObject this in
  fold_left (fun obj '(k, v) => JS.set obj k v) (combine keys values) [].

End BaseModel.

(** ** The IndexedDB primitives the adapter calls *)

Module IDB.

(** Keys: numbers sort before strings, strings before arrays; arrays compare
    element by element, a proper prefix first. *)
Inductive key : Type :=
| KNum (n : Z)
| KStr (s : string)
| KArr (items : list key).

Section Lexicographic.
Context {A : Type} (cmp : A -> A -> comparison).

Fixpoint lexicographic (xs ys : list A) : comparison :=
  match xs, ys with
  | [], [] => Eq
  | [], _ :: _ => Lt
  | _ :: _, [] => Gt
  | x :: xs', y :: ys' =>
      match cmp x y with
      | Eq => lexicographic xs' ys'
      | c => c
      end
  end.
End Lexicographic.

Fixpoint compare (a b : key) : comparison :=
  match a, b with
  | KNum x, KNum y => x ?= y
  | KNum _, _ => Lt
  | KStr _, KNum _ => Gt
  | KStr s, KStr t => String.compare s t
  | KStr _, KArr _ => Lt
  | KArr xs, KArr ys => lexicographic compare xs ys
  | KArr _, _ => Gt
  end.

Definition eqb (a b : key) : bool :=
  match compare a b with Eq => true | _ => false end.

Definition ltb (a b : key) : bool :=
  match compare a b with Lt => true | _ => false end.

(** A value is a valid key when it is a number other than [NaN], or a
    string. *)
Definition to_key (v : value) : option key :=
  match v with
  | VNum n => Some (KNum n)
  | VStr s => Some (KStr s)
  | _ => None
  end.

(** An argument of an [IDBKeyRange] constructor: one value, or an array of
    values. *)
Inductive bound : Type :=
| Scalar (v : value)
| Tuple (vs : list value).

Definition bound_key (b : bound) : option key :=
  match b with
  | Scalar v => to_key v
  | Tuple vs => KArr <$> mapM to_key vs
  end.

(** The three [IDBKeyRange] constructors, as called. *)
Inductive IDBKeyRange : Type :=
| lowerBound (lower : bound) (open : bool)
| upperBound (upper : bound) (open : bool)
| bound_ (lower upper : bound) (lowerOpen upperOpen : bool).

(** A constructed range. *)
Record range : Type := Range {
  lower : option key;
  upper : option key;
  lowerOpen : bool;
  upperOpen : bool
}.

(** Constructing the range: [DataError] when a bound is not a valid key,
    when the lower bound is greater than the upper bound, or when they are
    equal and one side is open. *)
Definition construct (r : IDBKeyRange) : completion range :=
  match r with
  | lowerBound l o =>
      match bound_key l with
      | Some k => Normal (Range (Some k) None o true)
      | None => Throw DataError
      end
  | upperBound u o =>
      match bound_key u with
      | Some k => Normal (Range None (Some k) true o)
      | None => Throw DataError
      end
  | bound_ l u lo uo =>
      match bound_key l, bound_key u with
      | Some kl, Some ku =>
          match compare kl ku with
          | Gt => Throw DataError
          | Eq => if lo || uo then Throw DataError
                  else Normal (Range (Some kl) (Some ku) lo uo)
          | Lt => Normal (Range (Some kl) (Some ku) lo uo)
          end
      | _, _ => Throw DataError
      end
  end.

(** A key is in a range. *)
Definition includes (r : range) (k : key) : bool :=
  match lower r with
  | None => true
  | Some l =>
      match compare l k with
      | Lt => true
      | Eq => negb (lowerOpen r)
      | Gt => false
      end
  end &&
  match upper r with
  | None => true
  | Some u =>
      match compare k u with
      | Lt => true
      | Eq => negb (upperOpen r)
      | Gt => false
      end
  end.

(** *** Key paths *)

(** The characters of an identifier, among the ASCII characters. *)
Definition identifier_start (c : ascii) : bool :=
  let n := nat_of_ascii c in
  ((65 <=? n) && (n <=? 90) || (97 <=? n) && (n <=? 122) ||
   (n =? 36) || (n =? 95))%nat.

Definition identifier_part (c : ascii) : bool :=
  let n := nat_of_ascii c in
  identifier_start c || ((48 <=? n) && (n <=? 57))%nat.

Definition identifier (s : string) : bool :=
  match s with
  | EmptyString => false
  | String c rest =>
      identifier_start c && forallb identifier_part (list_ascii_of_string rest)
  end.

(** The identifiers of a key path, which dots separate. *)
Fixpoint steps_from (current path : string) : list string :=
  match path with
  | EmptyString => [current]
  | String c rest =>
      if Ascii.eqb c "."%char then current :: steps_from "" rest
      else steps_from (current +:+ String c "") rest
  end.

Definition steps (path : string) : list string := steps_from "" path.

(** A string is a valid key path when it is empty or made of identifiers. *)
Definition valid_key_path (path : string) : bool :=
  String.eqb path "" || forallb identifier (steps path).

(** Has the object an own property [name]? *)
Definition hasOwn (o : JS.object) (name : string) : bool :=
  existsb (fun p => String.eqb (fst p) name) o.

(** Evaluating the identifiers of a key path on a value, one after the
    other: a failure, [None], when a property on the way is missing or
    [undefined] or is asked of a value that has none; of a string, the
    [length] can be asked. *)
Fixpoint evaluate (ids : list string) (v : value) : option value :=
  match ids with
  | [] => Some v
  | id :: rest =>
      match v with
      | VStr s =>
          if String.eqb id "length"
          then evaluate rest (VNum (Z.of_nat (String.length s)))
          else None
      | VObj props =>
          if hasOwn props id then
            match JS.get props id with
            | VUndefined => None
            | w => evaluate rest w
            end
          else None
      | _ => None
      end
  end.

(** Evaluating the key path [path] on a record, the empty key path being
    the record itself: a failure, otherwise the key, if the value is
    one. *)
Inductive extracted : Type :=
| Failure
| Invalid
| Key (k : key).

Definition extract (o : JS.object) (path : string) : extracted :=
  match (if String.eqb path "" then Some (VObj o)
         else evaluate (steps path) (VObj o)) with
  | None => Failure
  | Some v => match to_key v with Some k => Key k | None => Invalid end
  end.

(** The key path of an index: one attribute, or several for a compound
    index. *)
Inductive keyPath : Type :=
| Attribute (name : string)
| Attributes (names : list string).

(** A sequence of key paths is valid when it is not empty and each of them
    is. *)
Definition valid (path : keyPath) : bool :=
  match path with
  | Attribute name => valid_key_path name
  | Attributes names =>
      negb (Nat.eqb (length names) 0) && forallb valid_key_path names
  end.

Definition attribute_key (o : JS.object) (name : string) : option key :=
  match extract o name with
  | Key k => Some k
  | _ => None
  end.

(** The key of a record in an index; a record without one is not in the
    index. *)
Definition index_key (path : keyPath) (o : JS.object) : option key :=
  match path with
  | Attribute name => attribute_key o name
  | Attributes names => KArr <$> mapM (attribute_key o) names
  end.

(** *** Object stores *)

(** An index of an object store. *)
Record IDBIndex : Type := Index {
  index_name : string;
  index_path : keyPath;
  index_unique : bool
}.

(** An object store with key path [id] and a key generator: its records,
    sorted by key, the generator's current number, and its indexes, in the
    order of their creation. *)
Record store : Type := Store {
  records : list (key * JS.object);
  generator : Z;
  indexes : list IDBIndex
}.

(** [db.createObjectStore(name, { keyPath: "id", autoIncrement: true })] *)
Definition empty : store := Store [] 1 [].

(** [store.createIndex(name, keyPath, { unique: unique })], on the store
    just created, which holds no record: a [ConstraintError] when the store
    has an index of this name, a [SyntaxError] when the key path is not
    valid. *)
Definition createIndex (s : store) (name : string) (path : keyPath) (unique : bool)
    : completion store :=
  if existsb (fun i => String.eqb (index_name i) name) (indexes s)
  then Throw ConstraintError
  else if negb (valid path) then Throw SyntaxError
  else Normal (Store (records s) (generator s) (indexes s ++ [Index name path unique])).

(** [store.index(name)] *)
Definition index (s : store) (name : string) : completion IDBIndex :=
  match List.find (fun i => String.eqb (index_name i) name) (indexes s) with
  | Some i => Normal i
  | None => Throw NotFoundError
  end.

Definition remove (k : key) (rs : list (key * JS.object)) : list (key * JS.object) :=
  List.filter (fun r => negb (eqb (fst r) k)) rs.

Fixpoint place (k : key) (v : JS.object) (rs : list (key * JS.object))
  : list (key * JS.object) :=
  match rs with
  | [] => [(k, v)]
  | r :: rest =>
      if ltb k (fst r) then (k, v) :: r :: rest else r :: place k v rest
  end.

(** The structured clone of a value exists when there is no function in
    it, at any depth. *)
Fixpoint cloneable (v : value) : bool :=
  match v with
  | VFun _ => false
  | VObj props =>
      (fix each (ps : JS.object) : bool :=
         match ps with
         | [] => true
         | (_, x) :: rest => cloneable x && each rest
         end) props
  | _ => true
  end.

(** Storing the record [v] under the key [k] would break a unique index:
    another record has the key of [v] in that index. *)
Definition conflicts (s : store) (k : key) (v : JS.object) : bool :=
  existsb (fun i =>
             index_unique i &&
             match index_key (index_path i) v with
             | Some ik =>
                 existsb (fun r =>
                            negb (eqb (fst r) k) &&
                            match index_key (index_path i) (snd r) with
                            | Some ik' => eqb ik' ik
                            | None => false
                            end) (records s)
             | None => false
             end) (indexes s).

(** What becomes of a request: it succeeds, or it fails with an error
    event, which aborts the transaction. *)
Inductive answer (A : Type) : Type :=
| Success (a : A)
| Error (e : error).
Arguments Success {A} a.
Arguments Error {A} e.

(** [store.put(value)].  The call throws a [DataCloneError] when the value
    has no structured clone and a [DataError] when its [id] is not a valid
    key.  The key is the record's [id]; without one the generator provides
    it and it is stored into the record.  A record with an equal key is
    replaced; the request fails when a unique index forbids the record. *)
Definition put (s : store) (v : JS.object) : completion (answer store) :=
  if negb (cloneable (VObj v)) then Throw DataCloneError
  else
    match extract v "id" with
    | Invalid => Throw DataError
    | Key k =>
        let g := match k with
                 | KNum n => if generator s <=? n then n + 1 else generator s
                 | _ => generator s
                 end in
        if conflicts s k v then Normal (Error ConstraintError)
        else Normal (Success (Store (place k v (remove k (records s))) g (indexes s)))
    | Failure =>
        let k := KNum (generator s) in
        let v := JS.set v "id" (VNum (generator s)) in
        if conflicts s k v then Normal (Error ConstraintError)
        else Normal (Success (Store (place k v (remove k (records s)))
                                (generator s + 1) (indexes s)))
    end.

(** [store.get(id)] *)
Definition get (s : store) (id : value) : completion (option JS.object) :=
  match to_key id with
  | None => Throw DataError
  | Some k => Normal (snd <$> List.find (fun r => eqb (fst r) k) (records s))
  end.

(** [store.delete(id)] *)
Definition delete (s : store) (id : value) : completion store :=
  match to_key id with
  | None => Throw DataError
  | Some k => Normal (Store (remove k (records s)) (generator s) (indexes s))
  end.

(** [store.openCursor()], continued to the end: every record, by key. *)
Definition openCursor (s : store) : list JS.object := map snd (records s).

(** The entries of an index: sorted by index key, then by primary key. *)
Definition entry : Type := key * key * JS.object.

Definition entry_compare (a b : entry) : comparison :=
  match compare (fst (fst a)) (fst (fst b)) with
  | Eq => compare (snd (fst a)) (snd (fst b))
  | c => c
  end.

Fixpoint indexed (path : keyPath) (rs : list (key * JS.object)) : list entry :=
  match rs with
  | [] => []
  | r :: rest =>
      match index_key path (snd r) with
      | Some k => (k, fst r, snd r) :: indexed path rest
      | None => indexed path rest
      end
  end.

Definition entries (path : keyPath) (s : store) : list entry :=
  JS.sort entry_compare (indexed path (records s)).

(** The direction of a cursor. *)
Inductive direction : Type := next | prev.

(** [index.openCursor(range, direction)] on an index of the store with the
    key path [path], continued to the end. *)
Definition index_openCursor (path : keyPath) (s : store) (r : range)
    (d : direction) : list JS.object :=
  let hits := List.filter (fun e => includes r (fst (fst e))) (entries path s) in
  map snd (match d with next => hits | prev => rev hits end).

End IDB.

(** ** indexed-db.js: the IndexedDB implementation of the database *)

Module IndexedDb.

(** An entry of [context.indexes[model]]: an attribute name, or an array of
    attribute names for a compound index. *)
Inductive index : Type :=
| Single (name : string)
| Compound (names : list string).

(** [modelIndex.toString()], also the name the index is created under. *)
Definition index_toString (i : index) : string :=
  match i with
  | Single name => name
  | Compound names => JS.toString names
  end.

Definition index_keyPath (i : index) : IDB.keyPath :=
  match i with
  | Single name => IDB.Attribute name
  | Compound names => IDB.Attributes names
  end.

(** The requests that change a store, as the adapter issues them. *)
Inductive request : Type :=
| PutRequest (storeName : string) (record : JS.object)
| DeleteRequest (storeName : string) (id : value).

(** The opened database: the object store of every model, and the journal
    of the changing requests carried out so far, latest last. *)
Record database : Type := Database {
  stores : gmap string IDB.store;
  journal : list request
}.

(** [Promise.all]: rejected with the first rejection, otherwise fulfilled
    once every promise is, which never happens when one never settles. *)
Fixpoint Promise_all {A : Type} (ps : list (outcome A)) : outcome (list A) :=
  match ps with
  | [] => Fulfilled []
  | p :: rest =>
      match p, Promise_all rest with
      | Rejected, _ => Rejected
      | Raised _, _ => Rejected
      | _, Rejected => Rejected
      | Fulfilled a, Fulfilled l => Fulfilled (a :: l)
      | _, _ => Unsettled
      end
  end.

(** What a callback run by [base.open] leaves of the promise around it: a
    throw is reported to nobody. *)
Definition in_callback {A : Type} (c : completion A) : outcome A :=
  match c with
  | Normal a => Fulfilled a
  | Throw _ => Unsettled
  end.

(** [Object.keys(o)[0]] used as a property name: the first key, or the
    name [undefined] when there is none. *)
Definition first_key (o : JS.object) : string :=
  match o with
  | [] => "undefined"
  | (k, _) :: _ => k
  end.

Section Adapter.

(** The host's conversion of compared operands. *)
Variable coerce : coercion.

(** [base.models]: for every model name, the object its constructor
    returns when called without arguments. *)
Variable models : gmap string JS.object.

(** [context.indexes] *)
Variable indexes : gmap string (list index).

(** *** base.reduce *)

(** [base.reduceOperators[rule]]; for a rule that is none of the four
    operators, calling it is a [TypeError]. *)
Definition reduceOperators (rule : string) : option (value -> value -> bool) :=
  if String.eqb rule "greaterThan" then Some (JS.gt coerce)
  else if String.eqb rule "greaterThanOrEqual" then Some (JS.ge coerce)
  else if String.eqb rule "lessThan" then Some (JS.lt coerce)
  else if String.eqb rule "lessThanOrEqual" then Some (JS.le coerce)
  else None.

(** The properties [for (rule in ruleToCheck)] visits when [ruleToCheck]
    has type [object]. *)
Definition rules_of (ruleToCheck : value) : JS.object :=
  match ruleToCheck with
  | VObj props => props
  | _ => []
  end.

(** [for (var rule in ruleToCheck) { isValid = ...; if (!isValid) break; }] *)
Fixpoint check_rules (actualValue : value) (ruleToCheck : JS.object)
    (isValid : bool) : completion bool :=
  match ruleToCheck with
  | [] => Normal isValid
  | (rule, valueToBe) :: rest =>
      match reduceOperators rule with
      | None => Throw TypeError
      | Some operator =>
          let isValid := operator actualValue valueToBe in
          if isValid then check_rules actualValue rest isValid
          else Normal isValid
      end
  end.

(** [$.each(keys, function (index, key) { ... })] of [reduce]: the callback
    returns [false], which stops the loop, only from its second branch. *)
Fixpoint check_keys (result attributes : JS.object) (keys : list string)
    (isValid : bool) : completion bool :=
  match keys with
  | [] => Normal isValid
  | key :: rest =>
      if String.eqb (typeof (JS.get attributes key)) "object" then
        isValid <- check_rules (JS.get result key)
                    (rules_of (JS.get attributes key)) isValid ;;
        check_keys result attributes rest isValid
      else
        let isValid := strict_equal (JS.get result key) (JS.get attributes key) in
        if isValid then check_keys result attributes rest isValid
        else Normal false
  end.

(** The body of [$.map(results, ...)]: is the result pushed? *)
Definition retained (attributes : argument) (result : JS.object) : completion bool :=
  check_keys result (properties attributes)
    (Mixin.getKeysFromObject (properties attributes)) true.

Fixpoint reduce_results (results : list JS.object) (attributes : argument)
    : completion (list JS.object) :=
  match results with
  | [] => Normal []
  | result :: rest =>
      isValid <- retained attributes result ;;
      reducedResults <- reduce_results rest attributes ;;
      Normal (if isValid then result :: reducedResults else reducedResults)
  end.

(** The comparator [reduce] sorts with. *)
Definition comparator (sortAttribute : string) (direction : value)
    (a b : JS.object) : comparison :=
  if JS.lt coerce (JS.get a sortAttribute) (JS.get b sortAttribute) then
    (if strict_equal direction (VStr "asc") then Lt else Gt)
  else if JS.gt coerce (JS.get a sortAttribute) (JS.get b sortAttribute) then
    (if strict_equal direction (VStr "asc") then Gt else Lt)
  else Eq.

(** [base.reduce(results, attributes, orderBy)] *)
Definition reduce (results : list JS.object) (attributes orderBy : argument)
    : completion (list JS.object) :=
  reducedResults <- reduce_results results attributes ;;
  match orderBy with
  | Obj o =>
      let sortAttribute := first_key o in
      let direction := JS.get o sortAttribute in
      Normal (JS.sort (comparator sortAttribute direction) reducedResults)
  | _ => Normal reducedResults
  end.

(** *** base.getDirection *)

Definition getDirection (orderBy : argument) : completion IDB.direction :=
  match orderBy with
  | Omitted => Normal IDB.next
  | Null => Throw TypeError
  | Obj o =>
      if strict_equal (JS.get o (first_key o)) (VStr "asc")
      then Normal IDB.next
      else Normal IDB.prev
  end.

(** *** base.isValidQuery *)

(** [n.length] of a number [n]: numbers have no such property. *)
Definition length_of_number (n : Z) : value := VUndefined.

(** The counting loop of [isValidQuery]. *)
Fixpoint count_bounds (values : list value) (lowerboundCount upperBoundCount : Z)
    : completion (Z * Z) :=
  match values with
  | [] => Normal (lowerboundCount, upperBoundCount)
  | query :: rest =>
      if negb (String.eqb (typeof query) "object") then
        count_bounds rest (lowerboundCount + 1) (upperBoundCount + 1)
      else
        queryKeys <- Object_keys query ;;
        let lowerboundCount :=
          if contains queryKeys "greaterThanOrEqual" || contains queryKeys "greaterThan"
          then lowerboundCount + 1 else lowerboundCount in
        let upperBoundCount :=
          if contains queryKeys "lessThanOrEqual" || contains queryKeys "lessThan"
          then upperBoundCount + 1 else upperBoundCount in
        count_bounds rest lowerboundCount upperBoundCount
  end.

Definition isValidQuery (attributes : argument) : completion bool :=
  let values := Mixin.getValuesFromObject (properties attributes) false in
  if Nat.eqb (length values) 1 then Normal true
  else
    counts <- count_bounds values 0 0 ;;
    let '(lowerboundCount, upperBoundCount) := counts in
    let lowerLength := length_of_number lowerboundCount in
    let upperLength := length_of_number upperBoundCount in
    if strict_equal upperLength lowerLength then Normal true
    else if negb (strict_equal lowerLength upperLength) &&
            (JS.gt coerce lowerLength (VNum 0) && JS.gt coerce upperLength (VNum 0))
    then Normal false
    else if negb (strict_equal lowerLength upperLength) then Normal true
    else Normal true.

(** *** base.generateIDBKeyRange *)

(** The loop that fills [lowerbound]. *)
Fixpoint lower_bounds (values : list value) (lowerbound : list value)
    (lowerOpen : bool) : completion (list value * bool) :=
  match values with
  | [] => Normal (lowerbound, lowerOpen)
  | query :: rest =>
      if negb (String.eqb (typeof query) "object") then
        lower_bounds rest (lowerbound ++ [query]) lowerOpen
      else
        queryKeys <- Object_keys query ;;
        if contains queryKeys "greaterThanOrEqual" then
          lower_bounds rest
            (lowerbound ++ [JS.get (rules_of query) "greaterThanOrEqual"]) lowerOpen
        else if contains queryKeys "greaterThan" then
          lower_bounds rest
            (lowerbound ++ [JS.get (rules_of query) "greaterThan"]) true
        else lower_bounds rest lowerbound lowerOpen
  end.

(** The loop that fills [upperBound]. *)
Fixpoint upper_bounds (values : list value) (upperBound : list value)
    (upperOpen : bool) : completion (list value * bool) :=
  match values with
  | [] => Normal (upperBound, upperOpen)
  | query :: rest =>
      if negb (String.eqb (typeof query) "object") then
        upper_bounds rest (upperBound ++ [query]) upperOpen
      else
        queryKeys <- Object_keys query ;;
        if contains queryKeys "lessThanOrEqual" then
          upper_bounds rest
            (upperBound ++ [JS.get (rules_of query) "lessThanOrEqual"]) upperOpen
        else if contains queryKeys "lessThan" then
          upper_bounds rest
            (upperBound ++ [JS.get (rules_of query) "lessThan"]) true
        else upper_bounds rest upperBound upperOpen
  end.

(** [bound.length === 1 ? bound[0] : bound] *)
Definition unwrap (tuple : list value) : IDB.bound :=
  match tuple with
  | [v] => IDB.Scalar v
  | _ => IDB.Tuple tuple
  end.

(** The [IDBKeyRange] constructor [generateIDBKeyRange] calls, with its
    arguments.  An array is truthy, even an empty one, so the first branch
    is taken whenever the two lengths differ. *)
Definition keyRangeCall (attributes : argument) : completion IDB.IDBKeyRange :=
  let values := Mixin.getValuesFromObject (properties attributes) false in
  lowers <- lower_bounds values [] false ;;
  let '(lowerbound, lowerOpen) := lowers in
  uppers <- upper_bounds values [] false ;;
  let '(upperBound, upperOpen) := uppers in
  let array_truthy := true in
  if negb (Nat.eqb (length lowerbound) (length upperBound)) && array_truthy then
    Normal (IDB.lowerBound (unwrap lowerbound) lowerOpen)
  else if negb (Nat.eqb (length lowerbound) (length upperBound)) && array_truthy then
    Normal (IDB.upperBound (unwrap upperBound) upperOpen)
  else
    Normal (IDB.bound_ (unwrap lowerbound) (unwrap upperBound) lowerOpen upperOpen).

Definition generateIDBKeyRange (attributes orderBy : argument)
    : completion IDB.range :=
  call <- keyRangeCall attributes ;;
  IDB.construct call.

(** *** base.open *)

(** The [$.each(context.indexes[model], ...)] of [createObjectStore]: an
    index for every declared entry that is not the string ['id'], under the
    name [modelIndex.toString()]. *)
Fixpoint createIndexes (store : IDB.store) (declared : list index)
    : completion IDB.store :=
  match declared with
  | [] => Normal store
  | modelIndex :: rest =>
      store <- match modelIndex with
               | Single "id" => Normal store
               | _ => IDB.createIndex store (index_toString modelIndex)
                        (index_keyPath modelIndex) false
               end ;;
      createIndexes store rest
  end.

(** [createObjectStore(model)] of the upgrade, for the model named [model]:
    its store, deleted if there is one, is made anew with the key path [id]
    and a key generator ([keys] is an array, so [typeof keys.id] is always
    ['undefined']), then the declared indexes, then the unique index on
    [id]. *)
Definition createObjectStore (db : database) (model : string) : completion database :=
  let store := IDB.empty in
  store <- createIndexes store (default [] (indexes !! model)) ;;
  store <- IDB.createIndex store "id" (IDB.Attribute "id") true ;;
  Normal (Database (<[model := store]> (stores db)) (journal db)).

(** [request.onupgradeneeded]: [createObjectStore] for every model of
    [base.models], in the order the map lists them; a throw ends the
    handler. *)
Definition onupgradeneeded (db : database) : completion database :=
  fold_left (fun made model => db <- made ;; createObjectStore db model)
    (map fst (map_to_list models)) (Normal db).

(** [base.open(callback)], from the database as it is stored: what the
    callback is handed.  When an upgrade is needed the handler runs first;
    a throw in it aborts the upgrade, the request fails, and the callback
    is handed [null], which is [None]. *)
Definition open (stored : database) (upgrade : bool) : option database :=
  if upgrade then
    match onupgradeneeded stored with
    | Normal db => Some db
    | Throw _ => None
    end
  else Some stored.

(** *** The queries *)


(** [base.findObjectsByAttributeNoIndex]: every record of the store, made a
    model, then reduced when there is something to reduce or sort by. *)
Definition findObjectsByAttributeNoIndex (db : database) (modelName : string)
    (attributes orderBy : argument) : outcome (list JS.object) :=
  match models !! modelName with
  | None => Rejected
  | Some model =>
      match stores db !! modelName with
      | None => Unsettled
      | Some objectStore =>
          let results :=
            map (BaseModel.createFromObject model) (IDB.openCursor objectStore) in
          if given attributes || given orderBy
          then in_callback (reduce results attributes orderBy)
          else Fulfilled results
      end
  end.

(** [base.findObjectsByAttributeWithIndex]: a cursor over the index named
    after the query keys, in the compiled range and direction. *)
Definition findObjectsByAttributeWithIndex (db : database) (modelName : string)
    (attributes orderBy : argument) : outcome (list JS.object) :=
  match models !! modelName with
  | None => Rejected
  | Some model =>
      match stores db !! modelName with
      | None => Unsettled
      | Some objectStore =>
          let keys := Mixin.getKeysFromObject (properties attributes) in
          let queryKeys := keys in
          in_callback
            (storeIndex <- IDB.index objectStore (JS.toString queryKeys) ;;
             range <- generateIDBKeyRange attributes orderBy ;;
             direction <- getDirection orderBy ;;
             Normal (map (BaseModel.createFromObject model)
                       (IDB.index_openCursor (IDB.index_path storeIndex) objectStore
                          range direction)))
      end
  end.

(** [base.findBy] *)
Definition findBy (db : database) (modelName : string)
    (attributes orderBy : argument) : outcome (list JS.object) :=
  match models !! modelName with
  | None => Rejected
  | Some model =>
      let queryKeys := Mixin.getKeysFromObject (properties attributes) in
      match indexes !! modelName with
      | None => findObjectsByAttributeNoIndex db modelName attributes orderBy
      | Some declared =>
          match isValidQuery attributes with
          | Throw e => Raised e
          | Normal false =>
              findObjectsByAttributeNoIndex db modelName attributes orderBy
          | Normal true =>
              if existsb (fun i => String.eqb (JS.toString queryKeys) (index_toString i))
                   declared
              then findObjectsByAttributeWithIndex db modelName attributes orderBy
              else findObjectsByAttributeNoIndex db modelName attributes orderBy
          end
      end
  end.

(** [base.findObjectById]; [None] is the [null] the promise is fulfilled
    with when there is no such record. *)
Definition findObjectById (db : database) (modelName : string) (id : value)
    : outcome (option JS.object) :=
  match models !! modelName with
  | None => Rejected
  | Some model =>
      match stores db !! modelName with
      | None => Unsettled
      | Some objectStore =>
          in_callback
            (result <- IDB.get objectStore id ;;
             Normal (BaseModel.createFromObject model <$> result))
      end
  end.

(** What a promise makes of its executor: a throw rejects it. *)
Definition in_executor {A : Type} (o : outcome A) : outcome A :=
  match o with
  | Raised _ => Rejected
  | _ => o
  end.

(** [base.findOneBy] *)
Definition findOneBy (db : database) (modelName : string)
    (attributes orderBy : argument) : outcome (option JS.object) :=
  let keys := Mixin.getKeysFromObject (properties attributes) in
  match keys with
  | ["id"] => findObjectById db modelName (JS.get (properties attributes) "id")
  | _ =>
      match in_executor (findBy db modelName attributes orderBy) with
      | Fulfilled returnedObject => Fulfilled (head returnedObject)
      | Rejected => Rejected
      | Unsettled => Unsettled
      | Raised e => Raised e
      end
  end.

(** *** The changes *)

Definition journal_add (db : database) (storeName : string)
    (objectStore : IDB.store) (r : request) : database :=
  Database (<[storeName := objectStore]> (stores db)) (journal db ++ [r]).

(** [base.deleteItem(item)] for an item of the model [modelName]. *)
Definition deleteItem (modelName : string) (db : database) (item : JS.object)
    : outcome unit * database :=
  match stores db !! modelName with
  | None => (Unsettled, db)
  | Some objectStore =>
      match IDB.delete objectStore (JS.get item "id") with
      | Throw _ => (Unsettled, db)
      | Normal objectStore' =>
          (Fulfilled tt,
           journal_add db modelName objectStore'
             (DeleteRequest modelName (JS.get item "id")))
      end
  end.

(** The operations of a list start in order, each on the database the
    previous one left. *)
Fixpoint in_turn {A B : Type} (operation : database -> A -> outcome B * database)
    (db : database) (items : list A) : list (outcome B) * database :=
  match items with
  | [] => ([], db)
  | item :: rest =>
      let '(o, db1) := operation db item in
      let '(os, db2) := in_turn operation db1 rest in
      (o :: os, db2)
  end.

(** [base.deleteBy] *)
Definition deleteBy (db : database) (modelName : string) (attributes : argument)
    : outcome unit * database :=
  match in_executor (findBy db modelName attributes Omitted) with
  | Fulfilled itemsToDelete =>
      if Nat.eqb (length itemsToDelete) 0 then (Fulfilled tt, db)
      else
        let '(deleted, db') := in_turn (deleteItem modelName) db itemsToDelete in
        match Promise_all deleted with
        | Fulfilled _ => (Fulfilled tt, db')
        | Rejected => (Rejected, db')
        | _ => (Unsettled, db')
        end
  | Rejected => (Rejected, db)
  | _ => (Unsettled, db)
  end.

(** [base.insertObject]: everything happens in the callback of [base.open],
    the lookup of the model included; a throw there leaves the promise
    unsettled, a failing request rejects it. *)
Definition insertObject (modelName : string) (db : database) (entity : JS.object)
    : outcome unit * database :=
  match models !! modelName with
  | None => (Unsettled, db)
  | Some blank =>
      let model := BaseModel.createFromObject blank entity in
      match stores db !! modelName with
      | None => (Unsettled, db)
      | Some store =>
          match IDB.put store (BaseModel.clone model) with
          | Throw _ => (Unsettled, db)
          | Normal (IDB.Error _) => (Rejected, db)
          | Normal (IDB.Success store') =>
              (Fulfilled tt,
               journal_add db modelName store'
                 (PutRequest modelName (BaseModel.clone model)))
          end
      end
  end.

(** The second argument of [insert]: one entity, or an array of them. *)
Inductive entities : Type :=
| One (entity : JS.object)
| Many (array : list JS.object).

(** [base.insert] *)
Definition insert (db : database) (modelName : string) (entity : entities)
    : outcome unit * database :=
  match entity with
  | Many array =>
      let '(inserted, db') := in_turn (insertObject modelName) db array in
      match Promise_all inserted with
      | Fulfilled _ => (Fulfilled tt, db')
      | Rejected => (Rejected, db')
      | _ => (Unsettled, db')
      end
  | One entity => insertObject modelName db entity
  end.

End Adapter.

End IndexedDb.

(** ** web-sql.js: the WebSQL implementation of the database *)

Module WebSQL.

(** [base.operators[operatorKey]], as the string concatenation prints it. *)
Definition operators (operatorKey : string) : string :=
  if String.eqb operatorKey "greaterThan" then ">"
  else if String.eqb operatorKey "greaterThanOrEqual" then ">="
  else if String.eqb operatorKey "lessThan" then "<"
  else if String.eqb operatorKey "lessThanOrEqual" then "<="
  else "undefined".

(** The string a value contributes to a concatenation. *)
Definition to_string (v : value) : string :=
  match v with
  | VUndefined => "undefined"
  | VNull => "null"
  | VBool true => "true"
  | VBool false => "false"
  | VNum n => pretty n
  | VStr s => s
  | VFun label => label
  | VObj _ => "[object Object]"
  | VNaN => "NaN"
  end.

(** The inner [$.each(operatorKeys, ...)] of [generateWhereClause]. *)
Fixpoint operator_terms (key : string) (operatorKeys : list string)
    (operatorIndex length : nat) (sql : string) : string :=
  match operatorKeys with
  | [] => sql
  | operatorKey :: rest =>
      operator_terms key rest (S operatorIndex) length
        (sql +:+ (if Mixin.isFirst operatorIndex then " WHERE " else "") +:+
         key +:+ " " +:+ operators operatorKey +:+ " ? " +:+
         (if negb (Mixin.isLast operatorIndex length) then "AND " else ""))
  end.

(** The outer [$.each(keys, ...)] of [generateWhereClause]. *)
Fixpoint where_terms (attributes : JS.object) (keys : list string)
    (index length : nat) (sql : string) : string :=
  match keys with
  | [] => sql
  | key :: rest =>
      where_terms attributes rest (S index) length
        (match JS.get attributes key with
         | VObj sub =>
             let operatorKeys := Mixin.getKeysFromObject sub in
             operator_terms key operatorKeys 0 (List.length operatorKeys) sql
         | _ =>
             sql +:+ (if Mixin.isFirst index then " WHERE " else "") +:+
             key +:+ " = ? " +:+
             (if negb (Mixin.isLast index length) then "AND " else "")
         end)
  end.

(** [base.generateWhereClause(attributes)] *)
Definition generateWhereClause (attributes : JS.object) : string :=
  let keys := Mixin.getKeysFromObject attributes in
  where_terms attributes keys 0 (List.length keys) "".

Fixpoint order_terms (attributes : JS.object) (keys : list string)
    (index length : nat) (sql : string) : string :=
  match keys with
  | [] => sql
  | key :: rest =>
      order_terms attributes rest (S index) length
        (sql +:+ (if Mixin.isFirst index then " ORDER BY " else "") +:+
         key +:+ " " +:+ to_string (JS.get attributes key) +:+ " " +:+
         (if negb (Mixin.isLast index length) then ", " else ""))
  end.

(** [base.generateOrderByClause(attributes)] *)
Definition generateOrderByClause (attributes : JS.object) : string :=
  let keys := Mixin.getKeysFromObject attributes in
  order_terms attributes keys 0 (List.length keys) "".

(** [base.generateSelectQuery(model, attributes, orderBy)] for the model
    named [modelName]. *)
Definition generateSelectQuery (modelName : string) (attributes orderBy : argument)
    : string :=
  let sql := "SELECT * FROM " +:+ modelName in
  let sql := match attributes with
             | Obj a => sql +:+ generateWhereClause a
             | _ => sql
             end in
  match orderBy with
  | Obj o => sql +:+ generateOrderByClause o
  | _ => sql
  end.

(** [base.generateDeleteQuery(model, attributes)] *)
Definition generateDeleteQuery (modelName : string) (attributes : argument) : string :=
  let sql := "DELETE FROM " +:+ modelName in
  match attributes with
  | Obj a => sql +:+ generateWhereClause a
  | _ => sql
  end.

(** The column list and the placeholder list of [insertObject]. *)
Fixpoint column_list (keys : list string) (index length : nat) (sql : string) : string :=
  match keys with
  | [] => sql
  | key :: rest =>
      column_list rest (S index) length
        (sql +:+ key +:+ (if Mixin.isLast index length then "" else ","))
  end.

Fixpoint placeholder_list (keys : list string) (index length : nat) (sql : string)
    : string :=
  match keys with
  | [] => sql
  | key :: rest =>
      placeholder_list rest (S index) length
        (sql +:+ "?" +:+ (if Mixin.isLast index length then "" else ","))
  end.

(** The statement [insertObject] builds for a model object. *)
Definition generateInsertQuery (modelName : string) (model : JS.object) : string :=
  let keys := Mixin.getKeysFromObject model in
  let sql := "INSERT OR REPLACE INTO " +:+ modelName +:+ " (" in
  let sql := column_list keys 0 (List.length keys) sql in
  let sql := sql +:+ ") VALUES (" in
  let sql := placeholder_list keys 0 (List.length keys) sql in
  sql +:+ ");".

(** The column definitions of [createTable]: the column [id] is the
    primary key. *)
Fixpoint column_definitions (keys : list string) (index length : nat) (sql : string)
    : string :=
  match keys with
  | [] => sql
  | key :: rest =>
      column_definitions rest (S index) length
        (if String.eqb key "id" then
           sql +:+ key +:+ " PRIMARY KEY" +:+
           (if Mixin.isLast index length then "" else ",")
         else
           sql +:+ key +:+ (if Mixin.isLast index length then "" else ","))
  end.

(** The statement [createTable] builds for a model object. *)
Definition createTable_statement (modelName : string) (model : JS.object) : string :=
  let keys := Mixin.getKeysFromObject model in
  let sql := "CREATE TABLE IF NOT EXISTS " +:+ modelName +:+ " (" in
  let sql := column_definitions keys 0 (List.length keys) sql in
  sql +:+ ");".

(** The statement [dropTable] builds. *)
Definition dropTable_statement (modelName : string) : string :=
  "DROP TABLE IF EXISTS " +:+ modelName.

Section Adapter.

(** [base.models], as for the other adapter. *)
Variable models : gmap string JS.object.

(** The SQL engine behind [tx.executeSql(sql, values)]: from the state of
    the database, the statement and the values bound to its placeholders,
    either the new state and the rows of the result, or a failure, which
    rolls the transaction back. *)
Variable sqldb : Type.
Variable executeSql : sqldb -> string -> list value -> option (sqldb * list JS.object).

(** [base.findBy]: the whole body runs in the executor of the promise. *)
Definition findBy (db : sqldb) (modelName : string) (attributes orderBy : argument)
    : outcome (list JS.object) :=
  match models !! modelName with
  | None => Rejected
  | Some model =>
      let sql := generateSelectQuery modelName attributes orderBy in
      let values := match attributes with
                    | Obj a => Mixin.getValuesFromObject a true
                    | _ => []
                    end in
      match executeSql db sql values with
      | Some (_, rows) => Fulfilled (map (BaseModel.createFromObject model) rows)
      | None => Rejected
      end
  end.

(** [base.findOneBy] *)
Definition findOneBy (db : sqldb) (modelName : string) (attributes orderBy : argument)
    : outcome (option JS.object) :=
  match findBy db modelName attributes orderBy with
  | Fulfilled returnedObject => Fulfilled (head returnedObject)
  | Rejected => Rejected
  | Unsettled => Unsettled
  | Raised _ => Rejected
  end.

(** [base.deleteBy]; the values are collected without [deep]. *)
Definition deleteBy (db : sqldb) (modelName : string) (attributes : argument)
    : outcome unit * sqldb :=
  match models !! modelName with
  | None => (Rejected, db)
  | Some model =>
      let sql := generateDeleteQuery modelName attributes in
      let values := match attributes with
                    | Obj a => Mixin.getValuesFromObject a false
                    | _ => []
                    end in
      match executeSql db sql values with
      | Some (db', _) => (Fulfilled tt, db')
      | None => (Rejected, db)
      end
  end.

(** [base.insertObject] *)
Definition insertObject (modelName : string) (db : sqldb) (entity : JS.object)
    : outcome unit * sqldb :=
  match models !! modelName with
  | None => (Rejected, db)
  | Some blank =>
      let model := BaseModel.createFromObject blank entity in
      let values := Mixin.getValuesFromObject model false in
      match executeSql db (generateInsertQuery modelName model) values with
      | Some (db', _) => (Fulfilled tt, db')
      | None => (Rejected, db)
      end
  end.

(** [base.createTable(model)] for the model named [modelName]: the statement
    fulfils or rejects the promise. *)
Definition createTable (db : sqldb) (modelName : string) (model : JS.object)
    : outcome unit * sqldb :=
  match executeSql db (createTable_statement modelName model) [] with
  | Some (db', _) => (Fulfilled tt, db')
  | None => (Rejected, db)
  end.

(** [base.dropTable(model)] *)
Definition dropTable (db : sqldb) (modelName : string) : outcome unit * sqldb :=
  match executeSql db (dropTable_statement modelName) [] with
  | Some (db', _) => (Fulfilled tt, db')
  | None => (Rejected, db)
  end.

End Adapter.

End WebSQL.

(** ** db-factory.js: the models handed to the adapters *)

Module DbFactory.

(** [tranformModel] of [base.transformModels], for a model whose
    constructor, called without arguments, returns [constructed]: an object
    with the empty string under every data key, extended with the base
    model. *)
Definition transformModel (constructed : JS.object) : JS.object :=
  let keys := BaseModel.getKeysFromObject constructed in
  let obj := fold_left (fun obj key => JS.set obj key (VStr "")) keys [] in
  extend [obj; BaseModel.baseM].

End DbFactory.

(** ** Concrete models, stores and queries *)

Module Sample.

Import IndexedDb.

(** The constructor of [dummyModel], called without arguments. *)
Definition dummyModel : JS.object :=
  [("id", VUndefined); ("a", VUndefined); ("b", VUndefined); ("c", VUndefined)].

Definition models : gmap string JS.object := {[ "dummyModel" := dummyModel ]}.

(** The README's first invalid query:
    [{foo: {lessThanOrEqual: 15}, bar: {greaterThanOrEqual: 1, lessThanOrEqual: 10}}],
    on the attributes [a] and [b]. *)
Definition unbalanced : JS.object :=
  [("a", VObj [("lessThanOrEqual", VNum 15)]);
   ("b", VObj [("greaterThanOrEqual", VNum 1); ("lessThanOrEqual", VNum 10)])].

(** The README's first valid query. *)
Definition balanced : JS.object :=
  [("a", VObj [("greaterThanOrEqual", VNum 10); ("lessThanOrEqual", VNum 15)]);
   ("b", VObj [("greaterThanOrEqual", VNum 1); ("lessThanOrEqual", VNum 10)])].

(** [{a: {lessThanOrEqual: 15}}] *)
Definition at_most_15 : JS.object := [("a", VObj [("lessThanOrEqual", VNum 15)])].

(** The query of the usage note that heads both adapters. *)
Definition studio_events : JS.object :=
  [("studio", VNum 5671);
   ("date", VObj [("greaterThanOrEqual", VStr "2014-08-14");
                  ("lessThanOrEqual", VStr "2014-08-18")])].

(** [{a: {greaterThan: 3}, b: {lessThan: 10}}] *)
Definition above_3_below_10 : JS.object :=
  [("a", VObj [("greaterThan", VNum 3)]); ("b", VObj [("lessThan", VNum 10)])].

(** The query of the test "FindBy Query With No Results Returns Empty
    Array": [{id: {greaterThan: 999}}]. *)
Definition id_above_999 : JS.object := [("id", VObj [("greaterThan", VNum 999)])].

(** An entity for a model nobody registered. *)
Definition stray : JS.object := [("id", VNum 1); ("a", VNum 2)].

(** Two entities with the id 7. *)
Definition first_7 : JS.object := [("id", VNum 7); ("a", VNum 1); ("b", VStr "one")].


Definition record_1_5 : JS.object := [("id", VNum 1); ("a", VNum 1); ("b", VNum 5)].

Definition record_12_100 : JS.object := [("id", VNum 1); ("a", VNum 12); ("b", VNum 100)].

(** The indexes of the [dummyModel] store as the upgrade makes them when
    [context.indexes.dummyModel] is [['id', 'a', ['a', 'b']]]. *)
Definition schema : list IDB.IDBIndex :=
  [IDB.Index "a" (IDB.Attribute "a") false;
   IDB.Index "a,b" (IDB.Attributes ["a"; "b"]) false;
   IDB.Index "id" (IDB.Attribute "id") true].

(** A database whose [dummyModel] store is empty. *)
Definition empty_db : database := Database {[ "dummyModel" := IDB.Store [] 1 schema ]} [].

(** A database whose [dummyModel] store holds one record. *)
Definition db_of (record : JS.object) : database :=
  Database {[ "dummyModel" := IDB.Store [(IDB.KNum 1, record)] 2 schema ]} [].

(** A store of four records in key order, two of them with the same [a]. *)
Definition sorted_store : IDB.store :=
  IDB.Store [(IDB.KNum 1, [("id", VNum 1); ("a", VNum 15); ("b", VNum 0)]);
             (IDB.KNum 2, [("id", VNum 2); ("a", VNum 11); ("b", VNum 1)]);
             (IDB.KNum 3, [("id", VNum 3); ("a", VNum 11); ("b", VNum 2)]);
             (IDB.KNum 4, [("id", VNum 4); ("a", VNum 20); ("b", VNum 3)])] 5 schema.

Definition sorted_db : database := Database {[ "dummyModel" := sorted_store ]} [].

(** A model whose constructor gives a default:
    [function (id, title, status) {
       return { id: id, title: title, status: status || 'draft' }; }],
    called without arguments; two entities with the id 7; and the database
    of the model as the upgrade makes it when no index is declared. *)
Definition post : JS.object :=
  [("id", VUndefined); ("title", VUndefined); ("status", VStr "draft")].

Definition posts : gmap string JS.object := {[ "post" := post ]}.

Definition first_post : JS.object :=
  [("id", VNum 7); ("title", VStr "one"); ("status", VStr "draft")].
Definition second_post : JS.object :=
  [("id", VNum 7); ("title", VStr "two"); ("status", VStr "live")].

Definition posts_db : database :=
  Database {[ "post" := IDB.Store [] 1 [IDB.Index "id" (IDB.Attribute "id") true] ]} [].

(** Index declarations: none, [id], the attribute [a], the compound
    [a, b]. *)
Definition no_index : gmap string (list index) := ∅.
Definition index_id : gmap string (list index) := {[ "dummyModel" := [Single "id"] ]}.
Definition index_a : gmap string (list index) := {[ "dummyModel" := [Single "a"] ]}.
Definition index_a_b : gmap string (list index) :=
  {[ "dummyModel" := [Compound ["a"; "b"]] ]}.
Definition index_all : gmap string (list index) :=
  {[ "dummyModel" := [Single "id"; Single "a"; Compound ["a"; "b"]] ]}.

End Sample.

Import IndexedDb.

(** ** The vocabulary of the properties *)

(** An object has no two properties of the same name. *)
Definition distinct_names (o : JS.object) : Prop := NoDup (map fst o).

Definition well_formed (o : JS.object) : bool := bool_decide (distinct_names o).

(** The object gives the attribute no value: it has no such property, or
    only [undefined] there. *)
Definition gives_nothing (o : JS.object) (a : string) : Prop :=
  forall v : value, In (a, v) o -> v = VUndefined.

Definition unset (o : JS.object) (a : string) : bool :=
  forallb (fun p => negb (String.eqb (fst p) a) ||
                    match snd p with VUndefined => true | _ => false end) o.

(** What reading [a] gives after the properties of [s] were copied over a
    target that gave [d]. *)
Fixpoint overlay (s : JS.object) (a : string) (d : value) : value :=
  match s with
  | [] => d
  | (k, v) :: rest =>
      overlay rest a
        (if String.eqb k a then match v with VUndefined => d | _ => v end else d)
  end.

(** The base methods are the only names [createFromObject] adds. *)
Definition is_method (a : string) : bool :=
  existsb (String.eqb a) (map fst BaseModel.baseM).

(** What [clone] keeps of a well-formed object: everything but the
    functions. *)
Definition data (o : JS.object) : JS.object :=
  List.filter (fun p => negb (isFunction (snd p))) o.


(** The records of a store come by ascending key, as [put] keeps them. *)
Fixpoint ascending (rs : list (IDB.key * JS.object)) : bool :=
  match rs with
  | [] => true
  | r :: rest => forallb (fun r' => IDB.ltb (fst r) (fst r')) rest && ascending rest
  end.

(** Every store of the database is in key order. *)
Definition in_key_order (db : database) : Prop :=
  forall (modelName : string) (objectStore : IDB.store),
    stores db !! modelName = Some objectStore ->
    ascending (IDB.records objectStore) = true.

(** A scalar that is a valid key: a number or a string. *)
Definition scalar (v : value) : bool :=
  match v with
  | VNum _ | VStr _ => true
  | _ => false
  end.

(** Two numbers, or two strings. *)
Definition same_kind (v w : value) : bool :=
  match v, w with
  | VNum _, VNum _ => true
  | VStr _, VStr _ => true
  | _, _ => false
  end.

(** The key of a scalar. *)
Definition key_of (v : value) : IDB.key :=
  match v with
  | VNum n => IDB.KNum n
  | VStr s => IDB.KStr s
  | _ => IDB.KArr []
  end.

(** A range on one attribute: bounded below, or bounded on both sides, the
    two operators in either order. *)
Inductive range_query : Type :=
| From (open : bool) (l : value)
| Between (lowerOpen : bool) (l : value) (upperOpen : bool) (u : value)
    (upperFirst : bool).

Definition lower_operator (open : bool) : string :=
  if open then "greaterThan" else "greaterThanOrEqual".

Definition upper_operator (open : bool) : string :=
  if open then "lessThan" else "lessThanOrEqual".

(** The operator object of the range. *)
Definition range_term (q : range_query) : value :=
  match q with
  | From open l => VObj [(lower_operator open, l)]
  | Between lo l uo u false => VObj [(lower_operator lo, l); (upper_operator uo, u)]
  | Between lo l uo u true => VObj [(upper_operator uo, u); (lower_operator lo, l)]
  end.

Definition lower_bound (q : range_query) : value :=
  match q with
  | From _ l => l
  | Between _ l _ _ _ => l
  end.

(** The key [k] is within the bounds. *)
Definition satisfies (q : range_query) (k : IDB.key) : bool :=
  match q with
  | From open l =>
      match IDB.compare (key_of l) k with
      | Lt => true
      | Eq => negb open
      | Gt => false
      end
  | Between lo l uo u _ =>
      match IDB.compare (key_of l) k with
      | Lt => true
      | Eq => negb lo
      | Gt => false
      end &&
      match IDB.compare k (key_of u) with
      | Lt => true
      | Eq => negb uo
      | Gt => false
      end
  end.

(** The queries on which the indexed path and the scan are compared:
    equalities with scalars on one or more attributes, or a range on one
    attribute. *)
Inductive plain_query : Type :=
| Equalities (terms : JS.object)
| Range (a : string) (q : range_query).

(** The [attributes] object of the query. *)
Definition query_object (pq : plain_query) : JS.object :=
  match pq with
  | Equalities terms => terms
  | Range a q => [(a, range_term q)]
  end.

Definition query_keys (pq : plain_query) : list string := map fst (query_object pq).

(** The key path of the index on exactly the attributes of the query. *)
Definition query_path (pq : plain_query) : IDB.keyPath :=
  match query_keys pq with
  | [a] => IDB.Attribute a
  | keys => IDB.Attributes keys
  end.

(** The key path of the index the store has under a name, if it has
    one. *)
Definition store_index (objectStore : IDB.store) (name : string)
    : option IDB.keyPath :=
  match IDB.index objectStore name with
  | Normal storeIndex => Some (IDB.index_path storeIndex)
  | Throw _ => None
  end.

(** The only unique indexes of the store are on [id]. *)
Definition unique_on_id (objectStore : IDB.store) : bool :=
  forallb (fun i => negb (IDB.index_unique i) ||
                    match IDB.index_path i with
                    | IDB.Attribute name => String.eqb name "id"
                    | IDB.Attributes _ => false
                    end) (IDB.indexes objectStore).

(** The declared index is the string ['id'], for which the upgrade makes no
    index of its own. *)
Definition is_id (i : index) : bool :=
  match i with
  | Single name => String.eqb name "id"
  | Compound _ => false
  end.

(** The index the upgrade makes for a declared one. *)
Definition made (i : index) : IDB.IDBIndex :=
  IDB.Index (index_toString i) (index_keyPath i) false.

(** The store is as [createObjectStore] makes it for a model with the
    declared indexes: without records, with an index for every declared
    one that is not the string ['id'], then the unique index on [id], no
    two of one name. *)
Definition made_for (declared : list index) (objectStore : IDB.store) : Prop :=
  IDB.records objectStore = [] /\
  IDB.indexes objectStore =
    map made (List.filter (fun i => negb (is_id i)) declared) ++
    [IDB.Index "id" (IDB.Attribute "id") true] /\
  NoDup (map IDB.index_name (IDB.indexes objectStore)).



(** The attribute names are identifiers: as key paths they name one
    property each. *)
Definition identifiers (names : list string) : bool := forallb IDB.identifier names.

(** The query is one the engine accepts: the equalities are on distinct
    attributes, at least one, with scalars; the bounds of the range are
    scalars of one kind, the lower one below the upper one, or equal to it
    with both sides closed. *)
Definition admissible (pq : plain_query) : bool :=
  match pq with
  | Equalities terms =>
      negb (Nat.eqb (length terms) 0) && well_formed terms &&
      forallb (fun t => scalar (snd t)) terms
  | Range _ (From _ l) => scalar l
  | Range _ (Between lo l uo u _) =>
      same_kind l u &&
      match IDB.compare (key_of l) (key_of u) with
      | Lt => true
      | Eq => negb lo && negb uo
      | Gt => false
      end
  end.

(** What the query needs of a stored record: distinct property names and,
    for a range, a value of the kind of the bounds. *)
Definition fits (pq : plain_query) (r : JS.object) : bool :=
  well_formed r &&
  match pq with
  | Equalities _ => true
  | Range a q => same_kind (JS.get r a) (lower_bound q)
  end.

(** The record answers the query. *)
Definition answers (pq : plain_query) (r : JS.object) : bool :=
  match pq with
  | Equalities terms =>
      forallb (fun t => strict_equal (JS.get r (fst t)) (snd t)) terms
  | Range a q => satisfies q (key_of (JS.get r a))
  end.

(** The key of a tuple of scalars, as [generateIDBKeyRange] hands it over:
    unwrapped when there is one. *)
Definition tuple_key (vs : list value) : IDB.key :=
  match vs with
  | [v] => key_of v
  | _ => IDB.KArr (map key_of vs)
  end.

(** The range the engine builds for the query. *)
Definition range_of (pq : plain_query) : IDB.range :=
  match pq with
  | Equalities terms =>
      IDB.Range (Some (tuple_key (map snd terms))) (Some (tuple_key (map snd terms)))
        false false
  | Range _ (From open l) => IDB.Range (Some (key_of l)) None open true
  | Range _ (Between lo l uo u _) =>
      IDB.Range (Some (key_of l)) (Some (key_of u)) lo uo
  end.

(** The entry of a record in the index on [path], for a record the index
    holds. *)
Definition entry_of (path : IDB.keyPath) (r : IDB.key * JS.object) : IDB.entry :=
  (default (IDB.KArr []) (IDB.index_key path (snd r)), fst r, snd r).

(** Index key, then primary key: the order of the entries, as one key. *)
Definition entry_key (e : IDB.entry) : IDB.key :=
  IDB.KArr [fst (fst e); snd (fst e)].
(** Every record is filed under the key of its [id]. *)
Definition filed_by_id (rs : list (IDB.key * JS.object)) : bool :=
  forallb (fun r => match IDB.to_key (JS.get (snd r) "id") with
                    | Some k => IDB.eqb k (fst r)
                    | None => false
                    end) rs.

(** The records come in key order, each under the key of its [id], with
    distinct property names. *)
Definition sound (rs : list (IDB.key * JS.object)) : bool :=
  ascending rs && filed_by_id rs && forallb (fun r => well_formed (snd r)) rs.

(** Every store of the database is sound. *)
Definition consistent (db : database) : Prop :=
  forall (modelName : string) (objectStore : IDB.store),
    stores db !! modelName = Some objectStore ->
    sound (IDB.records objectStore) = true.

(** A query of equalities followed by a range on one more attribute. *)
Definition leading_query (terms : JS.object) (a : string) (q : range_query)
    : JS.object :=
  terms ++ [(a, range_term q)].

(** The range is bounded on both sides. *)
Definition two_sided (q : range_query) : bool :=
  match q with
  | Between _ _ _ _ _ => true
  | From _ _ => false
  end.




(** The models of the records whose object passes [p], in the order of the
    records. *)
Definition selection (blank : JS.object) (p : JS.object -> bool)
    (rs : list (IDB.key * JS.object)) : list JS.object :=
  map (fun r => BaseModel.createFromObject blank (snd r))
    (List.filter (fun r => p (snd r)) rs).

(** A value that is none of the keys the engine accepts and no range
    descriptor either. *)
Definition no_key (v : value) : bool :=
  match v with
  | VUndefined | VNull | VBool _ => true
  | _ => false
  end.

(** A value a query compares by equality: anything but a range descriptor
    and a function. *)
Definition plain (v : value) : bool :=
  match v with
  | VObj _ | VFun _ => false
  | _ => true
  end.

(** ** Properties *)

(** *** The traversal direction *)

Lemma strict_equal_string (v : value) (s : string) :
  strict_equal v (VStr s) = true <-> v = VStr s.
Proof.
  destruct v; simpl; split; try discriminate; try congruence.
  - intros H. apply String.eqb_eq in H. now subst.
  - intros H. injection H as ->. apply String.eqb_refl.
Qed.

Lemma get_first (k : string) (v : value) (rest : JS.object) :
  JS.get ((k, v) :: rest) (first_key ((k, v) :: rest)) = v.
Proof. simpl. now rewrite String.eqb_refl. Qed.

(** C10.  The cursor runs forward ([next]) exactly when [orderBy] is left
    out or the direction of its first attribute is the string [asc]; for any
    other direction, and for an object without attributes, it runs backward
    ([prev]).  (For [null] the function throws and there is no direction.) *)
Theorem getDirection_next_iff_absent_or_asc :
  getDirection Omitted = Normal IDB.next /\
  (forall (attribute : string) (direction : value) (rest : JS.object),
      (getDirection (Obj ((attribute, direction) :: rest)) = Normal IDB.next
       <-> direction = VStr "asc") /\
      (direction <> VStr "asc" ->
       getDirection (Obj ((attribute, direction) :: rest)) = Normal IDB.prev)) /\
  getDirection (Obj []) = Normal IDB.prev /\
  (forall orderBy : argument,
      getDirection orderBy = Normal IDB.next <->
      orderBy = Omitted \/
      exists o, orderBy = Obj o /\ JS.get o (first_key o) = VStr "asc").
Proof.
  split; [reflexivity|]. split; [|split; [reflexivity|]].
  - intros attribute direction rest. unfold getDirection.
    rewrite get_first.
    destruct (strict_equal direction (VStr "asc")) eqn:E.
    + apply strict_equal_string in E. split; [tauto | congruence].
    + assert (direction <> VStr "asc") as Hne.
      { intros H. apply strict_equal_string in H. congruence. }
      split; [split; [discriminate | tauto] | reflexivity].
  - intros [| |o]; simpl.
    + split; [auto | reflexivity].
    + split; [discriminate | intros [H | (o & H & _)]; discriminate].
    + destruct (strict_equal (JS.get o (first_key o)) (VStr "asc")) eqn:E.
      * apply strict_equal_string in E. split; [|reflexivity].
        intros _. right. eauto.
      * split; [discriminate|]. intros [H | (o' & H & Hasc)]; [discriminate|].
        injection H as <-. apply strict_equal_string in Hasc. congruence.
Qed.

(** *** The validity check *)

(** Whenever [isValidQuery] returns, it returns [true]: the two counts are
    numbers, and the [length] of a number is [undefined] on both sides of
    the first comparison. *)
Lemma isValidQuery_never_false (coerce : coercion) (attributes : argument) (b : bool) :
  isValidQuery coerce attributes = Normal b -> b = true.
Proof.
  unfold isValidQuery.
  destruct (Nat.eqb _ 1); [congruence|].
  destruct (count_bounds _ 0 0) as [[lo up]|e]; simpl; congruence.
Qed.

(** C2 (the code departs from it).  The query the README lists as invalid,
    one attribute bounded above and one bounded on both sides, is judged
    valid, and with a compound index on its two attributes [findBy] takes
    the indexed path for it, not the scan. *)
Theorem isValidQuery_accepts_unbalanced_query :
  forall (coerce : coercion) (db : database) (orderBy : argument),
    isValidQuery coerce (Obj Sample.unbalanced) = Normal true /\
    findBy coerce Sample.models Sample.index_a_b db "dummyModel"
      (Obj Sample.unbalanced) orderBy =
    findObjectsByAttributeWithIndex Sample.models db "dummyModel"
      (Obj Sample.unbalanced) orderBy.
Proof.
  intros coerce db orderBy. split; [reflexivity|].
  unfold findBy, Sample.models, Sample.index_a_b.
  rewrite !lookup_singleton_eq. reflexivity.
Qed.

(** *** The key range *)

(** The branch of [generateIDBKeyRange] that would build an upper-bound-only
    range is never taken. *)
Lemma keyRangeCall_never_upper_only (attributes : argument) (upper : IDB.bound)
    (open : bool) :
  keyRangeCall attributes <> Normal (IDB.upperBound upper open).
Proof.
  unfold keyRangeCall.
  destruct (lower_bounds _ [] false) as [[lowerbound lowerOpen]|e]; simpl;
    [|discriminate].
  destruct (upper_bounds _ [] false) as [[upperBound upperOpen]|e]; simpl;
    [|discriminate].
  destruct (Nat.eqb _ _); simpl; discriminate.
Qed.

(** C3 (the code departs from it).  For a query with an upper bound only,
    [{a: {lessThanOrEqual: 15}}], the range built is not an upper-bound-only
    range: it is the lower-bound-only range from the empty array, which no
    number is in; through the index on [a], [findBy] then misses the record
    whose [a] is 1. *)
Theorem generateIDBKeyRange_upper_only_query :
  keyRangeCall (Obj Sample.at_most_15) = Normal (IDB.lowerBound (IDB.Tuple []) false) /\
  generateIDBKeyRange (Obj Sample.at_most_15) Omitted =
    Normal (IDB.Range (Some (IDB.KArr [])) None false true) /\
  (forall n : Z,
      IDB.includes (IDB.Range (Some (IDB.KArr [])) None false true) (IDB.KNum n)
      = false) /\
  forall coerce : coercion,
    findBy coerce Sample.models Sample.index_a (Sample.db_of Sample.record_1_5)
      "dummyModel" (Obj Sample.at_most_15) Omitted = Fulfilled [].
Proof.
  split; [reflexivity|]. split; [reflexivity|]. split; [reflexivity|].
  intros coerce. unfold findBy, Sample.models, Sample.index_a.
  rewrite !lookup_singleton_eq. simpl.
  unfold findObjectsByAttributeWithIndex, Sample.db_of. simpl.
  rewrite !lookup_singleton_eq. reflexivity.
Qed.

(** *** The WHERE clause *)

(** C4 (the code departs from it).  For the query of the adapters' own usage
    note, an equality on one attribute and a range on another, the clause
    has two [WHERE] prefixes. *)
Theorem generateWhereClause_repeats_where :
  WebSQL.generateWhereClause Sample.studio_events =
    " WHERE studio = ? AND  WHERE date >= ? AND date <= ? " /\
  Mixin.getValuesFromObject Sample.studio_events true =
    [VNum 5671; VStr "2014-08-14"; VStr "2014-08-18"].
Proof. split; reflexivity. Qed.

(** *** The scan filter *)

(** C5 (the code departs from it).  A record whose [a] fails
    [greaterThan: 3] is retained because the later attribute [b] passes
    [lessThan: 10]. *)
Theorem reduce_retains_record_failing_earlier_range :
  forall coerce : coercion,
    JS.gt coerce (JS.get Sample.record_1_5 "a") (VNum 3) = false /\
    reduce coerce [Sample.record_1_5] (Obj Sample.above_3_below_10) Omitted =
      Normal [Sample.record_1_5].
Proof. intros coerce. split; reflexivity. Qed.

(** *** Unknown models *)

Section UnknownModel.
Variable coerce : coercion.
Variable models : gmap string JS.object.
Variable indexes : gmap string (list index).
Variable modelName : string.
Hypothesis unknown : models !! modelName = None.

Lemma findBy_unknown_model (db : database) (attributes orderBy : argument) :
  findBy coerce models indexes db modelName attributes orderBy = Rejected.
Proof. unfold findBy. now rewrite unknown. Qed.

Lemma findObjectById_unknown_model (db : database) (id : value) :
  findObjectById models db modelName id = Rejected.
Proof. unfold findObjectById. now rewrite unknown. Qed.

Lemma findOneBy_unknown_model (db : database) (attributes orderBy : argument) :
  findOneBy coerce models indexes db modelName attributes orderBy = Rejected.
Proof.
  unfold findOneBy. rewrite findBy_unknown_model, findObjectById_unknown_model.
  simpl. repeat case_match; reflexivity.
Qed.

Lemma deleteBy_unknown_model (db : database) (attributes : argument) :
  deleteBy coerce models indexes db modelName attributes = (Rejected, db).
Proof. unfold deleteBy. now rewrite findBy_unknown_model. Qed.

(** The model is looked up inside the callback of [base.open], where the
    failing property access is an uncaught exception. *)
Lemma insertObject_unknown_model (db : database) (entity : JS.object) :
  insertObject models modelName db entity = (Unsettled, db).
Proof. unfold insertObject. now rewrite unknown. Qed.

Section Relational.
Variable sqldb : Type.
Variable executeSql : sqldb -> string -> list value -> option (sqldb * list JS.object).

Lemma websql_findBy_unknown_model (db : sqldb) (attributes orderBy : argument) :
  WebSQL.findBy models sqldb executeSql db modelName attributes orderBy = Rejected.
Proof. unfold WebSQL.findBy. now rewrite unknown. Qed.

Lemma websql_findOneBy_unknown_model (db : sqldb) (attributes orderBy : argument) :
  WebSQL.findOneBy models sqldb executeSql db modelName attributes orderBy = Rejected.
Proof. unfold WebSQL.findOneBy. now rewrite websql_findBy_unknown_model. Qed.

Lemma websql_deleteBy_unknown_model (db : sqldb) (attributes : argument) :
  WebSQL.deleteBy models sqldb executeSql db modelName attributes = (Rejected, db).
Proof. unfold WebSQL.deleteBy. now rewrite unknown. Qed.

Lemma websql_insertObject_unknown_model (db : sqldb) (entity : JS.object) :
  WebSQL.insertObject models sqldb executeSql modelName db entity = (Rejected, db).
Proof. unfold WebSQL.insertObject. now rewrite unknown. Qed.
End Relational.

End UnknownModel.

(** C8 (the code departs from it).  On the IndexedDB adapter, for a model
    that is not registered, [findBy], [findOneBy] and [deleteBy] are
    rejected, but [insert] leaves its promise unsettled: it is not rejected.
    The database is untouched by all four. *)
Theorem insert_unknown_model_is_not_rejected :
  forall (coerce : coercion) (db : database) (attributes orderBy : argument),
    findBy coerce Sample.models Sample.index_id db "notAModel" attributes orderBy =
      Rejected /\
    findOneBy coerce Sample.models Sample.index_id db "notAModel" attributes orderBy =
      Rejected /\
    deleteBy coerce Sample.models Sample.index_id db "notAModel" attributes =
      (Rejected, db) /\
    insert Sample.models db "notAModel" (One Sample.stray) = (Unsettled, db).
Proof.
  intros coerce db attributes orderBy.
  assert (Sample.models !! "notAModel" = None) as Hnone by reflexivity.
  split; [|split; [|split]].
  - now apply findBy_unknown_model.
  - now apply findOneBy_unknown_model.
  - now apply deleteBy_unknown_model.
  - simpl. now apply insertObject_unknown_model.
Qed.

(** *** Queries without results *)

Lemma findOneBy_by_id (coerce : coercion) (models : gmap string JS.object)
    (indexes : gmap string (list index)) (db : database) (modelName : string)
    (attributes orderBy : argument) :
  Mixin.getKeysFromObject (properties attributes) = ["id"] ->
  findOneBy coerce models indexes db modelName attributes orderBy =
  findObjectById models db modelName (JS.get (properties attributes) "id").
Proof. unfold findOneBy. now intros ->. Qed.

Lemma findOneBy_by_findBy (coerce : coercion) (models : gmap string JS.object)
    (indexes : gmap string (list index)) (db : database) (modelName : string)
    (attributes orderBy : argument) (returnedObject : list JS.object) :
  Mixin.getKeysFromObject (properties attributes) <> ["id"] ->
  findBy coerce models indexes db modelName attributes orderBy = Fulfilled returnedObject ->
  findOneBy coerce models indexes db modelName attributes orderBy =
  Fulfilled (head returnedObject).
Proof.
  intros Hkeys Hfind. unfold findOneBy. rewrite Hfind. simpl.
  repeat case_match; try reflexivity. congruence.
Qed.

(** Away from the shortcut through [findObjectById], a query without
    results gives [null]. *)
Lemma findOneBy_no_result (coerce : coercion) (models : gmap string JS.object)
    (indexes : gmap string (list index)) (db : database) (modelName : string)
    (attributes orderBy : argument) :
  Mixin.getKeysFromObject (properties attributes) <> ["id"] ->
  findBy coerce models indexes db modelName attributes orderBy = Fulfilled [] ->
  findOneBy coerce models indexes db modelName attributes orderBy = Fulfilled None.
Proof. intros Hkeys Hfind. now rewrite (findOneBy_by_findBy _ _ _ _ _ _ _ [] Hkeys Hfind). Qed.

(** On the WebSQL adapter there is no shortcut. *)
Lemma websql_findOneBy_no_result (models : gmap string JS.object) (sqldb : Type)
    (executeSql : sqldb -> string -> list value -> option (sqldb * list JS.object))
    (db : sqldb) (modelName : string) (attributes orderBy : argument) :
  WebSQL.findBy models sqldb executeSql db modelName attributes orderBy = Fulfilled [] ->
  WebSQL.findOneBy models sqldb executeSql db modelName attributes orderBy = Fulfilled None.
Proof. intros H. unfold WebSQL.findOneBy. now rewrite H. Qed.

(** A query whose only key is [id] goes to [findObjectById] with whatever
    the query holds for [id]; an object of operators is no key. *)
Lemma findOneBy_operators_on_id (coerce : coercion) (models : gmap string JS.object)
    (indexes : gmap string (list index)) (db : database) (modelName : string)
    (blank : JS.object) (objectStore : IDB.store) (operators : JS.object)
    (orderBy : argument) :
  models !! modelName = Some blank ->
  stores db !! modelName = Some objectStore ->
  findOneBy coerce models indexes db modelName (Obj [("id", VObj operators)]) orderBy =
  Unsettled.
Proof.
  intros Hmodel Hstore. rewrite findOneBy_by_id by reflexivity.
  unfold findObjectById. now rewrite Hmodel, Hstore.
Qed.

(** C7 (the code departs from it).  On the IndexedDB adapter, with an empty
    store, the query [{id: {greaterThan: 999}}] has no result and [findBy]
    is fulfilled with the empty array, but [findOneBy] hands the operator
    object to [objectStore.get] as if it were an id: the request throws and
    the promise is never fulfilled with [null]. *)
Theorem findOneBy_range_on_id_is_unsettled :
  forall coerce : coercion,
    findBy coerce Sample.models Sample.index_id Sample.empty_db "dummyModel"
      (Obj Sample.id_above_999) Omitted = Fulfilled [] /\
    findOneBy coerce Sample.models Sample.index_id Sample.empty_db "dummyModel"
      (Obj Sample.id_above_999) Omitted = Unsettled.
Proof.
  intros coerce. split.
  - unfold findBy, Sample.models, Sample.index_id.
    rewrite !lookup_singleton_eq. simpl.
    unfold findObjectsByAttributeWithIndex, Sample.empty_db. simpl.
    rewrite !lookup_singleton_eq. reflexivity.
  - rewrite findOneBy_by_id by reflexivity.
    unfold findObjectById, Sample.models, Sample.empty_db. simpl.
    rewrite !lookup_singleton_eq. reflexivity.
Qed.

(** *** Deleting nothing *)

(** C9.  On the IndexedDB adapter, when [findBy] finds nothing for the
    attributes, [deleteBy] is fulfilled and hands back the database it was
    given: no delete request is added to the journal and every store is as
    it was. *)
Theorem deleteBy_nothing_to_delete :
  forall (coerce : coercion) (models : gmap string JS.object)
         (indexes : gmap string (list index)) (db : database)
         (modelName : string) (attributes : argument),
    findBy coerce models indexes db modelName attributes Omitted = Fulfilled [] ->
    deleteBy coerce models indexes db modelName attributes = (Fulfilled tt, db).
Proof.
  intros coerce models indexes db modelName attributes Hfind.
  unfold deleteBy. rewrite Hfind. reflexivity.
Qed.

Lemma deleteBy_nothing_to_delete_witness :
  deleteBy numbers_only Sample.models Sample.index_id Sample.empty_db "dummyModel"
    (Obj Sample.id_above_999) = (Fulfilled tt, Sample.empty_db).
Proof.
  apply (deleteBy_nothing_to_delete numbers_only Sample.models Sample.index_id
           Sample.empty_db "dummyModel" (Obj Sample.id_above_999)).
  vm_compute. reflexivity.
Defined.

(** *** Objects: reading what [set], [extend] and [clone] wrote *)

Lemma get_set (o : JS.object) (k a : string) (v : value) :
  JS.get (JS.set o k v) a = if String.eqb k a then v else JS.get o a.
Proof.
  induction o as [|[k' w] rest IH]; simpl.
  - reflexivity.
  - destruct (String.eqb k' k) eqn:E; simpl.
    + apply String.eqb_eq in E. subst k'. now destruct (String.eqb k a).
    + rewrite IH. destruct (String.eqb k' a) eqn:E'; [|reflexivity].
      apply String.eqb_eq in E'. subst k'. now rewrite String.eqb_sym, E.
Qed.

Lemma keys_set (o : JS.object) (k : string) (v : value) :
  map fst (JS.set o k v) =
  if existsb (String.eqb k) (map fst o) then map fst o else map fst o ++ [k].
Proof.
  induction o as [|[k' w] rest IH]; simpl; [reflexivity|].
  rewrite (String.eqb_sym k k').
  destruct (String.eqb k' k); simpl; [reflexivity|].
  rewrite IH. now destruct (existsb _ _).
Qed.

Lemma existsb_eqb_In (k : string) (l : list string) :
  existsb (String.eqb k) l = true <-> In k l.
Proof.
  rewrite existsb_exists. split.
  - intros (x & Hin & E). apply String.eqb_eq in E. now subst.
  - intros Hin. exists k. split; [assumption | apply String.eqb_refl].
Qed.

Lemma well_formed_set (o : JS.object) (k : string) (v : value) :
  distinct_names o -> distinct_names (JS.set o k v).
Proof.
  unfold distinct_names. intros Hwf. rewrite keys_set.
  destruct (existsb _ _) eqn:E; [assumption|].
  apply NoDup_app. split; [assumption|]. split; [|apply NoDup_singleton].
  intros x Hx Hk. apply list_elem_of_singleton in Hk. subst x.
  apply list_elem_of_In, existsb_eqb_In in Hx. congruence.
Qed.

Lemma get_extend1 (t s : JS.object) (a : string) :
  JS.get (extend1 t s) a = overlay s a (JS.get t a).
Proof.
  unfold extend1. revert t. induction s as [|[k v] rest IH]; intros t; simpl.
  - reflexivity.
  - rewrite IH. f_equal.
    destruct v; try apply get_set. now destruct (String.eqb k a).
Qed.

Lemma well_formed_extend1 (t s : JS.object) :
  distinct_names t -> distinct_names (extend1 t s).
Proof.
  unfold extend1. revert t. induction s as [|[k v] rest IH]; intros t Hwf; simpl.
  - assumption.
  - apply IH. destruct v; try apply well_formed_set; assumption.
Qed.

Lemma overlay_unset (s : JS.object) (a : string) (d : value) :
  gives_nothing s a -> overlay s a d = d.
Proof.
  revert d. induction s as [|[k v] rest IH]; intros d Hun; simpl.
  - reflexivity.
  - rewrite IH by (intros w Hw; apply Hun; now right).
    destruct (String.eqb k a) eqn:E; [|reflexivity].
    apply String.eqb_eq in E. subst k.
    now rewrite (Hun v (or_introl eq_refl)).
Qed.


Lemma unset_not_in (o : JS.object) (a : string) :
  ~ In a (map fst o) -> gives_nothing o a.
Proof.
  intros Hnot v Hin. exfalso. apply Hnot.
  change a with (fst (a, v)). now apply in_map.
Qed.

Lemma overlay_well_formed (s : JS.object) (a : string) (d : value) :
  distinct_names s ->
  overlay s a d = match JS.get s a with VUndefined => d | v => v end.
Proof.
  unfold distinct_names. revert d. induction s as [|[k v] rest IH]; intros d Hwf; simpl.
  - reflexivity.
  - inversion Hwf as [|? ? Hnot Hrest]; subst.
    destruct (String.eqb k a) eqn:E.
    + apply String.eqb_eq in E. subst k.
      rewrite overlay_unset by (apply unset_not_in; now rewrite <- list_elem_of_In).
      now destruct v.
    + now apply IH.
Qed.

Lemma overlay_baseM (a : string) (d : value) :
  is_method a = false -> overlay BaseModel.baseM a d = d.
Proof.
  intros H. apply overlay_unset, unset_not_in.
  intros Hin. apply existsb_eqb_In in Hin. unfold is_method in H. congruence.
Qed.

Lemma createFromObject_extend1 (blank object : JS.object) :
  BaseModel.createFromObject blank object =
  extend1 (extend1 (extend1 [] object) BaseModel.baseM) blank.
Proof. reflexivity. Qed.

Lemma well_formed_createFromObject (blank object : JS.object) :
  distinct_names (BaseModel.createFromObject blank object).
Proof.
  rewrite createFromObject_extend1.
  repeat apply well_formed_extend1. constructor.
Qed.

(** A model made from an object reads like the object, for an attribute
    that is no method and that the constructor leaves gives_nothing. *)
Lemma get_createFromObject (blank object : JS.object) (a : string) :
  distinct_names object -> gives_nothing blank a -> is_method a = false ->
  JS.get (BaseModel.createFromObject blank object) a = JS.get object a.
Proof.
  intros Hwf Hun Hm. rewrite createFromObject_extend1.
  rewrite !get_extend1, overlay_unset, overlay_baseM by assumption.
  rewrite overlay_well_formed by assumption. simpl. now destruct (JS.get object a).
Qed.

Lemma combine_keys_values (o : JS.object) :
  combine (BaseModel.getKeysFromObject o) (BaseModel.getValuesFromObject o) = data o.
Proof.
  induction o as [|[k v] rest IH]; simpl; [reflexivity|].
  destruct (isFunction v); simpl; now rewrite IH.
Qed.

Lemma set_fresh (o : JS.object) (k : string) (v : value) :
  ~ In k (map fst o) -> JS.set o k v = o ++ [(k, v)].
Proof.
  induction o as [|[k' w] rest IH]; simpl; [reflexivity|].
  intros Hnot. destruct (String.eqb k' k) eqn:E.
  - apply String.eqb_eq in E. tauto.
  - rewrite IH by tauto. reflexivity.
Qed.

Lemma fold_set_fresh (ps acc : JS.object) :
  distinct_names (acc ++ ps) ->
  fold_left (fun obj '(k, v) => JS.set obj k v) ps acc = acc ++ ps.
Proof.
  unfold distinct_names. revert acc.
  induction ps as [|[k v] rest IH]; intros acc Hwf; simpl.
  - now rewrite app_nil_r.
  - rewrite set_fresh.
    + rewrite IH; rewrite <- app_assoc; [reflexivity | assumption].
    + rewrite map_app in Hwf. apply NoDup_app in Hwf as (_ & Hdisj & _).
      intros Hin. apply (Hdisj k); [now apply list_elem_of_In | simpl; left].
Qed.

Lemma well_formed_data (o : JS.object) : distinct_names o -> distinct_names (data o).
Proof.
  unfold distinct_names, data. induction o as [|[k v] rest IH]; simpl; [trivial|].
  intros Hwf. inversion Hwf as [|? ? Hnot Hrest]; subst.
  destruct (isFunction v); simpl; [now apply IH|].
  constructor; [|now apply IH].
  intros Hin. apply Hnot. apply list_elem_of_In in Hin. apply list_elem_of_In.
  apply in_map_iff in Hin as ([k' w] & <- & Hin). apply filter_In in Hin as [Hin _].
  now apply (in_map fst) in Hin.
Qed.

Lemma clone_data (o : JS.object) : distinct_names o -> BaseModel.clone o = data o.
Proof.
  intros Hwf. unfold BaseModel.clone. rewrite combine_keys_values.
  apply (fold_set_fresh (data o) []). now apply well_formed_data.
Qed.




Lemma well_formed_stored_record (blank entity : JS.object) :
  distinct_names (BaseModel.clone (BaseModel.createFromObject blank entity)).
Proof.
  rewrite clone_data by apply well_formed_createFromObject.
  apply well_formed_data, well_formed_createFromObject.
Qed.


(** *** Key paths that are one identifier *)

Lemma string_app_assoc (s t u : string) : (s +:+ t) +:+ u = s +:+ (t +:+ u).
Proof.
  induction s as [|c s IH]; [reflexivity | exact (f_equal (String c) IH)].
Qed.

Lemma string_app_nil_r (s : string) : s +:+ "" = s.
Proof.
  induction s as [|c s IH]; [reflexivity | exact (f_equal (String c) IH)].
Qed.

Lemma identifier_part_no_dot (c : ascii) :
  IDB.identifier_part c = true -> Ascii.eqb c "."%char = false.
Proof.
  intros H. destruct (Ascii.eqb c ".") eqn:E; [|reflexivity].
  apply Ascii.eqb_eq in E. subst c. discriminate H.
Qed.

Lemma steps_from_no_dot (path current : string) :
  forallb (fun c => negb (Ascii.eqb c "."%char)) (list_ascii_of_string path) = true ->
  IDB.steps_from current path = [current +:+ path].
Proof.
  revert current. induction path as [|c rest IH]; simpl; intros current H.
  - now rewrite string_app_nil_r.
  - apply andb_true_iff in H as [Hc Hrest]. apply negb_true_iff in Hc.
    rewrite Hc, IH by assumption. now rewrite string_app_assoc.
Qed.

Lemma steps_identifier (a : string) : IDB.identifier a = true -> IDB.steps a = [a].
Proof.
  intros H. unfold IDB.steps. rewrite steps_from_no_dot; [reflexivity|].
  destruct a as [|c rest]; [discriminate|]. simpl in *.
  apply andb_true_iff in H as [Hc Hrest].
  rewrite (identifier_part_no_dot c) by (unfold IDB.identifier_part; now rewrite Hc).
  simpl. rewrite forallb_forall in *. intros d Hd.
  now rewrite (identifier_part_no_dot d) by now apply Hrest.
Qed.

(** On a key path that is one identifier, the key is the key of the
    property of that name. *)
Lemma extract_identifier (o : JS.object) (a : string) :
  IDB.identifier a = true ->
  IDB.extract o a =
    if IDB.hasOwn o a then
      match JS.get o a with
      | VUndefined => IDB.Failure
      | v => match IDB.to_key v with Some k => IDB.Key k | None => IDB.Invalid end
      end
    else IDB.Failure.
Proof.
  intros H. unfold IDB.extract. rewrite steps_identifier by assumption.
  destruct a as [|c rest]; [discriminate|]. simpl.
  destruct (IDB.hasOwn o (String c rest)); [|reflexivity].
  now destruct (JS.get o (String c rest)).
Qed.


(** *** Keys and stores *)

Lemma string_compare_refl (s : string) : String.compare s s = Eq.
Proof.
  pose proof (String.compare_antisym s s) as H.
  destruct (String.compare s s); simpl in H; congruence.
Qed.

(** Induction on keys, through the arrays. *)
Lemma key_ind' (P : IDB.key -> Prop) :
  (forall n, P (IDB.KNum n)) -> (forall s, P (IDB.KStr s)) ->
  (forall items, Forall P items -> P (IDB.KArr items)) ->
  forall k, P k.
Proof.
  intros Hnum Hstr Harr. fix IH 1. intros [n|s|items].
  - apply Hnum.
  - apply Hstr.
  - apply Harr. induction items as [|x rest IHrest]; constructor.
    + apply IH.
    + apply IHrest.
Qed.

Lemma key_compare_refl (k : IDB.key) : IDB.compare k k = Eq.
Proof.
  induction k as [n|s|items IH] using key_ind'; simpl.
  - apply Z.compare_refl.
  - apply string_compare_refl.
  - induction IH as [|x rest Hx _ IHrest]; [reflexivity|]. simpl. now rewrite Hx.
Qed.

Lemma key_compare_eq (a b : IDB.key) : IDB.compare a b = Eq -> a = b.
Proof.
  revert b. induction a as [n|s|items IH] using key_ind'; intros [m|t|others];
    simpl; try discriminate.
  - intros H. apply Z.compare_eq in H. now subst.
  - intros H. apply String.compare_eq_iff in H. now subst.
  - intros H. f_equal. revert others H.
    induction IH as [|x rest Hx _ IHrest]; intros [|y others]; simpl;
      try discriminate; [reflexivity|].
    destruct (IDB.compare x y) eqn:E; try discriminate.
    intros H. apply Hx in E. subst y. f_equal. now apply IHrest.
Qed.

Lemma key_compare_antisym (a b : IDB.key) :
  IDB.compare b a = CompOpp (IDB.compare a b).
Proof.
  revert b. induction a as [n|s|items IH] using key_ind'; intros [m|t|others];
    simpl; try reflexivity.
  - apply Z.compare_antisym.
  - apply String.compare_antisym.
  - revert others. induction IH as [|x rest Hx _ IHrest]; intros [|y others];
      simpl; try reflexivity.
    rewrite Hx. destruct (IDB.compare x y); simpl; try reflexivity. apply IHrest.
Qed.

Lemma ascii_compare_lt_trans (a b c : ascii) :
  Ascii.compare a b = Lt -> Ascii.compare b c = Lt -> Ascii.compare a c = Lt.
Proof.
  unfold Ascii.compare. rewrite !N.compare_lt_iff. lia.
Qed.

Lemma string_compare_lt_trans (s t u : string) :
  String.compare s t = Lt -> String.compare t u = Lt -> String.compare s u = Lt.
Proof.
  revert t u. induction s as [|a s IH]; intros [|b t] [|c u]; simpl;
    try discriminate; try reflexivity.
  destruct (Ascii.compare a b) eqn:Eab; try discriminate;
    destruct (Ascii.compare b c) eqn:Ebc; try discriminate; intros Hst Htu.
  - apply Ascii.compare_eq_iff in Eab, Ebc. subst.
    replace (Ascii.compare c c) with Eq
      by (symmetry; apply N.compare_refl). now apply (IH t u).
  - apply Ascii.compare_eq_iff in Eab. subst. now rewrite Ebc.
  - apply Ascii.compare_eq_iff in Ebc. subst. now rewrite Eab.
  - now rewrite (ascii_compare_lt_trans a b c Eab Ebc).
Qed.

Lemma key_compare_lt_trans (a b c : IDB.key) :
  IDB.compare a b = Lt -> IDB.compare b c = Lt -> IDB.compare a c = Lt.
Proof.
  revert b c. induction a as [n|s|items IH] using key_ind';
    intros [m|t|others] [p|u|thirds]; simpl; try discriminate; try reflexivity.
  - rewrite !Z.compare_lt_iff. lia.
  - apply string_compare_lt_trans.
  - revert others thirds.
    induction IH as [|x rest Hx _ IHrest]; intros [|y others] [|z thirds]; simpl;
      try discriminate; try reflexivity.
    destruct (IDB.compare x y) eqn:Exy; try discriminate;
      destruct (IDB.compare y z) eqn:Eyz; try discriminate; intros Hab Hbc.
    + apply key_compare_eq in Exy, Eyz. subst.
      rewrite key_compare_refl. now apply (IHrest others thirds).
    + apply key_compare_eq in Exy. subst. now rewrite Eyz.
    + apply key_compare_eq in Eyz. subst. now rewrite Exy.
    + now rewrite (Hx y z Exy Eyz).
Qed.

Lemma key_eqb_refl (k : IDB.key) : IDB.eqb k k = true.
Proof. unfold IDB.eqb. now rewrite key_compare_refl. Qed.

Lemma filter_remove (k : IDB.key) (rs : list (IDB.key * JS.object)) :
  List.filter (fun r => IDB.eqb (fst r) k) (IDB.remove k rs) = [].
Proof.
  unfold IDB.remove. induction rs as [|r rest IH]; simpl; [reflexivity|].
  destruct (IDB.eqb (fst r) k) eqn:E; simpl; [assumption|]. now rewrite E.
Qed.

(** [put] and [delete] keep the records of a store in ascending key
    order. *)
Lemma ascending_filter (p : IDB.key * JS.object -> bool)
    (rs : list (IDB.key * JS.object)) :
  ascending rs = true -> ascending (List.filter p rs) = true.
Proof.
  induction rs as [|r rest IH]; simpl; [trivial|].
  intros H. apply andb_true_iff in H as [Hr Hrest].
  destruct (p r); simpl; [|now apply IH].
  apply andb_true_iff. split; [|now apply IH].
  rewrite forallb_forall in *. intros x Hx. apply Hr.
  now apply filter_In in Hx.
Qed.

Lemma in_place (k : IDB.key) (v : JS.object) (rs : list (IDB.key * JS.object))
    (x : IDB.key * JS.object) :
  In x (IDB.place k v rs) -> x = (k, v) \/ In x rs.
Proof.
  induction rs as [|r rest IH]; simpl.
  - intros [<-|[]]. now left.
  - destruct (IDB.ltb k (fst r)); simpl.
    + intros [<-|[<-|H]]; auto.
    + intros [<-|H]; [auto|]. destruct (IH H); auto.
Qed.

Lemma ascending_place (k : IDB.key) (v : JS.object)
    (rs : list (IDB.key * JS.object)) :
  ascending rs = true ->
  List.filter (fun r => IDB.eqb (fst r) k) rs = [] ->
  ascending (IDB.place k v rs) = true.
Proof.
  induction rs as [|r rest IH]; simpl; [trivial|].
  intros Hasc Hnone. apply andb_true_iff in Hasc as [Hr Hrest].
  destruct (IDB.eqb (fst r) k) eqn:Heq; [discriminate|].
  unfold IDB.ltb at 1. destruct (IDB.compare k (fst r)) eqn:Hk; simpl.
  - unfold IDB.eqb in Heq. rewrite (key_compare_antisym k (fst r)), Hk in Heq.
    discriminate.
  - rewrite Hr, Hrest. unfold IDB.ltb at 1. rewrite Hk. simpl.
    rewrite !andb_true_r. apply forallb_forall. intros x Hx.
    rewrite forallb_forall in Hr. specialize (Hr x Hx).
    unfold IDB.ltb in *. destruct (IDB.compare (fst r) (fst x)) eqn:Hrx; try discriminate.
    now rewrite (key_compare_lt_trans _ _ _ Hk Hrx).
  - apply andb_true_iff. split; [|now apply IH].
    apply forallb_forall. intros x Hx. apply in_place in Hx as [->|Hx].
    + simpl. unfold IDB.ltb. now rewrite (key_compare_antisym k (fst r)), Hk.
    + rewrite forallb_forall in Hr. now apply Hr.
Qed.

Lemma put_keeps_ascending (s s' : IDB.store) (v : JS.object) :
  ascending (IDB.records s) = true -> IDB.put s v = Normal (IDB.Success s') ->
  ascending (IDB.records s') = true.
Proof.
  intros Hasc. unfold IDB.put.
  destruct (negb (IDB.cloneable (VObj v))); [discriminate|].
  destruct (IDB.extract v "id"); try discriminate;
    (match goal with |- context [IDB.conflicts ?s ?k ?w] =>
       destruct (IDB.conflicts s k w) end); intros H; try discriminate;
    injection H as <-; simpl;
    (apply ascending_place; [now apply ascending_filter | apply filter_remove]).
Qed.

Lemma delete_keeps_ascending (s s' : IDB.store) (id : value) :
  ascending (IDB.records s) = true -> IDB.delete s id = Normal s' ->
  ascending (IDB.records s') = true.
Proof.
  intros Hasc. unfold IDB.delete.
  destruct (IDB.to_key id); intros H; try discriminate.
  injection H as <-. simpl. now apply ascending_filter.
Qed.

Lemma journal_add_in_key_order (db : database) (storeName : string)
    (objectStore : IDB.store) (r : request) :
  in_key_order db -> ascending (IDB.records objectStore) = true ->
  in_key_order (journal_add db storeName objectStore r).
Proof.
  intros Hdb Hstore modelName s. unfold journal_add. simpl.
  destruct (decide (storeName = modelName)) as [->|Hne].
  - rewrite lookup_insert_eq. intros H. now injection H as <-.
  - rewrite lookup_insert_ne by assumption. apply Hdb.
Qed.

Lemma insertObject_in_key_order (models : gmap string JS.object) (modelName : string)
    (db db' : database) (entity : JS.object) (o : outcome unit) :
  in_key_order db -> insertObject models modelName db entity = (o, db') ->
  in_key_order db'.
Proof.
  intros Hdb. unfold insertObject.
  destruct (models !! modelName) as [blank|]; [|now intros [= _ <-]].
  destruct (stores db !! modelName) as [objectStore|] eqn:Hstore;
    [|now intros [= _ <-]].
  destruct (IDB.put objectStore _) as [[objectStore'|e']|e] eqn:Hput;
    [|now intros [= _ <-]|now intros [= _ <-]].
  intros [= _ <-]. apply journal_add_in_key_order; [assumption|].
  eapply put_keeps_ascending; [|exact Hput]. now apply (Hdb modelName).
Qed.

Lemma deleteItem_in_key_order (modelName : string) (db db' : database)
    (item : JS.object) (o : outcome unit) :
  in_key_order db -> deleteItem modelName db item = (o, db') -> in_key_order db'.
Proof.
  intros Hdb. unfold deleteItem.
  destruct (stores db !! modelName) as [objectStore|] eqn:Hstore;
    [|now intros [= _ <-]].
  destruct (IDB.delete objectStore _) as [objectStore'|e] eqn:Hdelete;
    [|now intros [= _ <-]].
  intros [= _ <-]. apply journal_add_in_key_order; [assumption|].
  eapply delete_keeps_ascending; [|exact Hdelete]. now apply (Hdb modelName).
Qed.

Lemma in_turn_in_key_order {A B : Type}
    (operation : database -> A -> outcome B * database) (items : list A) :
  (forall db db' item o, in_key_order db -> operation db item = (o, db') ->
                         in_key_order db') ->
  forall (db db' : database) (os : list (outcome B)),
    in_key_order db -> in_turn operation db items = (os, db') -> in_key_order db'.
Proof.
  intros Hop. induction items as [|item rest IH]; intros db db' os Hdb; simpl.
  - now intros [= _ <-].
  - destruct (operation db item) as [o db1] eqn:H1.
    destruct (in_turn operation db1 rest) as [os' db2] eqn:H2.
    intros [= _ <-]. eapply IH; [|exact H2]. eapply Hop; [exact Hdb | exact H1].
Qed.

(** The stores stay in key order under [insert] and [deleteBy]. *)
Lemma insert_in_key_order (models : gmap string JS.object) (modelName : string)
    (db db' : database) (entity : entities) (o : outcome unit) :
  in_key_order db -> insert models db modelName entity = (o, db') ->
  in_key_order db'.
Proof.
  intros Hdb. destruct entity as [entity|array]; simpl.
  - now apply insertObject_in_key_order.
  - destruct (in_turn (insertObject models modelName) db array) as [os db1] eqn:Hturn.
    assert (in_key_order db1) as Hdb1.
    { eapply in_turn_in_key_order; [|exact Hdb|exact Hturn].
      intros ? ? ? ?. apply insertObject_in_key_order. }
    destruct (Promise_all os); now intros [= _ <-].
Qed.

Lemma deleteBy_in_key_order (coerce : coercion) (models : gmap string JS.object)
    (indexes : gmap string (list index)) (modelName : string)
    (db db' : database) (attributes : argument) (o : outcome unit) :
  in_key_order db ->
  deleteBy coerce models indexes db modelName attributes = (o, db') ->
  in_key_order db'.
Proof.
  intros Hdb. unfold deleteBy.
  destruct (in_executor _) as [items| | |]; try now intros [= _ <-].
  destruct (Nat.eqb (length items) 0); [now intros [= _ <-]|].
  destruct (in_turn (deleteItem modelName) db items) as [os db1] eqn:Hturn.
  assert (in_key_order db1) as Hdb1.
  { eapply in_turn_in_key_order; [|exact Hdb|exact Hturn].
    intros ? ? ? ?. apply deleteItem_in_key_order. }
  destruct (Promise_all os); now intros [= _ <-].
Qed.


Lemma find_filter {A : Type} (p : A -> bool) (l : list A) :
  List.find p l = head (List.filter p l).
Proof.
  induction l as [|x rest IH]; simpl; [reflexivity|]. now destruct (p x).
Qed.


Lemma well_formed_distinct (o : JS.object) : well_formed o = true -> distinct_names o.
Proof. apply bool_decide_eq_true_1. Qed.

Lemma unset_gives_nothing (o : JS.object) (a : string) :
  unset o a = true -> gives_nothing o a.
Proof.
  unfold unset. rewrite forallb_forall. intros H v Hin.
  specialize (H _ Hin). simpl in H. rewrite String.eqb_refl in H. simpl in H.
  now destruct v.
Qed.

(** *** The statement of the WebSQL insert *)

Lemma column_list_concat (keys : list string) (index : nat) (sql : string) :
  WebSQL.column_list keys index (index + List.length keys) sql =
  sql +:+ String.concat "," keys.
Proof.
  revert index sql. induction keys as [|key rest IH]; intros index sql.
  - simpl. now rewrite string_app_nil_r.
  - cbn [WebSQL.column_list List.length].
    replace (index + S (List.length rest))%nat with (S index + List.length rest)%nat
      by lia.
    rewrite IH. unfold Mixin.isLast.
    destruct rest as [|key' rest'].
    + destruct (Nat.eqb_spec (index + 1) (S index + List.length (@nil string)));
        [|simpl in *; lia].
      simpl. now rewrite !string_app_nil_r.
    + destruct (Nat.eqb_spec (index + 1) (S index + List.length (key' :: rest')));
        [simpl in *; lia|].
      cbn [String.concat]. now rewrite !string_app_assoc.
Qed.

Lemma placeholder_list_concat (keys : list string) (index : nat) (sql : string) :
  WebSQL.placeholder_list keys index (index + List.length keys) sql =
  sql +:+ String.concat "," (map (fun _ => "?") keys).
Proof.
  revert index sql. induction keys as [|key rest IH]; intros index sql.
  - simpl. now rewrite string_app_nil_r.
  - cbn [WebSQL.placeholder_list List.length].
    replace (index + S (List.length rest))%nat with (S index + List.length rest)%nat
      by lia.
    rewrite IH. unfold Mixin.isLast.
    destruct rest as [|key' rest'].
    + destruct (Nat.eqb_spec (index + 1) (S index + List.length (@nil string)));
        [|simpl in *; lia].
      simpl. now rewrite !string_app_nil_r.
    + destruct (Nat.eqb_spec (index + 1) (S index + List.length (key' :: rest')));
        [simpl in *; lia|].
      cbn [map String.concat]. now rewrite !string_app_assoc.
Qed.

(** The statement [insertObject] of web-sql.js hands to the engine: an
    [INSERT OR REPLACE] that names the data attributes of the model and has
    one placeholder for each. *)
Lemma generateInsertQuery_text (modelName : string) (model : JS.object) :
  WebSQL.generateInsertQuery modelName model =
  "INSERT OR REPLACE INTO " +:+ modelName +:+ " (" +:+
  String.concat "," (Mixin.getKeysFromObject model) +:+ ") VALUES (" +:+
  String.concat "," (map (fun _ => "?") (Mixin.getKeysFromObject model)) +:+ ");".
Proof.
  unfold WebSQL.generateInsertQuery.
  pose proof (column_list_concat (Mixin.getKeysFromObject model) 0) as Hcolumns.
  pose proof (placeholder_list_concat (Mixin.getKeysFromObject model) 0) as Hmarks.
  simpl in Hcolumns, Hmarks. rewrite Hcolumns, Hmarks.
  now rewrite !string_app_assoc.
Qed.

(** *** Inserting twice under one id *)

(** C6 (the code departs from it).  A model whose constructor gives a
    default, [status: status || 'draft'], in a database as the upgrade has
    just made it.  Two entities with the id 7 are inserted, the second with
    the status [live]: both inserts are fulfilled and the store holds one
    record under the key 7, but its status is the constructor's [draft], and
    so is the status of the model [findOneBy] returns for the id: of the
    second insert the title won, the status did not.  The relational
    adapter binds the same values to its statement. *)
Theorem upsert_keeps_the_constructor_default :
  onupgradeneeded Sample.posts Sample.no_index (Database ∅ []) =
    Normal Sample.posts_db /\
  exists (db1 db2 : database) (objectStore2 : IDB.store) (model : JS.object),
    insert Sample.posts Sample.posts_db "post" (One Sample.first_post) =
      (Fulfilled tt, db1) /\
    insert Sample.posts db1 "post" (One Sample.second_post) = (Fulfilled tt, db2) /\
    stores db2 !! "post" = Some objectStore2 /\
    IDB.records objectStore2 =
      [(IDB.KNum 7, [("id", VNum 7); ("title", VStr "two"); ("status", VStr "draft")])] /\
    (forall coerce : coercion,
        findOneBy coerce Sample.posts Sample.no_index db2 "post"
          (Obj [("id", VNum 7)]) Omitted = Fulfilled (Some model)) /\
    JS.get model "title" = VStr "two" /\
    JS.get model "status" = VStr "draft" /\
    JS.get Sample.second_post "status" = VStr "live" /\
    (forall (sqldb : Type)
            (executeSql : sqldb -> string -> list value ->
                          option (sqldb * list JS.object))
            (sdb : sqldb),
        WebSQL.insertObject Sample.posts sqldb executeSql "post" sdb
          Sample.second_post =
        match executeSql sdb
                "INSERT OR REPLACE INTO post (id,title,status) VALUES (?,?,?);"
                [VNum 7; VStr "two"; VStr "draft"] with
        | Some (sdb', _) => (Fulfilled tt, sdb')
        | None => (Rejected, sdb)
        end).
Proof.
  split; [vm_compute; reflexivity|].
  eexists _, _, _, _.
  split; [vm_compute; reflexivity|]. split; [vm_compute; reflexivity|].
  split; [vm_compute; reflexivity|]. split; [vm_compute; reflexivity|].
  split; [intros coerce; vm_compute; reflexivity|].
  split; [vm_compute; reflexivity|]. split; [vm_compute; reflexivity|].
  split; [reflexivity|].
  intros sqldb executeSql sdb. reflexivity.
Qed.


(** *** Scalars of one kind: the host's order is the order of the keys *)

Lemma same_kind_scalar (v w : value) :
  same_kind v w = true -> scalar v = true /\ scalar w = true.
Proof. destruct v, w; simpl; try discriminate; auto. Qed.

Lemma same_kind_trans (v w x : value) :
  same_kind v w = true -> same_kind w x = true -> same_kind v x = true.
Proof. destruct v, w, x; simpl; try discriminate; auto. Qed.

Lemma same_kind_sym (v w : value) : same_kind v w = same_kind w v.
Proof. now destruct v, w. Qed.

Lemma to_key_scalar (v : value) : scalar v = true -> IDB.to_key v = Some (key_of v).
Proof. destruct v; simpl; try discriminate; reflexivity. Qed.

Lemma compare_values_same_kind (coerce : coercion) (v w : value) :
  same_kind v w = true ->
  JS.compare_values coerce v w = Some (IDB.compare (key_of v) (key_of w)).
Proof. destruct v, w; simpl; try discriminate; reflexivity. Qed.

Lemma gt_same_kind (coerce : coercion) (v w : value) :
  same_kind v w = true ->
  JS.gt coerce v w = match IDB.compare (key_of w) (key_of v) with
                     | Lt => true
                     | _ => false
                     end.
Proof.
  intros H. unfold JS.gt. rewrite compare_values_same_kind; [reflexivity|].
  now rewrite same_kind_sym.
Qed.

Lemma ge_same_kind (coerce : coercion) (v w : value) :
  same_kind v w = true ->
  JS.ge coerce v w = match IDB.compare (key_of w) (key_of v) with
                     | Gt => false
                     | _ => true
                     end.
Proof.
  intros H. unfold JS.ge. rewrite compare_values_same_kind by assumption.
  rewrite (key_compare_antisym (key_of v) (key_of w)).
  now destruct (IDB.compare (key_of v) (key_of w)).
Qed.

Lemma lt_same_kind (coerce : coercion) (v w : value) :
  same_kind v w = true ->
  JS.lt coerce v w = match IDB.compare (key_of v) (key_of w) with
                     | Lt => true
                     | _ => false
                     end.
Proof. intros H. unfold JS.lt. now rewrite compare_values_same_kind. Qed.

Lemma le_same_kind (coerce : coercion) (v w : value) :
  same_kind v w = true ->
  JS.le coerce v w = match IDB.compare (key_of v) (key_of w) with
                     | Gt => false
                     | _ => true
                     end.
Proof.
  intros H. unfold JS.le. rewrite compare_values_same_kind
    by now rewrite same_kind_sym.
  rewrite (key_compare_antisym (key_of w) (key_of v)).
  now destruct (IDB.compare (key_of w) (key_of v)).
Qed.

(** For a scalar on the right, strict equality is equality of keys. *)
Lemma strict_equal_scalar (v w : value) :
  scalar w = true ->
  strict_equal v w = match IDB.to_key v with
                     | Some k => IDB.eqb (key_of w) k
                     | None => false
                     end.
Proof.
  unfold IDB.eqb.
  destruct w; simpl; try discriminate; intros _; destruct v; simpl; try reflexivity.
  - rewrite Z.eqb_compare, (Z.compare_antisym n n0). now destruct (n ?= n0).
  - destruct (String.eqb s0 s) eqn:E.
    + apply String.eqb_eq in E. subst. now rewrite string_compare_refl.
    + destruct (String.compare s s0) eqn:E'; try reflexivity.
      apply String.compare_eq_iff in E'. subst.
      now rewrite String.eqb_refl in E.
Qed.

(** *** A range on one attribute *)

(** The scan retains a record exactly when its value is within the
    bounds. *)
Lemma retained_range (coerce : coercion) (a : string) (q : range_query)
    (result : JS.object) :
  admissible (Range a q) = true ->
  same_kind (JS.get result a) (lower_bound q) = true ->
  retained coerce (Obj [(a, range_term q)]) result =
  Normal (satisfies q (key_of (JS.get result a))).
Proof.
  intros Hq Hkind. unfold retained, properties.
  assert (Mixin.getKeysFromObject [(a, range_term q)] = [a]) as ->
    by (simpl; now destruct q as [? ?|? ? ? ? []]).
  cbn [check_keys JS.get]. rewrite String.eqb_refl.
  set (v := JS.get result a) in *.
  destruct q as [[] l|[] l [] u []]; simpl in Hq, Hkind |- *;
    try (apply andb_true_iff in Hq as [Hlu _];
         pose proof (same_kind_trans _ _ _ Hkind Hlu) as Hu);
    rewrite ?(gt_same_kind coerce v l), ?(ge_same_kind coerce v l),
      ?(lt_same_kind coerce v u), ?(le_same_kind coerce v u) by assumption;
    destruct (IDB.compare (key_of l) (key_of v)); simpl;
    rewrite ?(gt_same_kind coerce v l), ?(ge_same_kind coerce v l),
      ?(lt_same_kind coerce v u), ?(le_same_kind coerce v u) by assumption;
    try reflexivity;
    destruct (IDB.compare (key_of v) (key_of u)); reflexivity.
Qed.

Lemma generateIDBKeyRange_range (a : string) (q : range_query) (orderBy : argument) :
  admissible (Range a q) = true ->
  generateIDBKeyRange (Obj [(a, range_term q)]) orderBy = Normal (range_of (Range a q)).
Proof.
  intros Hq. unfold generateIDBKeyRange, keyRangeCall, properties.
  destruct q as [[] l|[] l [] u []]; simpl in Hq |- *;
    try (rewrite (to_key_scalar l Hq); reflexivity);
    apply andb_true_iff in Hq as [Hlu Hcmp];
    destruct (same_kind_scalar _ _ Hlu) as [Hl Hu];
    rewrite (to_key_scalar l Hl), (to_key_scalar u Hu);
    destruct (IDB.compare (key_of l) (key_of u)); simpl in Hcmp |- *;
    try discriminate; reflexivity.
Qed.

Lemma includes_range (a : string) (q : range_query) (k : IDB.key) :
  IDB.includes (range_of (Range a q)) k = satisfies q k.
Proof.
  unfold IDB.includes. destruct q as [open l|lo l uo u first]; simpl;
    [now rewrite andb_true_r | reflexivity].
Qed.

(** *** Sorting *)

Lemma insert_sorted_permutation {A : Type} (cmp : A -> A -> comparison) (x : A)
    (l : list A) :
  Permutation (JS.insert_sorted cmp x l) (x :: l).
Proof.
  induction l as [|y rest IH]; simpl; [reflexivity|].
  destruct (cmp x y); try reflexivity.
  rewrite IH. apply perm_swap.
Qed.

Lemma sort_permutation {A : Type} (cmp : A -> A -> comparison) (l : list A) :
  Permutation (JS.sort cmp l) l.
Proof.
  induction l as [|x rest IH]; simpl; [reflexivity|].
  rewrite insert_sorted_permutation. now constructor.
Qed.

Lemma sort_In {A : Type} (c : A -> A -> comparison) (l : list A) (x : A) :
  In x (JS.sort c l) <-> In x l.
Proof.
  split; apply Permutation_in; [|symmetry]; apply sort_permutation.
Qed.

Lemma filter_permutation {A : Type} (p : A -> bool) (l l' : list A) :
  Permutation l l' -> Permutation (List.filter p l) (List.filter p l').
Proof.
  induction 1 as [|x l l' _ IH|x y l|l l' l'' _ IH1 _ IH2]; simpl.
  - reflexivity.
  - destruct (p x); [now constructor | assumption].
  - destruct (p x), (p y); try reflexivity. apply perm_swap.
  - now transitivity (List.filter p l').
Qed.

Lemma filter_map_commute {A B : Type} (p : B -> bool) (f : A -> B) (l : list A) :
  List.filter p (map f l) = map f (List.filter (fun x => p (f x)) l).
Proof.
  induction l as [|x rest IH]; simpl; [reflexivity|].
  destruct (p (f x)); simpl; now rewrite IH.
Qed.

Lemma insert_sorted_map {A B : Type} (cmp : B -> B -> comparison) (f : A -> B)
    (x : A) (l : list A) :
  JS.insert_sorted cmp (f x) (map f l) =
  map f (JS.insert_sorted (fun u v => cmp (f u) (f v)) x l).
Proof.
  induction l as [|y rest IH]; simpl; [reflexivity|].
  destruct (cmp (f x) (f y)); simpl; try reflexivity. now rewrite IH.
Qed.

Lemma sort_map {A B : Type} (cmp : B -> B -> comparison) (f : A -> B) (l : list A) :
  JS.sort cmp (map f l) = map f (JS.sort (fun u v => cmp (f u) (f v)) l).
Proof.
  induction l as [|x rest IH]; simpl; [reflexivity|].
  rewrite IH. apply insert_sorted_map.
Qed.

(** Insertion only asks whether the new element sorts after the ones it
    meets. *)
Lemma insert_sorted_ext {A : Type} (c c' : A -> A -> comparison) (x : A) (l : list A) :
  (forall y, In y l -> (c x y = Gt <-> c' x y = Gt)) ->
  JS.insert_sorted c x l = JS.insert_sorted c' x l.
Proof.
  induction l as [|y rest IH]; intros Hext; simpl; [reflexivity|].
  pose proof (Hext y (or_introl eq_refl)) as Hy.
  rewrite IH by (intros z Hz; apply Hext; now right).
  destruct (c x y) eqn:E, (c' x y) eqn:E'; try reflexivity;
    (destruct Hy as [H1 H2]; try (specialize (H1 eq_refl); discriminate);
     try (specialize (H2 eq_refl); discriminate)).
Qed.

(** Two comparators sort alike a list in which every element meets, among
    the later ones, only elements on which they agree about "after". *)
Lemma sort_ext_later {A : Type} (c c' : A -> A -> comparison) (l : list A) :
  ForallOrdPairs (fun x y => c x y = Gt <-> c' x y = Gt) l ->
  JS.sort c l = JS.sort c' l.
Proof.
  induction 1 as [|x rest Hx _ IH]; simpl; [reflexivity|].
  rewrite IH. apply insert_sorted_ext.
  intros y Hy. apply sort_In in Hy.
  rewrite List.Forall_forall in Hx. now apply Hx.
Qed.

(** A list none of whose elements sorts after a later one is left as it
    is. *)
Lemma sort_nothing_after {A : Type} (c : A -> A -> comparison) (l : list A) :
  ForallOrdPairs (fun x y => c x y <> Gt) l -> JS.sort c l = l.
Proof.
  induction 1 as [|x rest Hx _ IH]; simpl; [reflexivity|].
  rewrite IH. destruct rest as [|y rest']; simpl; [reflexivity|].
  inversion Hx as [|? ? Hy _]; subst. now destruct (c x y).
Qed.

Lemma key_compare_le_trans (a b c : IDB.key) :
  IDB.compare a b <> Gt -> IDB.compare b c <> Gt -> IDB.compare a c <> Gt.
Proof.
  destruct (IDB.compare a b) eqn:Hab; try congruence; intros _;
    destruct (IDB.compare b c) eqn:Hbc; try congruence; intros _.
  - apply key_compare_eq in Hab, Hbc. subst. rewrite key_compare_refl. congruence.
  - apply key_compare_eq in Hab. subst. congruence.
  - apply key_compare_eq in Hbc. subst. congruence.
  - rewrite (key_compare_lt_trans a b c Hab Hbc). congruence.
Qed.

Section ByKey.
Context {A : Type} (key : A -> IDB.key).

Let by_key (x y : A) : comparison := IDB.compare (key x) (key y).
Let le (x y : A) : Prop := IDB.compare (key x) (key y) <> Gt.

Lemma insert_sorted_first (x : A) (l : list A) :
  match l with [] => True | z :: _ => le x z end ->
  JS.insert_sorted by_key x l = x :: l.
Proof.
  destruct l as [|z rest]; simpl; [reflexivity|].
  unfold le, by_key. now destruct (IDB.compare (key x) (key z)).
Qed.

Lemma filter_insert_sorted (p : A -> bool) (x : A) (l : list A) :
  StronglySorted le l ->
  List.filter p (JS.insert_sorted by_key x l) =
  if p x then JS.insert_sorted by_key x (List.filter p l) else List.filter p l.
Proof.
  induction 1 as [|y rest Hsorted IH Hy]; simpl.
  - now destruct (p x).
  - destruct (by_key x y) eqn:E.
    1,2: simpl; destruct (p x) eqn:Hpx; [|reflexivity];
      rewrite insert_sorted_first; [reflexivity|];
      assert (le x y) as Hxy by (unfold le; fold (by_key x y); congruence);
      destruct (p y); simpl; [assumption|];
      destruct (List.filter p rest) as [|z ?] eqn:Hf; [trivial|];
      assert (In z rest) as Hz
        by (apply (proj1 (filter_In p z rest)); rewrite Hf; now left);
      rewrite List.Forall_forall in Hy; specialize (Hy z Hz);
      exact (key_compare_le_trans _ _ _ Hxy Hy).
    simpl. rewrite IH. destruct (p y) eqn:Hpy, (p x) eqn:Hpx; simpl; try reflexivity.
    now rewrite E.
Qed.

Lemma insert_sorted_sorted (x : A) (l : list A) :
  StronglySorted le l -> StronglySorted le (JS.insert_sorted by_key x l).
Proof.
  induction 1 as [|y rest Hsorted IH Hy]; simpl.
  - repeat constructor.
  - destruct (by_key x y) eqn:E.
    1,2: assert (le x y) as Hxy by (unfold le; fold (by_key x y); congruence);
      constructor; [now constructor|]; constructor; [assumption|];
      eapply List.Forall_impl; [|exact Hy];
      intros z Hz; exact (key_compare_le_trans _ _ _ Hxy Hz).
    constructor; [assumption|].
    apply List.Forall_forall. intros z Hz.
    apply (Permutation_in _ (insert_sorted_permutation _ _ _)) in Hz.
    destruct Hz as [<-|Hz].
    + unfold le. unfold by_key in E.
      rewrite (key_compare_antisym (key x) (key y)), E. simpl. congruence.
    + rewrite List.Forall_forall in Hy. now apply Hy.
Qed.

Lemma sort_sorted (l : list A) : StronglySorted le (JS.sort by_key l).
Proof.
  induction l as [|x rest IH]; simpl; [constructor | now apply insert_sorted_sorted].
Qed.

(** Filtering before or after the sort is the same. *)
Lemma filter_sort (p : A -> bool) (l : list A) :
  List.filter p (JS.sort by_key l) = JS.sort by_key (List.filter p l).
Proof.
  induction l as [|x rest IH]; simpl; [reflexivity|].
  rewrite filter_insert_sorted by apply sort_sorted.
  rewrite IH. now destruct (p x).
Qed.
End ByKey.

(** *** Equalities on one or more attributes *)

Lemma scalar_typeof (v : value) : scalar v = true -> String.eqb (typeof v) "object" = false.
Proof. destruct v; simpl; try discriminate; reflexivity. Qed.

Lemma scalar_not_function (v : value) : scalar v = true -> isFunction v = false.
Proof. destruct v; simpl; try discriminate; reflexivity. Qed.

Lemma keys_of_scalars (terms : JS.object) :
  forallb (fun t => scalar (snd t)) terms = true ->
  Mixin.getKeysFromObject terms = map fst terms.
Proof.
  induction terms as [|[a v] rest IH]; simpl; [reflexivity|].
  intros H. apply andb_true_iff in H as [Hv Hrest].
  rewrite (scalar_not_function v Hv). simpl. now rewrite IH.
Qed.

Lemma values_of_scalars (terms : JS.object) (deep : bool) :
  forallb (fun t => scalar (snd t)) terms = true ->
  Mixin.getValuesFromObject terms deep = map snd terms.
Proof.
  unfold Mixin.getValuesFromObject.
  induction terms as [|[a v] rest IH]; simpl; [reflexivity|].
  intros H. apply andb_true_iff in H as [Hv Hrest].
  simpl in IH. rewrite IH by assumption.
  destruct v; simpl in Hv; try discriminate; reflexivity.
Qed.

Lemma lower_bounds_scalars (values lowerbound : list value) (lowerOpen : bool) :
  forallb scalar values = true ->
  lower_bounds values lowerbound lowerOpen = Normal (lowerbound ++ values, lowerOpen).
Proof.
  revert lowerbound. induction values as [|v rest IH]; intros lowerbound; simpl.
  - now rewrite app_nil_r.
  - intros H. apply andb_true_iff in H as [Hv Hrest].
    rewrite (scalar_typeof v Hv). simpl. rewrite IH by assumption.
    now rewrite <- app_assoc.
Qed.

Lemma upper_bounds_scalars (values upperBound : list value) (upperOpen : bool) :
  forallb scalar values = true ->
  upper_bounds values upperBound upperOpen = Normal (upperBound ++ values, upperOpen).
Proof.
  revert upperBound. induction values as [|v rest IH]; intros upperBound; simpl.
  - now rewrite app_nil_r.
  - intros H. apply andb_true_iff in H as [Hv Hrest].
    rewrite (scalar_typeof v Hv). simpl. rewrite IH by assumption.
    now rewrite <- app_assoc.
Qed.

Lemma mapM_cons {A B : Type} (f : A -> option B) (x : A) (l : list A) :
  mapM f (x :: l) =
  match f x with
  | Some y => match mapM f l with
              | Some ys => Some (y :: ys)
              | None => None
              end
  | None => None
  end.
Proof. simpl. destruct (f x); simpl; [|reflexivity]. now destruct (mapM f l). Qed.

Lemma mapM_to_key (values : list value) :
  forallb scalar values = true ->
  mapM IDB.to_key values = Some (map key_of values).
Proof.
  induction values as [|v rest IH]; [reflexivity|].
  intros H. simpl in H. apply andb_true_iff in H as [Hv Hrest].
  rewrite mapM_cons, (to_key_scalar v Hv), IH by assumption. reflexivity.
Qed.

Lemma bound_key_unwrap (values : list value) :
  forallb scalar values = true ->
  IDB.bound_key (unwrap values) = Some (tuple_key values).
Proof.
  intros H. destruct values as [|v [|w rest]].
  - reflexivity.
  - simpl in H |- *. apply andb_true_iff in H as [Hv _]. now apply to_key_scalar.
  - unfold unwrap, tuple_key, IDB.bound_key. now rewrite mapM_to_key.
Qed.

Lemma forallb_map {A B : Type} (p : B -> bool) (f : A -> B) (l : list A) :
  forallb p (map f l) = forallb (fun x => p (f x)) l.
Proof. induction l as [|x rest IH]; simpl; [reflexivity | now rewrite IH]. Qed.

Lemma generateIDBKeyRange_equalities (terms : JS.object) (orderBy : argument) :
  admissible (Equalities terms) = true ->
  generateIDBKeyRange (Obj terms) orderBy = Normal (range_of (Equalities terms)).
Proof.
  intros Hq. simpl in Hq.
  apply andb_true_iff in Hq as [Hq Hscalars]. clear Hq.
  assert (forallb scalar (map snd terms) = true) as Hvalues
    by now rewrite forallb_map.
  unfold generateIDBKeyRange, keyRangeCall, properties.
  rewrite values_of_scalars by assumption.
  rewrite lower_bounds_scalars, upper_bounds_scalars by assumption. simpl.
  rewrite Nat.eqb_refl. simpl.
  rewrite bound_key_unwrap by assumption.
  now rewrite key_compare_refl.
Qed.

(** A range whose two bounds are one key, both closed, holds that key
    alone. *)
Lemma includes_point (k ik : IDB.key) :
  IDB.includes (IDB.Range (Some k) (Some k) false false) ik = IDB.eqb k ik.
Proof.
  unfold IDB.includes, IDB.eqb. simpl.
  rewrite (key_compare_antisym ik k). now destruct (IDB.compare ik k).
Qed.

Lemma get_not_own (o : JS.object) (a : string) :
  IDB.hasOwn o a = false -> JS.get o a = VUndefined.
Proof.
  induction o as [|[k v] rest IH]; simpl; [reflexivity|].
  destruct (String.eqb k a); [discriminate | assumption].
Qed.

(** The key of a record on an attribute is the key of the value it reads
    there. *)
Lemma attribute_key_get (o : JS.object) (a : string) :
  IDB.identifier a = true ->
  IDB.attribute_key o a = IDB.to_key (JS.get o a).
Proof.
  intros Ha. unfold IDB.attribute_key. rewrite extract_identifier by assumption.
  destruct (IDB.hasOwn o a) eqn:E.
  - destruct (JS.get o a); reflexivity.
  - now rewrite get_not_own.
Qed.

Lemma attribute_key_match (o : JS.object) (a : string) (w : value) :
  IDB.identifier a = true ->
  scalar w = true ->
  strict_equal (JS.get o a) w = match IDB.attribute_key o a with
                                | Some ik => IDB.eqb (key_of w) ik
                                | None => false
                                end.
Proof.
  intros Ha Hw. rewrite attribute_key_get by assumption.
  now apply strict_equal_scalar.
Qed.

Lemma tuple_match (o : JS.object) (terms : JS.object) :
  identifiers (map fst terms) = true ->
  forallb (fun t => scalar (snd t)) terms = true ->
  match mapM (IDB.attribute_key o) (map fst terms) with
  | Some iks => IDB.eqb (IDB.KArr (map key_of (map snd terms))) (IDB.KArr iks)
  | None => false
  end = forallb (fun t => strict_equal (JS.get o (fst t)) (snd t)) terms.
Proof.
  induction terms as [|[a w] rest IH]; [reflexivity|].
  intros Hid H. simpl in H. apply andb_true_iff in H as [Hw Hrest].
  simpl in Hid. apply andb_true_iff in Hid as [Ha Hid].
  specialize (IH Hid Hrest).
  cbn [map fst snd forallb]. rewrite mapM_cons, (attribute_key_match o a w Ha Hw).
  destruct (IDB.attribute_key o a) as [ik|]; [|reflexivity].
  rewrite <- IH. destruct (mapM (IDB.attribute_key o) (map fst rest)) as [iks|].
  - unfold IDB.eqb. cbn [IDB.compare IDB.lexicographic].
    now destruct (IDB.compare (key_of w) ik).
  - now rewrite andb_false_r.
Qed.

(** *** The plain queries *)

Lemma index_of_store (objectStore : IDB.store) (name : string) (path : IDB.keyPath) :
  store_index objectStore name = Some path ->
  exists storeIndex : IDB.IDBIndex,
    IDB.index objectStore name = Normal storeIndex /\
    IDB.index_path storeIndex = path.
Proof.
  unfold store_index. destruct (IDB.index objectStore name) as [i|e]; [|discriminate].
  intros [= <-]. now exists i.
Qed.

Lemma query_keys_of (pq : plain_query) :
  admissible pq = true ->
  Mixin.getKeysFromObject (query_object pq) = query_keys pq.
Proof.
  destruct pq as [terms|a q]; intros Hq.
  - simpl in Hq. apply andb_true_iff in Hq as [_ Hscalars].
    now apply keys_of_scalars.
  - simpl. now destruct q as [? ?|? ? ? ? []].
Qed.

Lemma generateIDBKeyRange_plain (pq : plain_query) (orderBy : argument) :
  admissible pq = true ->
  generateIDBKeyRange (Obj (query_object pq)) orderBy = Normal (range_of pq).
Proof.
  destruct pq as [terms|a q]; intros Hq.
  - now apply generateIDBKeyRange_equalities.
  - now apply generateIDBKeyRange_range.
Qed.

(** The index holds a record within the range exactly when the record
    answers the query. *)
Lemma index_key_answers (pq : plain_query) (o : JS.object) :
  identifiers (query_keys pq) = true ->
  admissible pq = true -> fits pq o = true ->
  match IDB.index_key (query_path pq) o with
  | Some ik => IDB.includes (range_of pq) ik
  | None => false
  end = answers pq o.
Proof.
  intros Hid Hq Hfit. destruct pq as [terms|a q].
  - simpl in Hq. apply andb_true_iff in Hq as [_ Hscalars].
    pose proof (tuple_match o terms Hid Hscalars) as Htuple.
    unfold query_path, query_keys, query_object, range_of, answers.
    destruct terms as [|[a w] [|t rest]].
    + reflexivity.
    + simpl in Hscalars |- *. apply andb_true_iff in Hscalars as [Hw _].
      simpl in Hid. apply andb_true_iff in Hid as [Ha _].
      rewrite (attribute_key_match o a w Ha Hw), andb_true_r.
      destruct (IDB.attribute_key o a); [apply includes_point | reflexivity].
    + rewrite <- Htuple. unfold IDB.index_key, tuple_key.
      cbn [map].
      destruct (mapM _ _) as [iks|]; simpl; [apply includes_point | reflexivity].
  - unfold fits in Hfit. apply andb_true_iff in Hfit as [_ Hkind].
    unfold query_path, query_keys, query_object, answers. cbn [map fst IDB.index_key].
    rewrite attribute_key_get
      by (unfold query_keys, query_object in Hid; simpl in Hid;
          now apply andb_true_iff in Hid as [Hid _]).
    destruct (same_kind_scalar _ _ Hkind) as [Hv _].
    rewrite (to_key_scalar _ Hv). apply includes_range.
Qed.

Lemma check_keys_equalities (coerce : coercion) (result attributes terms : JS.object) :
  (forall t, In t terms -> JS.get attributes (fst t) = snd t) ->
  forallb (fun t => scalar (snd t)) terms = true ->
  check_keys coerce result attributes (map fst terms) true =
  Normal (forallb (fun t => strict_equal (JS.get result (fst t)) (snd t)) terms).
Proof.
  induction terms as [|[a w] rest IH]; [reflexivity|].
  intros Hget H. simpl in H. apply andb_true_iff in H as [Hw Hrest].
  cbn [map fst snd forallb check_keys].
  pose proof (Hget (a, w) (or_introl eq_refl)) as Ha. simpl in Ha.
  rewrite Ha, (scalar_typeof w Hw).
  destruct (strict_equal (JS.get result a) w); [|reflexivity].
  apply IH; [|assumption]. intros t Ht. apply Hget. now right.
Qed.

Lemma get_distinct (o : JS.object) (a : string) (v : value) :
  distinct_names o -> In (a, v) o -> JS.get o a = v.
Proof.
  unfold distinct_names. induction o as [|[k w] rest IH]; simpl; [tauto|].
  intros Hnd [Heq|Hin].
  - inversion Heq; subst. now rewrite String.eqb_refl.
  - inversion Hnd as [|? ? Hnot Hrest]; subst.
    destruct (String.eqb k a) eqn:E.
    + apply String.eqb_eq in E. subst. exfalso. apply Hnot.
      apply list_elem_of_In. apply in_map_iff. now exists (a, v).
    + now apply IH.
Qed.

(** The scan retains a record exactly when it answers the query. *)
Lemma retained_plain (coerce : coercion) (pq : plain_query) (result : JS.object) :
  admissible pq = true ->
  match pq with
  | Equalities _ => True
  | Range a q => same_kind (JS.get result a) (lower_bound q) = true
  end ->
  retained coerce (Obj (query_object pq)) result = Normal (answers pq result).
Proof.
  intros Hq Hfit. destruct pq as [terms|a q].
  - unfold retained, properties. rewrite (query_keys_of _ Hq).
    simpl in Hq. apply andb_true_iff in Hq as [Hq Hscalars].
    apply andb_true_iff in Hq as [_ Hwf]. apply well_formed_distinct in Hwf.
    apply check_keys_equalities; [|assumption].
    intros [a v] Hin. now apply get_distinct.
  - now apply retained_range.
Qed.

(** *** The index and the reduction *)

Lemma reduce_results_filter (coerce : coercion) (attributes : argument)
    (p : JS.object -> bool) (results : list JS.object) :
  (forall result, In result results ->
                  retained coerce attributes result = Normal (p result)) ->
  reduce_results coerce results attributes = Normal (List.filter p results).
Proof.
  induction results as [|result rest IH]; intros Hp; simpl; [reflexivity|].
  rewrite (Hp result) by now left. simpl.
  rewrite IH by (intros r Hr; apply Hp; now right). reflexivity.
Qed.

Lemma forallb_ext_in {A : Type} (f g : A -> bool) (l : list A) :
  (forall x, In x l -> f x = g x) -> forallb f l = forallb g l.
Proof.
  induction l as [|x rest IH]; intros H; simpl; [reflexivity|].
  rewrite (H x) by now left. rewrite IH; [reflexivity|].
  intros y Hy. apply H. now right.
Qed.

(** The entries within a range are those of the records whose index key is
    within it. *)
Lemma filter_indexed (p : IDB.key -> bool) (path : IDB.keyPath)
    (rs : list (IDB.key * JS.object)) :
  List.filter (fun e : IDB.entry => p (fst (fst e))) (IDB.indexed path rs) =
  map (entry_of path)
    (List.filter (fun r => match IDB.index_key path (snd r) with
                           | Some ik => p ik
                           | None => false
                           end) rs).
Proof.
  induction rs as [|r rest IH]; simpl; [reflexivity|].
  destruct (IDB.index_key path (snd r)) as [ik|] eqn:E; simpl; [|assumption].
  destruct (p ik); simpl; [|assumption].
  rewrite IH. f_equal. unfold entry_of. now rewrite E.
Qed.

Lemma entry_compare_key (x y : IDB.entry) :
  IDB.entry_compare x y = IDB.compare (entry_key x) (entry_key y).
Proof.
  unfold IDB.entry_compare, entry_key. simpl.
  destruct (IDB.compare (fst (fst x)) (fst (fst y))); try reflexivity.
  now destruct (IDB.compare (snd (fst x)) (snd (fst y))).
Qed.

Lemma sort_ext {A : Type} (c c' : A -> A -> comparison) (l : list A) :
  (forall x y, c x y = c' x y) -> JS.sort c l = JS.sort c' l.
Proof.
  intros H. apply sort_ext_later, ForallPairs_ForallOrdPairs.
  intros x y _ _. now rewrite H.
Qed.

(** The entries are in a total order, so a cursor over a range meets what
    sorting the entries of the range alone would give. *)
Lemma filter_entries (p : IDB.entry -> bool) (l : list IDB.entry) :
  List.filter p (JS.sort IDB.entry_compare l) =
  JS.sort IDB.entry_compare (List.filter p l).
Proof.
  rewrite !(sort_ext IDB.entry_compare _ _ entry_compare_key).
  apply (filter_sort entry_key).
Qed.

Lemma ascending_pairs (R : IDB.key * JS.object -> IDB.key * JS.object -> Prop)
    (rs : list (IDB.key * JS.object)) :
  (forall x y, In x rs -> In y rs -> IDB.compare (fst x) (fst y) = Lt -> R x y) ->
  ascending rs = true -> ForallOrdPairs R rs.
Proof.
  induction rs as [|r rest IH]; simpl; intros HR Hasc; constructor.
  - apply andb_true_iff in Hasc as [Hr _]. rewrite forallb_forall in Hr.
    apply List.Forall_forall. intros y Hy. apply HR; [now left | now right |].
    specialize (Hr y Hy). unfold IDB.ltb in Hr.
    now destruct (IDB.compare (fst r) (fst y)).
  - apply IH; [|now apply andb_true_iff in Hasc as [_ Hrest]].
    intros x y Hx Hy. apply HR; now right.
Qed.

Lemma strict_equal_scalar_eq (v w : value) :
  scalar w = true -> strict_equal v w = true -> v = w.
Proof.
  destruct w; simpl; try discriminate; intros _; destruct v; simpl;
    try discriminate; intros H.
  - apply Z.eqb_eq in H. now subst.
  - apply String.eqb_eq in H. now subst.
Qed.

Lemma comparator_same_kind (coerce : coercion) (a : string) (x y : JS.object) :
  same_kind (JS.get x a) (JS.get y a) = true ->
  comparator coerce a (VStr "asc") x y =
  IDB.compare (key_of (JS.get x a)) (key_of (JS.get y a)).
Proof.
  intros Hkind. unfold comparator.
  rewrite (lt_same_kind coerce _ _ Hkind), (gt_same_kind coerce _ _ Hkind).
  rewrite (key_compare_antisym (key_of (JS.get x a)) (key_of (JS.get y a))).
  simpl. now destruct (IDB.compare (key_of (JS.get x a)) (key_of (JS.get y a))).
Qed.

(** *** The two paths of the IndexedDB adapter on a plain query *)

Section TwoPaths.
Variable coerce : coercion.
Variable models : gmap string JS.object.
Variable indexes : gmap string (list index).
Variable db : database.
Variable modelName : string.
Variable blank : JS.object.
Variable objectStore : IDB.store.
Variable pq : plain_query.

Hypothesis registered : models !! modelName = Some blank.
Hypothesis opened : stores db !! modelName = Some objectStore.
Hypothesis index_on_keys :
  store_index objectStore (JS.toString (query_keys pq)) = Some (query_path pq).
Hypothesis named : identifiers (query_keys pq) = true.
Hypothesis accepted : admissible pq = true.
Hypothesis blank_unset :
  forallb (fun a => unset blank a && negb (is_method a)) (query_keys pq) = true.
Hypothesis records_fit :
  forallb (fun r => fits pq (snd r)) (IDB.records objectStore) = true.

Let model_of (r : IDB.key * JS.object) : JS.object :=
  BaseModel.createFromObject blank (snd r).

Let attributes : argument := Obj (query_object pq).

Let answering : list (IDB.key * JS.object) :=
  List.filter (fun r => answers pq (snd r)) (IDB.records objectStore).

Lemma record_fits (r : IDB.key * JS.object) :
  In r (IDB.records objectStore) -> fits pq (snd r) = true.
Proof.
  intros Hin. pose proof records_fit as Hall. rewrite forallb_forall in Hall.
  now apply Hall.
Qed.

(** A model reads like its record on the attributes of the query. *)
Lemma get_model (r : IDB.key * JS.object) (a : string) :
  In r (IDB.records objectStore) -> In a (query_keys pq) ->
  JS.get (model_of r) a = JS.get (snd r) a.
Proof.
  intros Hr Ha. pose proof blank_unset as Hall. rewrite forallb_forall in Hall.
  specialize (Hall a Ha). apply andb_true_iff in Hall as [Hunset Hmethod].
  pose proof (record_fits r Hr) as Hfit. unfold fits in Hfit.
  apply andb_true_iff in Hfit as [Hwf _].
  apply get_createFromObject.
  - now apply well_formed_distinct.
  - now apply unset_gives_nothing.
  - now destruct (is_method a).
Qed.

Lemma answers_model (r : IDB.key * JS.object) :
  In r (IDB.records objectStore) -> answers pq (model_of r) = answers pq (snd r).
Proof.
  intros Hr. pose proof (fun a => get_model r a Hr) as Hget.
  clear index_on_keys named accepted.
  destruct pq as [terms|a q]; simpl.
  - apply forallb_ext_in. intros t Ht. rewrite (Hget (fst t)); [reflexivity|].
    now apply in_map.
  - rewrite (Hget a); [reflexivity | now left].
Qed.

Lemma retained_model (r : IDB.key * JS.object) :
  In r (IDB.records objectStore) ->
  retained coerce attributes (model_of r) = Normal (answers pq (model_of r)).
Proof.
  intros Hr. apply retained_plain; [assumption|].
  pose proof (record_fits r Hr) as Hfit. pose proof (get_model r) as Hget.
  clear index_on_keys named.
  destruct pq as [terms|a q]; [trivial|].
  rewrite (Hget a Hr) by now left.
  unfold fits in Hfit. now apply andb_true_iff in Hfit as [_ Hkind].
Qed.

(** The indexed path: the entries of the answering records, sorted, forward
    or backward. *)
Lemma indexed_path (orderBy : argument) (direction : IDB.direction) :
  getDirection orderBy = Normal direction ->
  findObjectsByAttributeWithIndex models db modelName attributes orderBy =
  Fulfilled
    (map (BaseModel.createFromObject blank)
       (map snd
          (match direction with
           | IDB.next => fun hits => hits
           | IDB.prev => @rev IDB.entry
           end
             (JS.sort IDB.entry_compare (map (entry_of (query_path pq)) answering))))).
Proof.
  intros Hdir. unfold findObjectsByAttributeWithIndex, attributes.
  rewrite registered, opened. unfold properties.
  rewrite (query_keys_of pq accepted).
  destruct (index_of_store _ _ _ index_on_keys) as (storeIndex & Hindex & Hpath).
  rewrite Hindex. cbn [JS.bind]. rewrite Hpath.
  rewrite (generateIDBKeyRange_plain pq orderBy accepted), Hdir. simpl.
  unfold IDB.index_openCursor, IDB.entries.
  rewrite filter_entries, filter_indexed.
  rewrite (filter_ext_in _ (fun r => answers pq (snd r))).
  - now destruct direction.
  - intros r Hr. apply index_key_answers;
      [assumption | assumption | now apply record_fits].
Qed.

(** The scan: every record, made a model, then reduced. *)
Lemma scan_path (orderBy : argument) :
  findObjectsByAttributeNoIndex coerce models db modelName attributes orderBy =
  in_callback
    (reduce coerce (map model_of (IDB.records objectStore)) attributes orderBy).
Proof.
  unfold findObjectsByAttributeNoIndex, attributes, IDB.openCursor.
  rewrite registered, opened, map_map. reflexivity.
Qed.

Lemma reduced_models :
  reduce_results coerce (map model_of (IDB.records objectStore)) attributes =
  Normal (map model_of answering).
Proof.
  rewrite (reduce_results_filter coerce _ (answers pq)).
  - rewrite filter_map_commute. unfold answering.
    rewrite (filter_ext_in _ (fun r => answers pq (snd r))); [reflexivity|].
    intros r Hr. now apply answers_model.
  - intros model Hin. apply in_map_iff in Hin as (r & <- & Hr).
    now apply retained_model.
Qed.

(** Both paths return, in some order, the models of the answering
    records. *)
Lemma indexed_path_permutation (orderBy : argument) :
  orderBy <> Null ->
  exists found,
    findObjectsByAttributeWithIndex models db modelName attributes orderBy =
      Fulfilled found /\
    Permutation found (map model_of answering).
Proof.
  intros Hnull.
  assert (exists direction, getDirection orderBy = Normal direction) as [direction Hdir].
  { destruct orderBy as [| |o]; simpl; [eauto | congruence |].
    destruct (strict_equal _ _); eauto. }
  eexists. split; [exact (indexed_path orderBy direction Hdir)|].
  rewrite map_map.
  transitivity
    (map (fun e : IDB.entry => BaseModel.createFromObject blank (snd e))
       (map (entry_of (query_path pq)) answering)).
  - apply Permutation_map.
    transitivity (JS.sort IDB.entry_compare (map (entry_of (query_path pq)) answering)).
    + destruct direction; [reflexivity | symmetry; apply Permutation_rev].
    + apply sort_permutation.
  - now rewrite map_map.
Qed.

Lemma scan_path_permutation (orderBy : argument) :
  exists found,
    findObjectsByAttributeNoIndex coerce models db modelName attributes orderBy =
      Fulfilled found /\
    Permutation found (map model_of answering).
Proof.
  rewrite scan_path. unfold reduce. rewrite reduced_models. simpl.
  destruct orderBy as [| |o]; eexists; (split; [reflexivity|]); try reflexivity.
  apply sort_permutation.
Qed.

(** An answering record is in the index, under the one key of the
    equalities when the query is one. *)
Lemma answering_entry (r : IDB.key * JS.object) :
  In r answering ->
  exists ik, IDB.index_key (query_path pq) (snd r) = Some ik /\
             IDB.includes (range_of pq) ik = true.
Proof.
  intros Hin. apply filter_In in Hin as [Hr Hanswers].
  pose proof (index_key_answers pq (snd r) named accepted (record_fits r Hr)) as Hkey.
  rewrite Hanswers in Hkey.
  destruct (IDB.index_key (query_path pq) (snd r)) as [ik|]; [eauto | discriminate].
Qed.

(** Of two answering records, the first with the lesser key, the second
    comes first in the index exactly when it comes first in the sort of the
    scan. *)
Lemma orders_agree (a : string) (x y : IDB.key * JS.object) :
  In a (query_keys pq) -> In x answering -> In y answering ->
  IDB.compare (fst x) (fst y) = Lt ->
  IDB.entry_compare (entry_of (query_path pq) x) (entry_of (query_path pq) y) = Gt <->
  comparator coerce a (VStr "asc") (model_of x) (model_of y) = Gt.
Proof.
  intros Ha Hx Hy Hlt.
  destruct (answering_entry x Hx) as (ikx & Hikx & Hinx).
  destruct (answering_entry y Hy) as (iky & Hiky & Hiny).
  apply filter_In in Hx as [Hx Hax], Hy as [Hy Hay].
  pose proof (record_fits x Hx) as Hfx. pose proof (record_fits y Hy) as Hfy.
  pose proof (get_model x a Hx Ha) as Hgx. pose proof (get_model y a Hy Ha) as Hgy.
  unfold IDB.entry_compare, entry_of. rewrite Hikx, Hiky. simpl. rewrite Hlt.
  clear registered opened index_on_keys blank_unset records_fit.
  destruct pq as [terms|a' q].
  - simpl in Hinx, Hiny. rewrite includes_point in Hinx, Hiny.
    unfold IDB.eqb in Hinx, Hiny.
    destruct (IDB.compare _ ikx) eqn:Ex; try discriminate.
    destruct (IDB.compare _ iky) eqn:Ey; try discriminate.
    apply key_compare_eq in Ex, Ey. subst ikx iky. rewrite key_compare_refl.
    simpl in accepted. apply andb_true_iff in accepted as [_ Hscalars].
    rewrite forallb_forall in Hscalars.
    simpl in Hax, Hay. rewrite forallb_forall in Hax, Hay.
    simpl in Ha. apply in_map_iff in Ha as ([a'' w] & Heq & Hin). simpl in Heq. subst a''.
    specialize (Hscalars _ Hin). specialize (Hax _ Hin). specialize (Hay _ Hin).
    simpl in Hscalars, Hax, Hay.
    apply (strict_equal_scalar_eq _ _ Hscalars) in Hax, Hay.
    rewrite comparator_same_kind; rewrite Hgx, Hgy, Hax, Hay.
    + rewrite key_compare_refl. split; discriminate.
    + now destruct w.
  - simpl in Ha. destruct Ha as [<-|[]].
    unfold fits in Hfx, Hfy.
    apply andb_true_iff in Hfx as [_ Hkx], Hfy as [_ Hky].
    assert (same_kind (JS.get (snd x) a') (JS.get (snd y) a') = true) as Hkind
      by (apply (same_kind_trans _ _ _ Hkx); now rewrite same_kind_sym).
    rewrite comparator_same_kind; rewrite Hgx, Hgy; [|assumption].
    unfold query_path, query_keys in Hikx, Hiky. simpl in Hikx, Hiky.
    assert (IDB.identifier a' = true) as Hident
      by (unfold identifiers, query_keys in named; simpl in named;
          now apply andb_true_iff in named as [? _]).
    rewrite (attribute_key_get (snd x) _ Hident) in Hikx.
    rewrite (attribute_key_get (snd y) _ Hident) in Hiky.
    destruct (same_kind_scalar _ _ Hkind) as [Hsx Hsy].
    rewrite (to_key_scalar _ Hsx) in Hikx. rewrite (to_key_scalar _ Hsy) in Hiky.
    inversion Hikx; inversion Hiky; subst.
    destruct (IDB.compare (key_of (JS.get (snd x) a')) (key_of (JS.get (snd y) a')));
      split; intros H; congruence.
Qed.

(** With [orderBy] ascending on an attribute of the query and the store in
    key order, the two paths return the same list. *)
Lemma indexed_path_ascending (a : string) :
  findObjectsByAttributeWithIndex models db modelName attributes
    (Obj [(a, VStr "asc")]) =
  Fulfilled
    (map model_of
       (JS.sort (fun x y => IDB.entry_compare (entry_of (query_path pq) x)
                              (entry_of (query_path pq) y)) answering)).
Proof.
  rewrite (indexed_path _ IDB.next) by (simpl; now rewrite String.eqb_refl).
  now rewrite sort_map, !map_map.
Qed.

Lemma scan_path_ascending (a : string) :
  findObjectsByAttributeNoIndex coerce models db modelName attributes
    (Obj [(a, VStr "asc")]) =
  Fulfilled
    (map model_of
       (JS.sort (fun x y => comparator coerce a (VStr "asc") (model_of x) (model_of y))
          answering)).
Proof.
  rewrite scan_path. unfold reduce. rewrite reduced_models. simpl.
  now rewrite String.eqb_refl, sort_map.
Qed.

Lemma paths_agree_ascending (a : string) :
  In a (query_keys pq) -> ascending (IDB.records objectStore) = true ->
  findObjectsByAttributeWithIndex models db modelName attributes
    (Obj [(a, VStr "asc")]) =
  findObjectsByAttributeNoIndex coerce models db modelName attributes
    (Obj [(a, VStr "asc")]).
Proof.
  intros Ha Hasc. rewrite indexed_path_ascending, scan_path_ascending.
  do 2 f_equal. apply sort_ext_later.
  apply ascending_pairs; [|now apply ascending_filter].
  intros x y Hx Hy Hlt. now apply orders_agree.
Qed.

End TwoPaths.

(** How [findBy] chooses between the two paths. *)
Lemma findBy_without_declared_index (coerce : coercion)
    (models : gmap string JS.object) (indexes : gmap string (list index))
    (db : database) (modelName : string) (attributes orderBy : argument) :
  indexes !! modelName = None ->
  findBy coerce models indexes db modelName attributes orderBy =
  findObjectsByAttributeNoIndex coerce models db modelName attributes orderBy.
Proof.
  intros Hnone. unfold findBy, findObjectsByAttributeNoIndex. rewrite Hnone.
  now destruct (models !! modelName).
Qed.

Lemma count_bounds_scalars (values : list value) (lowerboundCount upperBoundCount : Z) :
  forallb scalar values = true ->
  exists counts, count_bounds values lowerboundCount upperBoundCount = Normal counts.
Proof.
  revert lowerboundCount upperBoundCount.
  induction values as [|v rest IH]; intros lo up H; simpl; [eauto|].
  simpl in H. apply andb_true_iff in H as [Hv Hrest].
  rewrite (scalar_typeof v Hv). simpl. now apply IH.
Qed.

Lemma isValidQuery_plain (coerce : coercion) (pq : plain_query) :
  admissible pq = true -> isValidQuery coerce (Obj (query_object pq)) = Normal true.
Proof.
  intros Hq. unfold isValidQuery, properties. destruct pq as [terms|a q].
  - simpl in Hq. apply andb_true_iff in Hq as [_ Hscalars].
    cbn [query_object]. rewrite values_of_scalars by assumption.
    destruct (Nat.eqb _ 1); [reflexivity|].
    destruct (count_bounds_scalars (map snd terms) 0 0) as [[lo up] ->];
      [now rewrite forallb_map | reflexivity].
  - now destruct q as [? ?|? ? ? ? []].
Qed.

Lemma findBy_with_declared_index (coerce : coercion)
    (models : gmap string JS.object) (indexes : gmap string (list index))
    (db : database) (modelName : string) (declared : list index)
    (pq : plain_query) (orderBy : argument) :
  indexes !! modelName = Some declared ->
  existsb (fun i => String.eqb (JS.toString (query_keys pq)) (index_toString i))
    declared = true ->
  admissible pq = true ->
  findBy coerce models indexes db modelName (Obj (query_object pq)) orderBy =
  findObjectsByAttributeWithIndex models db modelName
    (Obj (query_object pq)) orderBy.
Proof.
  intros Hsome Hdeclared Hq. unfold findBy, findObjectsByAttributeWithIndex.
  rewrite Hsome. destruct (models !! modelName); [|reflexivity].
  rewrite (isValidQuery_plain coerce pq Hq). unfold properties.
  now rewrite (query_keys_of pq Hq), Hdeclared.
Qed.

(** X26.  On the IndexedDB adapter, take a query whose attribute names are
    identifiers and that is either equalities with numbers or strings on one
    or more distinct attributes, or a range on one attribute bounded below
    (and possibly above, by a bound of the same kind that the engine
    accepts), a store that has, under the name of the query's attributes,
    the index on exactly these attributes, whose records hold, for a range,
    a value of the kind of the bounds, and [orderBy] left out or an object.
    Then the indexed path and the scan are both fulfilled, with the same
    records up to their order, the models of the records that answer the
    query; and with [orderBy] ascending on an attribute of the query and the
    store in key order, with the same list. *)
Theorem indexed_path_and_scan_agree_on_plain_query :
  forall (coerce : coercion) (models : gmap string JS.object)
         (db : database) (modelName : string)
         (blank : JS.object) (objectStore : IDB.store) (pq : plain_query)
         (orderBy : argument),
    models !! modelName = Some blank ->
    stores db !! modelName = Some objectStore ->
    store_index objectStore (JS.toString (query_keys pq)) = Some (query_path pq) ->
    identifiers (query_keys pq) = true ->
    admissible pq = true ->
    forallb (fun a => unset blank a && negb (is_method a)) (query_keys pq) = true ->
    forallb (fun r => fits pq (snd r)) (IDB.records objectStore) = true ->
    orderBy <> Null ->
    exists indexed scanned : list JS.object,
      findObjectsByAttributeWithIndex models db modelName
        (Obj (query_object pq)) orderBy = Fulfilled indexed /\
      findObjectsByAttributeNoIndex coerce models db modelName
        (Obj (query_object pq)) orderBy = Fulfilled scanned /\
      Permutation indexed scanned /\
      Permutation scanned
        (selection blank (answers pq) (IDB.records objectStore)) /\
      (forall a : string,
         orderBy = Obj [(a, VStr "asc")] -> In a (query_keys pq) ->
         ascending (IDB.records objectStore) = true ->
         indexed = scanned).
Proof.
  intros coerce models db modelName blank objectStore pq orderBy
    Hmodel Hstore Hindex Hnamed Haccepted Hunset Hfit Hnull.
  destruct (indexed_path_permutation models db modelName blank objectStore
              pq Hmodel Hstore Hindex Hnamed Haccepted Hfit orderBy Hnull)
    as (indexed & Hindexed & Hperm1).
  destruct (scan_path_permutation coerce models db modelName blank objectStore
              pq Hmodel Hstore Haccepted Hunset Hfit orderBy)
    as (scanned & Hscanned & Hperm2).
  exists indexed, scanned. split; [assumption|]. split; [assumption|].
  split; [|split].
  - now rewrite Hperm1, Hperm2.
  - exact Hperm2.
  - intros a -> Ha Hasc.
    pose proof (paths_agree_ascending coerce models db modelName blank
                  objectStore pq Hmodel Hstore Hindex Hnamed Haccepted Hunset Hfit
                  a Ha Hasc)
      as Hsame.
    rewrite Hindexed, Hscanned in Hsame. congruence.
Qed.

Lemma indexed_path_and_scan_agree_witness :
  exists indexed scanned : list JS.object,
    findObjectsByAttributeWithIndex Sample.models Sample.sorted_db
      "dummyModel"
      (Obj (query_object (Range "a" (Between false (VNum 10) false (VNum 15) false))))
      (Obj [("a", VStr "asc")]) = Fulfilled indexed /\
    findObjectsByAttributeNoIndex numbers_only Sample.models Sample.sorted_db
      "dummyModel"
      (Obj (query_object (Range "a" (Between false (VNum 10) false (VNum 15) false))))
      (Obj [("a", VStr "asc")]) = Fulfilled scanned /\
    Permutation indexed scanned /\
    Permutation scanned
      (selection Sample.dummyModel
         (answers (Range "a" (Between false (VNum 10) false (VNum 15) false)))
         (IDB.records Sample.sorted_store)) /\
    (forall a : string,
       Obj [("a", VStr "asc")] = Obj [(a, VStr "asc")] ->
       In a (query_keys (Range "a" (Between false (VNum 10) false (VNum 15) false))) ->
       ascending (IDB.records Sample.sorted_store) = true ->
       indexed = scanned).
Proof.
  apply (indexed_path_and_scan_agree_on_plain_query numbers_only Sample.models
           Sample.sorted_db "dummyModel" Sample.dummyModel
           Sample.sorted_store
           (Range "a" (Between false (VNum 10) false (VNum 15) false))
           (Obj [("a", VStr "asc")]));
    try (vm_compute; reflexivity).
  discriminate.
Defined.

(** C1 (the code departs from it).  The database of [dummyModel] as the
    upgrade makes it with the indexes [id], [a] and the compound [a, b]
    declared, holding the record [{id: 1, a: 12, b: 100}], and the README's
    first valid query, [a] between 10 and 15 and [b] between 1 and 10.
    [findBy] takes the indexed path and returns the record, the key
    [[12, 100]] lying between [[10, 1]] and [[15, 10]] in the order of the
    compound keys, although its [b] is 100; the scan, on the same database
    and query, returns nothing.  The two paths do not return the same
    records. *)
Theorem composite_range_differs_from_scan :
  forall coerce : coercion,
    onupgradeneeded Sample.models Sample.index_all (Database ∅ []) =
      Normal Sample.empty_db /\
    findBy coerce Sample.models Sample.index_all
      (Sample.db_of Sample.record_12_100) "dummyModel" (Obj Sample.balanced) Omitted =
      findObjectsByAttributeWithIndex Sample.models
        (Sample.db_of Sample.record_12_100) "dummyModel" (Obj Sample.balanced) Omitted /\
    findObjectsByAttributeWithIndex Sample.models
      (Sample.db_of Sample.record_12_100) "dummyModel" (Obj Sample.balanced) Omitted =
      Fulfilled [BaseModel.createFromObject Sample.dummyModel Sample.record_12_100] /\
    findObjectsByAttributeNoIndex coerce Sample.models
      (Sample.db_of Sample.record_12_100) "dummyModel" (Obj Sample.balanced) Omitted =
      Fulfilled [] /\
    JS.get (BaseModel.createFromObject Sample.dummyModel Sample.record_12_100) "b" =
      VNum 100.
Proof.
  intros coerce. split; [vm_compute; reflexivity|].
  split; [vm_compute; reflexivity|]. split; [vm_compute; reflexivity|].
  split; vm_compute; reflexivity.
Qed.

(** Equalities on the two attributes of the compound index: the two paths
    find the same record. *)
Lemma compound_equalities_agree :
  map (fun model => JS.get model "id")
    (match findBy numbers_only Sample.models Sample.index_a_b Sample.sorted_db
             "dummyModel" (Obj [("a", VNum 11); ("b", VNum 2)]) Omitted with
     | Fulfilled found => found
     | _ => []
     end) = [VNum 3] /\
  map (fun model => JS.get model "id")
    (match findBy numbers_only Sample.models Sample.no_index Sample.sorted_db
             "dummyModel" (Obj [("a", VNum 11); ("b", VNum 2)]) Omitted with
     | Fulfilled found => found
     | _ => []
     end) = [VNum 3].
Proof. split; vm_compute; reflexivity. Qed.

(** Descending, the two paths order equal values differently: the cursor
    runs backward through the keys as well, the sort keeps them as the
    store has them. *)
Lemma descending_ties_differ :
  map (fun model => JS.get model "id")
    (match findObjectsByAttributeWithIndex Sample.models Sample.sorted_db
             "dummyModel"
             (Obj [("a", range_term (Between false (VNum 10) false (VNum 15) false))])
             (Obj [("a", VStr "desc")]) with
     | Fulfilled found => found
     | _ => []
     end) = [VNum 1; VNum 3; VNum 2] /\
  map (fun model => JS.get model "id")
    (match findObjectsByAttributeNoIndex numbers_only Sample.models Sample.sorted_db
             "dummyModel"
             (Obj [("a", range_term (Between false (VNum 10) false (VNum 15) false))])
             (Obj [("a", VStr "desc")]) with
     | Fulfilled found => found
     | _ => []
     end) = [VNum 1; VNum 2; VNum 3].
Proof. split; vm_compute; reflexivity. Qed.

(** ** Further properties of the adapters *)

(** *** What [reduce] returns *)

Lemma reduce_results_sublist (coerce : coercion) (attributes : argument)
    (results kept : list JS.object) :
  reduce_results coerce results attributes = Normal kept -> sublist kept results.
Proof.
  revert kept. induction results as [|result rest IH]; simpl; intros kept H.
  - injection H as <-. constructor.
  - destruct (retained coerce attributes result) as [isValid|e]; simpl in H;
      [|discriminate].
    destruct (reduce_results coerce rest attributes) as [reducedResults|e];
      simpl in H; [|discriminate].
    injection H as <-. specialize (IH _ eq_refl).
    destruct isValid; now constructor.
Qed.

(** X1.  [reduce] invents no record: what it returns is, up to the order,
    a selection of the results it was given, each at most as often as it
    was there; without [orderBy] the selection comes in the order of the
    results. *)
Theorem reduce_returns_records_of_the_input :
  forall (coerce : coercion) (results reduced : list JS.object)
         (attributes orderBy : argument),
    reduce coerce results attributes orderBy = Normal reduced ->
    exists kept : list JS.object,
      sublist kept results /\ Permutation reduced kept /\
      (given orderBy = false -> reduced = kept).
Proof.
  intros coerce results reduced attributes orderBy H. unfold reduce in H.
  destruct (reduce_results coerce results attributes) as [kept|e] eqn:Hkept;
    simpl in H; [|discriminate].
  exists kept. split; [now apply reduce_results_sublist in Hkept|].
  destruct orderBy as [| |o]; injection H as <-.
  - split; [reflexivity | trivial].
  - split; [reflexivity | trivial].
  - split; [apply sort_permutation | discriminate].
Qed.

Lemma reduce_returns_records_of_the_input_witness :
  exists kept : list JS.object,
    sublist kept [Sample.record_1_5; Sample.record_12_100] /\
    Permutation [Sample.record_12_100] kept /\
    (given Omitted = false -> [Sample.record_12_100] = kept).
Proof.
  apply (reduce_returns_records_of_the_input numbers_only
           [Sample.record_1_5; Sample.record_12_100] [Sample.record_12_100]
           (Obj [("a", VObj [("greaterThan", VNum 3)])]) Omitted).
  reflexivity.
Defined.

(** *** The order [reduce] sorts in *)

Section SortedBy.
Context {A : Type} (c : A -> A -> comparison).
Hypothesis c_total : forall x y, c x y = Gt -> c y x <> Gt.
Hypothesis c_trans : forall x y z, c x y <> Gt -> c y z <> Gt -> c x z <> Gt.

Lemma insert_sorted_by (x : A) (l : list A) :
  StronglySorted (fun u v => c u v <> Gt) l ->
  StronglySorted (fun u v => c u v <> Gt) (JS.insert_sorted c x l).
Proof.
  induction 1 as [|y rest Hsorted IH Hy]; simpl.
  - repeat constructor.
  - destruct (c x y) eqn:E.
    1,2: assert (c x y <> Gt) as Hxy by congruence;
      constructor; [now constructor|]; constructor; [assumption|];
      eapply List.Forall_impl; [|exact Hy];
      intros z Hz; exact (c_trans _ _ _ Hxy Hz).
    constructor; [assumption|].
    apply List.Forall_forall. intros z Hz.
    apply (Permutation_in _ (insert_sorted_permutation _ _ _)) in Hz.
    destruct Hz as [<-|Hz].
    + now apply c_total.
    + rewrite List.Forall_forall in Hy. now apply Hy.
Qed.

Lemma sort_sorted_by (l : list A) :
  StronglySorted (fun u v => c u v <> Gt) (JS.sort c l).
Proof.
  induction l as [|x rest IH]; simpl; [constructor | now apply insert_sorted_by].
Qed.
End SortedBy.

Lemma comparator_descending (coerce : coercion) (a : string) (d : value)
    (x y : JS.object) :
  strict_equal d (VStr "asc") = false ->
  same_kind (JS.get x a) (JS.get y a) = true ->
  comparator coerce a d x y =
  IDB.compare (key_of (JS.get y a)) (key_of (JS.get x a)).
Proof.
  intros Hd Hkind. unfold comparator. rewrite Hd.
  rewrite (lt_same_kind coerce _ _ Hkind), (gt_same_kind coerce _ _ Hkind).
  rewrite (key_compare_antisym (key_of (JS.get y a)) (key_of (JS.get x a))).
  now destruct (IDB.compare (key_of (JS.get y a)) (key_of (JS.get x a))).
Qed.

Lemma StronglySorted_weaken {A : Type} (R R' : A -> A -> Prop) (l : list A) :
  (forall x y, R x y -> R' x y) -> StronglySorted R l -> StronglySorted R' l.
Proof.
  intros Himpl. induction 1 as [|x rest _ IH Hx]; constructor; [assumption|].
  eapply List.Forall_impl; [|exact Hx]. intros y. apply Himpl.
Qed.

Lemma sublist_In {A : Type} (l1 l2 : list A) (x : A) :
  sublist l1 l2 -> In x l1 -> In x l2.
Proof.
  intros Hsub Hin. apply list_elem_of_In.
  eapply sublist_submseteq in Hsub. eapply elem_of_submseteq; [|exact Hsub].
  now apply list_elem_of_In.
Qed.

(** X2.  When the results hold values of one kind, numbers or strings,
    under the first attribute of [orderBy], [reduce] returns them sorted by
    that attribute: never a greater value before a lesser one when the
    direction is the string [asc], never a lesser before a greater one for
    any other direction. *)
Theorem reduce_sorts_by_the_first_orderBy_attribute :
  forall (coerce : coercion) (results reduced : list JS.object)
         (attributes : argument) (a : string) (d : value) (others : JS.object),
    forallb (fun x => forallb (fun y => same_kind (JS.get x a) (JS.get y a)) results)
      results = true ->
    reduce coerce results attributes (Obj ((a, d) :: others)) = Normal reduced ->
    StronglySorted
      (fun x y => IDB.compare (key_of (JS.get x a)) (key_of (JS.get y a)) <>
                  (if strict_equal d (VStr "asc") then Gt else Lt))
      reduced.
Proof.
  intros coerce results reduced attributes a d others Hkind H.
  assert (forall x y, In x results -> In y results ->
                      same_kind (JS.get x a) (JS.get y a) = true) as Hsame.
  { intros x y Hx Hy. rewrite forallb_forall in Hkind.
    specialize (Hkind x Hx). rewrite forallb_forall in Hkind. now apply Hkind. }
  unfold reduce in H.
  destruct (reduce_results coerce results attributes) as [kept|e] eqn:Hkept;
    simpl in H; [|discriminate].
  apply reduce_results_sublist in Hkept.
  rewrite String.eqb_refl in H. injection H as <-.
  destruct (strict_equal d (VStr "asc")) eqn:Hd.
  - apply strict_equal_string in Hd. subst d.
    rewrite (sort_ext_later _
               (fun x y => IDB.compare (key_of (JS.get x a)) (key_of (JS.get y a)))).
    + apply (sort_sorted (fun x => key_of (JS.get x a))).
    + apply ForallPairs_ForallOrdPairs. intros x y Hx Hy.
      rewrite comparator_same_kind; [reflexivity|].
      apply Hsame; eapply sublist_In; eassumption.
  - rewrite (sort_ext_later _
               (fun x y => IDB.compare (key_of (JS.get y a)) (key_of (JS.get x a)))).
    + eapply StronglySorted_weaken; [|apply sort_sorted_by].
      * intros x y Hxy. simpl in Hxy.
        rewrite (key_compare_antisym (key_of (JS.get y a)) (key_of (JS.get x a))).
        destruct (IDB.compare (key_of (JS.get y a)) (key_of (JS.get x a)));
          simpl; congruence.
      * intros x y Hxy.
        rewrite (key_compare_antisym (key_of (JS.get y a)) (key_of (JS.get x a))), Hxy.
        discriminate.
      * intros x y z Hxy Hyz. exact (key_compare_le_trans _ _ _ Hyz Hxy).
    + apply ForallPairs_ForallOrdPairs. intros x y Hx Hy.
      rewrite comparator_descending; [reflexivity | assumption |].
      apply Hsame; eapply sublist_In; eassumption.
Qed.

Lemma reduce_sorts_by_the_first_orderBy_attribute_witness :
  StronglySorted
    (fun x y => IDB.compare (key_of (JS.get x "a")) (key_of (JS.get y "a")) <>
                (if strict_equal (VStr "desc") (VStr "asc") then Gt else Lt))
    [[("id", VNum 4); ("a", VNum 20); ("b", VNum 3)];
     [("id", VNum 1); ("a", VNum 15); ("b", VNum 0)];
     [("id", VNum 2); ("a", VNum 11); ("b", VNum 1)];
     [("id", VNum 3); ("a", VNum 11); ("b", VNum 2)]].
Proof.
  apply (reduce_sorts_by_the_first_orderBy_attribute numbers_only
           (map snd (IDB.records Sample.sorted_store)) _ Omitted "a" (VStr "desc") []);
    vm_compute; reflexivity.
Defined.

(** *** Queries the indexed path cannot run *)

Lemma findObjectsByAttributeWithIndex_throwing_range
    (models : gmap string JS.object)
    (db : database) (modelName : string) (blank : JS.object)
    (attributes orderBy : argument) (e : error) :
  models !! modelName = Some blank ->
  generateIDBKeyRange attributes orderBy = Throw e ->
  findObjectsByAttributeWithIndex models db modelName attributes orderBy =
  Unsettled.
Proof.
  intros Hmodel Hrange. unfold findObjectsByAttributeWithIndex. rewrite Hmodel.
  destruct (stores db !! modelName); [|reflexivity].
  destruct (IDB.index _ _); [|reflexivity].
  cbn [JS.bind]. now rewrite Hrange.
Qed.

(** X3.  On the indexed path a [null] in the place of [orderBy] leaves the
    promise unsettled, whatever the query: reading the direction throws in
    the callback of [open].  The scan takes the same [null] for an omitted
    [orderBy]. *)
Theorem null_orderBy_settles_only_the_scan :
  forall (coerce : coercion) (models : gmap string JS.object)
         (db : database) (modelName : string)
         (blank : JS.object) (attributes : argument),
    models !! modelName = Some blank ->
    findObjectsByAttributeWithIndex models db modelName attributes Null =
      Unsettled /\
    findObjectsByAttributeNoIndex coerce models db modelName attributes Null =
      findObjectsByAttributeNoIndex coerce models db modelName attributes Omitted.
Proof.
  intros coerce models db modelName blank attributes Hmodel. split.
  - unfold findObjectsByAttributeWithIndex. rewrite Hmodel.
    destruct (stores db !! modelName); [|reflexivity].
    destruct (IDB.index _ _); [|reflexivity].
    cbn [JS.bind]. now destruct (generateIDBKeyRange attributes Null).
  - unfold findObjectsByAttributeNoIndex. rewrite Hmodel.
    destruct (stores db !! modelName); reflexivity.
Qed.

Lemma null_orderBy_settles_only_the_scan_witness :
  findObjectsByAttributeWithIndex Sample.models Sample.sorted_db
    "dummyModel" (Obj [("a", VNum 11)]) Null = Unsettled /\
  findObjectsByAttributeNoIndex numbers_only Sample.models Sample.sorted_db
    "dummyModel" (Obj [("a", VNum 11)]) Null =
  findObjectsByAttributeNoIndex numbers_only Sample.models Sample.sorted_db
    "dummyModel" (Obj [("a", VNum 11)]) Omitted.
Proof.
  apply (null_orderBy_settles_only_the_scan numbers_only Sample.models
           Sample.sorted_db "dummyModel" Sample.dummyModel (Obj [("a", VNum 11)])).
  reflexivity.
Defined.

(** X4.  A range whose lower bound lies above its upper bound, or meets it
    with a side open, cannot be built: on the indexed path the promise is
    never settled. *)
Theorem inverted_range_is_never_settled :
  forall (models : gmap string JS.object)
         (db : database) (modelName : string) (blank : JS.object) (a : string)
         (lowerOpen upperOpen upperFirst : bool) (l u : value) (orderBy : argument),
    models !! modelName = Some blank ->
    same_kind l u = true ->
    match IDB.compare (key_of l) (key_of u) with
    | Lt => false
    | Eq => lowerOpen || upperOpen
    | Gt => true
    end = true ->
    findObjectsByAttributeWithIndex models db modelName
      (Obj [(a, range_term (Between lowerOpen l upperOpen u upperFirst))]) orderBy =
    Unsettled.
Proof.
  intros models db modelName blank a lo uo first l u orderBy Hmodel Hkind Hinv.
  apply (findObjectsByAttributeWithIndex_throwing_range _ _ _ blank _ _ DataError);
    [assumption|].
  unfold generateIDBKeyRange, keyRangeCall, properties.
  destruct (same_kind_scalar _ _ Hkind) as [Hl Hu].
  destruct lo, uo, first; simpl;
    rewrite (to_key_scalar l Hl), (to_key_scalar u Hu);
    destruct (IDB.compare (key_of l) (key_of u)); simpl in Hinv |- *;
    try discriminate; reflexivity.
Qed.

Lemma inverted_range_is_never_settled_witness :
  findObjectsByAttributeWithIndex Sample.models Sample.sorted_db
    "dummyModel"
    (Obj [("a", range_term (Between false (VNum 15) false (VNum 10) false))]) Omitted =
  Unsettled.
Proof.
  apply (inverted_range_is_never_settled Sample.models Sample.sorted_db
           "dummyModel" Sample.dummyModel "a" false false false (VNum 15) (VNum 10)
           Omitted); reflexivity.
Defined.

(** X5.  An equality with [true], [false], [null] or [undefined] cannot be
    asked of an index: none of them is a key, and on the indexed path the
    promise is never settled.  The scan compares [true], [false] and
    [undefined] by strict equality; a [null] it takes for a range descriptor
    without operators, and retains every record. *)
Theorem equality_with_no_key_is_never_settled :
  forall (coerce : coercion) (models : gmap string JS.object)
         (db : database) (modelName : string)
         (blank : JS.object) (a : string) (v : value) (orderBy : argument)
         (result : JS.object),
    models !! modelName = Some blank ->
    no_key v = true ->
    findObjectsByAttributeWithIndex models db modelName (Obj [(a, v)]) orderBy =
      Unsettled /\
    retained coerce (Obj [(a, v)]) result =
      Normal (match v with
              | VNull => true
              | _ => strict_equal (JS.get result a) v
              end).
Proof.
  intros coerce models db modelName blank a v orderBy result Hmodel Hv.
  split.
  - destruct v; try discriminate.
    + apply (findObjectsByAttributeWithIndex_throwing_range _ _ _ blank _ _ DataError);
        [assumption | reflexivity].
    + apply (findObjectsByAttributeWithIndex_throwing_range _ _ _ blank _ _ TypeError);
        [assumption | reflexivity].
    + apply (findObjectsByAttributeWithIndex_throwing_range _ _ _ blank _ _ DataError);
        [assumption | reflexivity].
  - unfold retained, properties.
    destruct v; try discriminate; simpl; rewrite String.eqb_refl; simpl;
      try reflexivity;
      match goal with
      | |- (if ?b then _ else _) = _ => now destruct b
      end.
Qed.

Lemma equality_with_no_key_is_never_settled_witness :
  findObjectsByAttributeWithIndex Sample.models Sample.sorted_db
    "dummyModel" (Obj [("a", VBool true)]) Omitted = Unsettled /\
  retained numbers_only (Obj [("a", VBool true)]) Sample.record_1_5 =
    Normal (match VBool true with
            | VNull => true
            | _ => strict_equal (JS.get Sample.record_1_5 "a") (VBool true)
            end).
Proof.
  apply (equality_with_no_key_is_never_settled numbers_only Sample.models
           Sample.sorted_db "dummyModel" Sample.dummyModel "a"
           (VBool true) Omitted Sample.record_1_5); reflexivity.
Defined.

(** *** The validity check and the choice of the path *)

Lemma count_bounds_returns_or_throws (values : list value)
    (lowerboundCount upperBoundCount : Z) :
  (In VNull values ->
   count_bounds values lowerboundCount upperBoundCount = Throw TypeError) /\
  (~ In VNull values ->
   exists counts, count_bounds values lowerboundCount upperBoundCount = Normal counts).
Proof.
  revert lowerboundCount upperBoundCount.
  induction values as [|v rest IH]; intros lo up; simpl.
  - split; [tauto | eauto].
  - destruct v; simpl;
      try (split; [intros [Heq|Hin]; [discriminate | now apply IH]
                  | intros Hnot; apply IH; tauto]).
    split; [reflexivity | tauto].
Qed.

Lemma null_among (values : list value) : In VNull values \/ ~ In VNull values.
Proof.
  induction values as [|v rest [IH|IH]]; simpl.
  - tauto.
  - left. now right.
  - destruct v; try (right; intros [Heq|Hin]; [discriminate | tauto]).
    left. now left.
Qed.

Lemma isValidQuery_cases (coerce : coercion) (attributes : argument) :
  (isValidQuery coerce attributes = Normal true \/
   isValidQuery coerce attributes = Throw TypeError) /\
  (isValidQuery coerce attributes = Throw TypeError <->
   List.length (Mixin.getValuesFromObject (properties attributes) false) <> 1%nat /\
   In VNull (Mixin.getValuesFromObject (properties attributes) false)).
Proof.
  unfold isValidQuery.
  set (values := Mixin.getValuesFromObject (properties attributes) false).
  destruct (Nat.eqb_spec (List.length values) 1) as [Hone|Hmore].
  - split; [now left|]. split; [discriminate | tauto].
  - destruct (count_bounds_returns_or_throws values 0 0) as [Hthrow Hreturn].
    destruct (null_among values) as [Hin|Hnot].
    + rewrite (Hthrow Hin). simpl. split; [now right | tauto].
    + destruct (Hreturn Hnot) as [[lo up] ->]. simpl.
      split; [now left|]. split; [discriminate | tauto].
Qed.

(** X6.  [isValidQuery] never answers [false].  It returns [true], or it
    throws a [TypeError], and this exactly when the query has a [null] among
    its values and not one value only. *)
Theorem isValidQuery_returns_true_or_throws :
  forall (coerce : coercion) (attributes : argument),
    (isValidQuery coerce attributes = Normal true \/
     isValidQuery coerce attributes = Throw TypeError) /\
    (isValidQuery coerce attributes = Throw TypeError <->
     List.length (Mixin.getValuesFromObject (properties attributes) false) <> 1%nat /\
     In VNull (Mixin.getValuesFromObject (properties attributes) false)).
Proof. intros coerce attributes. apply isValidQuery_cases. Qed.

Lemma findBy_by_names (coerce : coercion) (models : gmap string JS.object)
    (indexes : gmap string (list index)) (db : database) (modelName : string)
    (blank : JS.object) (declared : list index) (attributes orderBy : argument) :
  models !! modelName = Some blank ->
  indexes !! modelName = Some declared ->
  ~ In VNull (Mixin.getValuesFromObject (properties attributes) false) ->
  findBy coerce models indexes db modelName attributes orderBy =
  if existsb
       (fun i => String.eqb
                   (JS.toString (Mixin.getKeysFromObject (properties attributes)))
                   (index_toString i))
       declared
  then findObjectsByAttributeWithIndex models db modelName attributes orderBy
  else findObjectsByAttributeNoIndex coerce models db modelName attributes orderBy.
Proof.
  intros Hmodel Hdeclared Hnull.
  unfold findBy. rewrite Hmodel, Hdeclared.
  destruct (isValidQuery_cases coerce attributes)
    as [[Htrue|Hthrow] Hiff].
  - now rewrite Htrue.
  - apply Hiff in Hthrow. tauto.
Qed.

(** X7.  For a registered model with declared indexes and a query without
    [null] among its values, [findBy] chooses its path by the names alone:
    the indexed path when the attribute names of the query, joined by
    commas, are the name of a declared index, the scan otherwise.  The
    validity check sends no query to the scan. *)
Theorem findBy_chooses_its_path_by_the_names :
  forall (coerce : coercion) (models : gmap string JS.object)
         (indexes : gmap string (list index)) (db : database) (modelName : string)
         (blank : JS.object) (declared : list index) (attributes orderBy : argument),
    models !! modelName = Some blank ->
    indexes !! modelName = Some declared ->
    ~ In VNull (Mixin.getValuesFromObject (properties attributes) false) ->
    findBy coerce models indexes db modelName attributes orderBy =
    if existsb
         (fun i => String.eqb
                     (JS.toString (Mixin.getKeysFromObject (properties attributes)))
                     (index_toString i))
         declared
    then findObjectsByAttributeWithIndex models db modelName attributes orderBy
    else findObjectsByAttributeNoIndex coerce models db modelName attributes orderBy.
Proof.
  intros coerce models indexes db modelName blank declared attributes orderBy.
  apply findBy_by_names.
Qed.

Lemma findBy_chooses_its_path_by_the_names_witness :
  findBy numbers_only Sample.models Sample.index_a_b Sample.sorted_db "dummyModel"
    (Obj Sample.unbalanced) Omitted =
  if existsb
       (fun i => String.eqb
                   (JS.toString (Mixin.getKeysFromObject (properties (Obj Sample.unbalanced))))
                   (index_toString i))
       [Compound ["a"; "b"]]
  then findObjectsByAttributeWithIndex Sample.models Sample.sorted_db
         "dummyModel" (Obj Sample.unbalanced) Omitted
  else findObjectsByAttributeNoIndex numbers_only Sample.models Sample.sorted_db
         "dummyModel" (Obj Sample.unbalanced) Omitted.
Proof.
  apply (findBy_chooses_its_path_by_the_names numbers_only Sample.models
           Sample.index_a_b Sample.sorted_db "dummyModel" Sample.dummyModel
           [Compound ["a"; "b"]] (Obj Sample.unbalanced) Omitted);
    try reflexivity.
  vm_compute. intros [H|[H|[]]]; discriminate.
Defined.

Lemma find_among {A : Type} (p : A -> bool) (l : list A) (x : A) :
  In x l -> p x = true -> exists y, List.find p l = Some y.
Proof.
  induction l as [|z rest IH]; simpl; [tauto|].
  intros [->|Hin] Hp.
  - rewrite Hp. eauto.
  - destruct (p z); eauto.
Qed.

(** *** The upgrade *)

Lemma createIndex_made (s s' : IDB.store) (name : string) (path : IDB.keyPath)
    (unique : bool) :
  IDB.createIndex s name path unique = Normal s' ->
  IDB.records s' = IDB.records s /\
  IDB.indexes s' = IDB.indexes s ++ [IDB.Index name path unique] /\
  ~ In name (map IDB.index_name (IDB.indexes s)).
Proof.
  unfold IDB.createIndex.
  destruct (existsb _ (IDB.indexes s)) eqn:Hexists; [discriminate|].
  destruct (negb (IDB.valid path)); [discriminate|].
  intros [= <-]. simpl. split; [reflexivity|]. split; [reflexivity|].
  intros Hin. apply in_map_iff in Hin as (i & Hname & Hin).
  assert (existsb (fun i => String.eqb (IDB.index_name i) name) (IDB.indexes s) = true)
    as Htrue by (apply existsb_exists; exists i; split;
                 [assumption | now apply String.eqb_eq]).
  congruence.
Qed.

Lemma skipped_is_id (i : index) :
  match i with
  | Single "id" => true
  | _ => false
  end = is_id i.
Proof.
  destruct i as [name|names]; [|reflexivity]. simpl.
  destruct (String.eqb_spec name "id") as [->|Hne]; [reflexivity|].
  repeat case_match; try reflexivity. now subst.
Qed.

Lemma createIndexes_made (declared : list index) (s s' : IDB.store) :
  createIndexes s declared = Normal s' ->
  IDB.records s' = IDB.records s /\
  IDB.indexes s' =
    IDB.indexes s ++ map made (List.filter (fun i => negb (is_id i)) declared) /\
  (NoDup (map IDB.index_name (IDB.indexes s)) ->
   NoDup (map IDB.index_name (IDB.indexes s'))).
Proof.
  revert s. induction declared as [|i rest IH]; intros s; simpl.
  - intros [= <-]. now rewrite app_nil_r.
  - pose proof (skipped_is_id i) as Hskip.
    destruct (is_id i) eqn:Hid; simpl.
    + assert (match i with
              | Single "id" => Normal s
              | _ => IDB.createIndex s (index_toString i) (index_keyPath i) false
              end = Normal s) as -> by (repeat case_match; congruence).
      simpl. apply IH.
    + assert (match i with
              | Single "id" => Normal s
              | _ => IDB.createIndex s (index_toString i) (index_keyPath i) false
              end = IDB.createIndex s (index_toString i) (index_keyPath i) false)
        as -> by (repeat case_match; congruence).
      destruct (IDB.createIndex s _ _ false) as [s1|e] eqn:Hcreate; [|discriminate].
      simpl. intros Hrest.
      apply createIndex_made in Hcreate as (Hrecords & Hindexes & Hfresh).
      apply IH in Hrest as (Hrecords' & Hindexes' & Hdistinct).
      split; [congruence|]. split.
      * rewrite Hindexes', Hindexes, <- app_assoc. reflexivity.
      * intros Hnodup. apply Hdistinct. rewrite Hindexes, map_app. simpl.
        apply NoDup_app. split; [assumption|]. split.
        -- intros x Hx Hone. apply list_elem_of_In in Hone as [<-|[]].
           apply Hfresh. now apply list_elem_of_In.
        -- apply NoDup_singleton.
Qed.

(** The store [createObjectStore] makes for a model depends on the declared
    indexes alone. *)
Lemma createObjectStore_made (indexes : gmap string (list index))
    (db db' : database) (model : string) :
  createObjectStore indexes db model = Normal db' ->
  exists objectStore : IDB.store,
    db' = Database (<[model := objectStore]> (stores db)) (journal db) /\
    made_for (default [] (indexes !! model)) objectStore.
Proof.
  unfold made_for.
  unfold createObjectStore.
  destruct (createIndexes IDB.empty _) as [s1|e] eqn:Hdeclared; [|discriminate].
  simpl. destruct (IDB.createIndex s1 "id" _ true) as [s2|e] eqn:Hid; [|discriminate].
  simpl. intros [= <-].
  apply createIndexes_made in Hdeclared as (Hrecords1 & Hindexes1 & Hdistinct1).
  apply createIndex_made in Hid as (Hrecords2 & Hindexes2 & Hfresh).
  exists s2. split; [reflexivity|]. split; [now rewrite Hrecords2, Hrecords1|]. split.
  - now rewrite Hindexes2, Hindexes1.
  - rewrite Hindexes2, map_app. simpl. apply NoDup_app.
    split; [apply Hdistinct1; constructor|]. split.
    + intros x Hx Hone. apply list_elem_of_In in Hone as [<-|[]].
      apply Hfresh. now apply list_elem_of_In.
    + apply NoDup_singleton.
Qed.
Lemma upgrade_thrown (indexes : gmap string (list index)) (names : list string)
    (e : error) :
  fold_left (fun made model => db <- made ;; createObjectStore indexes db model)
    names (Throw e) = Throw e.
Proof. induction names as [|name rest IH]; simpl; [reflexivity | exact IH]. Qed.

Lemma upgrade_made (indexes : gmap string (list index)) (names : list string)
    (db db' : database) :
  fold_left (fun made model => db <- made ;; createObjectStore indexes db model)
    names (Normal db) = Normal db' ->
  (forall name : string,
      In name names ->
      exists objectStore : IDB.store,
        stores db' !! name = Some objectStore /\
        made_for (default [] (indexes !! name)) objectStore) /\
  (forall name : string, ~ In name names -> stores db' !! name = stores db !! name).
Proof.
  revert db. induction names as [|model rest IH]; intros db; simpl.
  - intros [= <-]. split; [tauto | reflexivity].
  - destruct (createObjectStore indexes db model) as [db1|e] eqn:Hcreate;
      [|rewrite upgrade_thrown; discriminate].
    intros Hrest. apply IH in Hrest as [Hmade Hkept].
    apply createObjectStore_made in Hcreate as (objectStore & -> & Hstore).
    split.
    + intros name [<-|Hin].
      * destruct (in_dec string_dec model rest) as [Hin|Hnot]; [now apply Hmade|].
        exists objectStore. split; [|assumption].
        rewrite (Hkept model Hnot). simpl. apply lookup_insert_eq.
      * now apply Hmade.
    + intros name Hnot. rewrite Hkept by tauto. simpl.
      apply lookup_insert_ne. tauto.
Qed.

Lemma find_by_name (l : list IDB.IDBIndex) (x : IDB.IDBIndex) :
  NoDup (map IDB.index_name l) -> In x l ->
  List.find (fun i => String.eqb (IDB.index_name i) (IDB.index_name x)) l = Some x.
Proof.
  induction l as [|y rest IH]; simpl; [tauto|].
  intros Hdistinct Hin. apply NoDup_cons in Hdistinct as [Hfresh Hrest].
  destruct (String.eqb_spec (IDB.index_name y) (IDB.index_name x)) as [Hname|Hname].
  - destruct Hin as [->|Hin]; [reflexivity|].
    exfalso. apply Hfresh. rewrite Hname. apply list_elem_of_In.
    now apply in_map.
  - destruct Hin as [->|Hin]; [congruence | now apply IH].
Qed.

Lemma store_index_made (declared : list index) (objectStore : IDB.store) (i : index) :
  made_for declared objectStore -> In i declared ->
  store_index objectStore (index_toString i) = Some (index_keyPath i).
Proof.
  intros (_ & Hindexes & Hdistinct) Hin. unfold store_index, IDB.index.
  destruct (is_id i) eqn:Hid.
  - destruct i as [name|names]; [|discriminate]. simpl in Hid.
    apply String.eqb_eq in Hid. subst name. simpl.
    pose proof (find_by_name _ (IDB.Index "id" (IDB.Attribute "id") true) Hdistinct)
      as Hfind.
    simpl in Hfind. rewrite Hfind; [reflexivity|].
    rewrite Hindexes. apply in_or_app. right. now left.
  - change (index_toString i) with (IDB.index_name (made i)).
    rewrite (find_by_name _ (made i) Hdistinct); [reflexivity|].
    rewrite Hindexes. apply in_or_app. left. apply in_map, filter_In.
    split; [assumption | now rewrite Hid].
Qed.

Lemma unique_on_id_made (declared : list index) (objectStore : IDB.store) :
  made_for declared objectStore -> unique_on_id objectStore = true.
Proof.
  intros (_ & Hindexes & _). unfold unique_on_id. rewrite Hindexes.
  rewrite forallb_app. simpl. rewrite andb_true_r.
  apply forallb_forall. intros i Hin. apply in_map_iff in Hin as (j & <- & _).
  reflexivity.
Qed.

(** X8.  When the upgrade goes through, the store of every registered model
    is empty and has, under the name of each index declared for the model,
    the index on the attributes declared, beside the unique index on [id],
    its only unique index: whatever index [findBy] asks the store for by
    the name of a declared one, [objectStore.index] finds it. *)
Theorem upgrade_makes_every_declared_index :
  forall (models : gmap string JS.object) (indexes : gmap string (list index))
         (db db' : database) (modelName : string) (blank : JS.object)
         (declared : list index),
    onupgradeneeded models indexes db = Normal db' ->
    models !! modelName = Some blank ->
    indexes !! modelName = Some declared ->
    exists objectStore : IDB.store,
      stores db' !! modelName = Some objectStore /\
      IDB.records objectStore = [] /\
      (forall i : index,
          In i declared ->
          store_index objectStore (index_toString i) = Some (index_keyPath i)) /\
      store_index objectStore "id" = Some (IDB.Attribute "id") /\
      unique_on_id objectStore = true.
Proof.
  intros models indexes db db' modelName blank declared Hupgrade Hmodel Hdeclared.
  unfold onupgradeneeded in Hupgrade.
  apply upgrade_made in Hupgrade as [Hmade _].
  destruct (Hmade modelName) as (objectStore & Hstore & Hfor).
  { apply in_map_iff. exists (modelName, blank). split; [reflexivity|].
    apply list_elem_of_In. now apply elem_of_map_to_list. }
  rewrite Hdeclared in Hfor. simpl in Hfor.
  exists objectStore. split; [assumption|]. split; [apply Hfor|]. split; [|split].
  - intros i Hin. now apply (store_index_made declared).
  - assert (made_for (Single "id" :: declared) objectStore) as Hfor'
      by (destruct Hfor as (? & ? & ?); now repeat split).
    apply (store_index_made _ _ (Single "id") Hfor'). now left.
  - now apply (unique_on_id_made declared).
Qed.

Lemma upgrade_makes_every_declared_index_witness :
  exists objectStore : IDB.store,
    stores Sample.empty_db !! "dummyModel" = Some objectStore /\
    IDB.records objectStore = [] /\
    (forall i : index,
        In i [Single "id"; Single "a"; Compound ["a"; "b"]] ->
        store_index objectStore (index_toString i) = Some (index_keyPath i)) /\
    store_index objectStore "id" = Some (IDB.Attribute "id") /\
    unique_on_id objectStore = true.
Proof.
  apply (upgrade_makes_every_declared_index Sample.models Sample.index_all
           (Database ∅ []) Sample.empty_db "dummyModel" Sample.dummyModel
           [Single "id"; Single "a"; Compound ["a"; "b"]]);
    vm_compute; reflexivity.
Defined.

(** A declaration with the compound index [['id']], whose name is [id] as
    well, makes the upgrade throw, and [open] hands its callback [null]. *)
Lemma upgrade_with_colliding_names :
  onupgradeneeded Sample.models {[ "dummyModel" := [Compound ["id"]] ]}
    (Database ∅ []) = Throw ConstraintError /\
  onupgradeneeded Sample.models {[ "dummyModel" := [Single "a"; Single "a"] ]}
    (Database ∅ []) = Throw ConstraintError /\
  open Sample.models {[ "dummyModel" := [Compound ["id"]] ]} (Database ∅ []) true =
    None.
Proof. repeat split; vm_compute; reflexivity. Qed.







(** *** The clauses of the WebSQL statements *)

Lemma keys_of_plain (attributes : JS.object) :
  forallb (fun t => plain (snd t)) attributes = true ->
  Mixin.getKeysFromObject attributes = map fst attributes.
Proof.
  induction attributes as [|[a v] rest IH]; simpl; [reflexivity|].
  intros H. apply andb_true_iff in H as [Hv Hrest].
  rewrite IH by assumption. now destruct v.
Qed.

Lemma values_of_plain (attributes : JS.object) (deep : bool) :
  forallb (fun t => plain (snd t)) attributes = true ->
  Mixin.getValuesFromObject attributes deep = map snd attributes.
Proof.
  unfold Mixin.getValuesFromObject.
  induction attributes as [|[a v] rest IH]; simpl; [reflexivity|].
  intros H. apply andb_true_iff in H as [Hv Hrest].
  simpl in IH. rewrite IH by assumption.
  destruct v; simpl in Hv; try discriminate; reflexivity.
Qed.

Lemma get_plain (attributes : JS.object) (key : string) :
  forallb (fun t => plain (snd t)) attributes = true ->
  plain (JS.get attributes key) = true \/ JS.get attributes key = VUndefined.
Proof.
  induction attributes as [|[a v] rest IH]; simpl; [now right|].
  intros H. apply andb_true_iff in H as [Hv Hrest].
  destruct (String.eqb a key); [now left | now apply IH].
Qed.

Lemma where_terms_plain (attributes : JS.object) (keys : list string)
    (index : nat) (sql : string) :
  forallb (fun t => plain (snd t)) attributes = true ->
  WebSQL.where_terms attributes keys index (index + List.length keys) sql =
  sql +:+ (if Nat.eqb index 0 && negb (Nat.eqb (List.length keys) 0)
           then " WHERE " else "") +:+
  String.concat "AND " (map (fun key => key +:+ " = ? ") keys).
Proof.
  intros Hplain. revert index sql.
  induction keys as [|key rest IH]; intros index sql.
  - simpl. rewrite andb_false_r. simpl. now rewrite string_app_nil_r.
  - cbn [WebSQL.where_terms List.length].
    replace (index + S (List.length rest))%nat with (S index + List.length rest)%nat
      by lia.
    rewrite IH.
    assert (forall other : string,
               match JS.get attributes key with
               | VObj sub =>
                   WebSQL.operator_terms key (Mixin.getKeysFromObject sub) 0
                     (List.length (Mixin.getKeysFromObject sub)) sql
               | _ => other
               end = other) as ->.
    { intros other. destruct (get_plain attributes key Hplain) as [H|H].
      - now destruct (JS.get attributes key).
      - now rewrite H. }
    unfold Mixin.isLast, Mixin.isFirst. cbn [Nat.eqb andb negb].
    rewrite andb_true_r.
    destruct rest as [|key' rest'].
    + destruct (Nat.eqb_spec (index + 1) (S index + List.length (@nil string)));
        [|simpl in *; lia].
      simpl. now rewrite !string_app_assoc, !string_app_nil_r.
    + destruct (Nat.eqb_spec (index + 1) (S index + List.length (key' :: rest')));
        [simpl in *; lia|].
      cbn [map String.concat negb]. now rewrite !string_app_assoc.
Qed.

(** X9.  For a query of equalities only, the WHERE clause has one
    [name = ?] term for each attribute, the terms joined by [AND] after a
    single [WHERE], and the values [findBy] binds are the values of the
    attributes in the same order.  Without attributes the clause is
    empty. *)
Theorem generateWhereClause_of_equalities :
  forall attributes : JS.object,
    forallb (fun t => plain (snd t)) attributes = true ->
    WebSQL.generateWhereClause attributes =
      match attributes with
      | [] => ""
      | _ => " WHERE " +:+
             String.concat "AND " (map (fun t => fst t +:+ " = ? ") attributes)
      end /\
    Mixin.getValuesFromObject attributes true = map snd attributes.
Proof.
  intros attributes Hplain. split; [|now apply values_of_plain].
  unfold WebSQL.generateWhereClause.
  pose proof (where_terms_plain attributes (Mixin.getKeysFromObject attributes) 0 ""
                Hplain) as Hterms.
  simpl in Hterms. rewrite Hterms, (keys_of_plain attributes Hplain), map_map.
  now destruct attributes.
Qed.

Lemma generateWhereClause_of_equalities_witness :
  WebSQL.generateWhereClause [("a", VStr "foo"); ("b", VNum 2)] =
    " WHERE " +:+
    String.concat "AND "
      (map (fun t => fst t +:+ " = ? ") [("a", VStr "foo"); ("b", VNum 2)]) /\
  Mixin.getValuesFromObject [("a", VStr "foo"); ("b", VNum 2)] true =
    map snd [("a", VStr "foo"); ("b", VNum 2)].
Proof.
  apply (generateWhereClause_of_equalities [("a", VStr "foo"); ("b", VNum 2)]).
  reflexivity.
Defined.




Lemma order_terms_text (attributes : JS.object) (keys : list string)
    (index : nat) (sql : string) :
  WebSQL.order_terms attributes keys index (index + List.length keys) sql =
  sql +:+ (if Nat.eqb index 0 && negb (Nat.eqb (List.length keys) 0)
           then " ORDER BY " else "") +:+
  String.concat ", "
    (map (fun key => key +:+ " " +:+ WebSQL.to_string (JS.get attributes key) +:+ " ")
       keys).
Proof.
  revert index sql. induction keys as [|key rest IH]; intros index sql.
  - simpl. rewrite andb_false_r. simpl. now rewrite string_app_nil_r.
  - cbn [WebSQL.order_terms List.length].
    replace (index + S (List.length rest))%nat with (S index + List.length rest)%nat
      by lia.
    rewrite IH.
    unfold Mixin.isLast, Mixin.isFirst. cbn [Nat.eqb andb negb].
    rewrite andb_true_r.
    destruct rest as [|key' rest'].
    + destruct (Nat.eqb_spec (index + 1) (S index + List.length (@nil string)));
        [|simpl in *; lia].
      simpl. now rewrite !string_app_assoc, !string_app_nil_r.
    + destruct (Nat.eqb_spec (index + 1) (S index + List.length (key' :: rest')));
        [simpl in *; lia|].
      cbn [map String.concat negb]. now rewrite !string_app_assoc.
Qed.

(** X11.  The ORDER BY clause names every attribute of [orderBy] with its
    direction, in the order of the object, separated by commas after a
    single [ORDER BY]: the relational adapter orders by all of them, where
    the other adapter reads the first one only.  A query without attributes
    and with an [orderBy] selects the whole table in that order. *)
Theorem generateOrderByClause_names_every_attribute :
  forall (modelName : string) (orderBy : JS.object),
    WebSQL.generateOrderByClause orderBy =
      match Mixin.getKeysFromObject orderBy with
      | [] => ""
      | keys =>
          " ORDER BY " +:+
          String.concat ", "
            (map (fun key => key +:+ " " +:+ WebSQL.to_string (JS.get orderBy key)
                             +:+ " ") keys)
      end /\
    WebSQL.generateSelectQuery modelName Null (Obj orderBy) =
      "SELECT * FROM " +:+ modelName +:+ WebSQL.generateOrderByClause orderBy.
Proof.
  intros modelName orderBy. split; [|reflexivity].
  unfold WebSQL.generateOrderByClause.
  pose proof (order_terms_text orderBy (Mixin.getKeysFromObject orderBy) 0 "") as Hterms.
  simpl in Hterms. rewrite Hterms.
  now destruct (Mixin.getKeysFromObject orderBy).
Qed.

(** *** The values the WebSQL adapter binds *)

(** X12.  [deleteBy] binds the values of the attributes as they are, a
    range descriptor included: for a query on one attribute with a
    descriptor it hands the engine the descriptor itself as the only
    parameter of a statement that has one placeholder for each operator,
    where [findBy] hands it the bounds. *)
Theorem websql_deleteBy_binds_the_descriptor :
  forall (models : gmap string JS.object) (sqldb : Type)
         (executeSql : sqldb -> string -> list value -> option (sqldb * list JS.object))
         (db : sqldb) (modelName : string) (blank : JS.object) (a : string)
         (descriptor : JS.object),
    models !! modelName = Some blank ->
    forallb (fun t => plain (snd t)) descriptor = true ->
    WebSQL.deleteBy models sqldb executeSql db modelName (Obj [(a, VObj descriptor)]) =
      match executeSql db
              ("DELETE FROM " +:+ modelName +:+
               WebSQL.generateWhereClause [(a, VObj descriptor)])
              [VObj descriptor] with
      | Some (db', _) => (Fulfilled tt, db')
      | None => (Rejected, db)
      end /\
    WebSQL.findBy models sqldb executeSql db modelName (Obj [(a, VObj descriptor)])
      Omitted =
      match executeSql db
              ("SELECT * FROM " +:+ modelName +:+
               WebSQL.generateWhereClause [(a, VObj descriptor)])
              (map snd descriptor) with
      | Some (_, rows) => Fulfilled (map (BaseModel.createFromObject blank) rows)
      | None => Rejected
      end.
Proof.
  intros models sqldb executeSql db modelName blank a descriptor Hmodel Hplain.
  unfold WebSQL.deleteBy, WebSQL.findBy. rewrite Hmodel.
  split; [reflexivity|].
  pose proof (values_of_plain descriptor true Hplain) as Hvalues.
  unfold Mixin.getValuesFromObject in *. simpl in *.
  rewrite app_nil_r, Hvalues. reflexivity.
Qed.

Lemma keys_and_values_align (object : JS.object) :
  List.length (Mixin.getValuesFromObject object false) =
  List.length (Mixin.getKeysFromObject object).
Proof.
  unfold Mixin.getValuesFromObject.
  induction object as [|[k v] rest IH]; simpl; [reflexivity|].
  simpl in IH. destruct v; simpl; now rewrite ?IH.
Qed.

(** X13.  The INSERT statement of [insertObject] is balanced: it names the
    data attributes of the model, has one placeholder for each, and the
    values bound are as many. *)
Theorem websql_insert_statement_is_balanced :
  forall (modelName : string) (model : JS.object),
    WebSQL.generateInsertQuery modelName model =
      "INSERT OR REPLACE INTO " +:+ modelName +:+ " (" +:+
      String.concat "," (Mixin.getKeysFromObject model) +:+ ") VALUES (" +:+
      String.concat "," (map (fun _ => "?") (Mixin.getKeysFromObject model)) +:+ ");" /\
    List.length (map (fun _ : string => "?") (Mixin.getKeysFromObject model)) =
      List.length (Mixin.getValuesFromObject model false).
Proof.
  intros modelName model. split; [apply generateInsertQuery_text|].
  now rewrite length_map, keys_and_values_align.
Qed.

(** *** The table of a model *)

Lemma column_definitions_text (keys : list string) (index : nat) (sql : string) :
  WebSQL.column_definitions keys index (index + List.length keys) sql =
  sql +:+
  String.concat ","
    (map (fun key => if String.eqb key "id" then key +:+ " PRIMARY KEY" else key) keys).
Proof.
  revert index sql. induction keys as [|key rest IH]; intros index sql.
  - simpl. now rewrite string_app_nil_r.
  - cbn [WebSQL.column_definitions List.length].
    replace (index + S (List.length rest))%nat with (S index + List.length rest)%nat
      by lia.
    rewrite IH. unfold Mixin.isLast.
    destruct rest as [|key' rest'].
    + destruct (Nat.eqb_spec (index + 1) (S index + List.length (@nil string)));
        [|simpl in *; lia].
      cbn [map String.concat].
      destruct (String.eqb key "id"); simpl;
        now rewrite !string_app_assoc, ?string_app_nil_r.
    + destruct (Nat.eqb_spec (index + 1) (S index + List.length (key' :: rest')));
        [simpl in *; lia|].
      cbn [map String.concat].
      destruct (String.eqb key "id"); now rewrite !string_app_assoc.
Qed.

Lemma fold_set_empty_strings (keys : list string) (acc : JS.object) :
  NoDup (map fst acc ++ keys) ->
  fold_left (fun obj key => JS.set obj key (VStr "")) keys acc =
  acc ++ map (fun key => (key, VStr "")) keys.
Proof.
  revert acc. induction keys as [|key rest IH]; intros acc Hnd; simpl.
  - now rewrite app_nil_r.
  - rewrite set_fresh.
    + rewrite IH.
      * now rewrite <- app_assoc.
      * rewrite map_app. simpl. now rewrite <- app_assoc.
    + apply NoDup_app in Hnd as (_ & Hdisjoint & _).
      intros Hin. apply (Hdisjoint key); [now apply list_elem_of_In|].
      apply list_elem_of_In. now left.
Qed.

Lemma websql_deleteBy_binds_the_descriptor_witness :
  WebSQL.deleteBy Sample.models unit (fun _ _ _ => None) tt "dummyModel"
    (Obj [("id", VObj [("greaterThan", VNum 1); ("lessThan", VNum 3)])]) =
    match (fun (_ : unit) (_ : string) (_ : list value) =>
             @None (unit * list JS.object)) tt
            ("DELETE FROM " +:+ "dummyModel" +:+
             WebSQL.generateWhereClause
               [("id", VObj [("greaterThan", VNum 1); ("lessThan", VNum 3)])])
            [VObj [("greaterThan", VNum 1); ("lessThan", VNum 3)]] with
    | Some (db', _) => (Fulfilled tt, db')
    | None => (Rejected, tt)
    end /\
  WebSQL.findBy Sample.models unit (fun _ _ _ => None) tt "dummyModel"
    (Obj [("id", VObj [("greaterThan", VNum 1); ("lessThan", VNum 3)])]) Omitted =
    match (fun (_ : unit) (_ : string) (_ : list value) =>
             @None (unit * list JS.object)) tt
            ("SELECT * FROM " +:+ "dummyModel" +:+
             WebSQL.generateWhereClause
               [("id", VObj [("greaterThan", VNum 1); ("lessThan", VNum 3)])])
            (map snd [("greaterThan", VNum 1); ("lessThan", VNum 3)]) with
    | Some (_, rows) => Fulfilled (map (BaseModel.createFromObject Sample.dummyModel) rows)
    | None => Rejected
    end.
Proof.
  apply (websql_deleteBy_binds_the_descriptor Sample.models unit (fun _ _ _ => None) tt
           "dummyModel" Sample.dummyModel "id"
           [("greaterThan", VNum 1); ("lessThan", VNum 3)]); reflexivity.
Defined.

Lemma extend1_fresh (target source : JS.object) :
  distinct_names (target ++ source) ->
  Forall (fun p => snd p <> VUndefined) source ->
  extend1 target source = target ++ source.
Proof.
  unfold extend1, distinct_names. revert target.
  induction source as [|[k v] rest IH]; intros target Hnd Hdefined; simpl.
  - now rewrite app_nil_r.
  - inversion Hdefined as [|? ? Hv Hrest]; subst. simpl in Hv.
    assert (JS.set target k v = target ++ [(k, v)]) as Hset.
    { apply set_fresh. rewrite map_app in Hnd.
      apply NoDup_app in Hnd as (_ & Hdisjoint & _).
      intros Hin. apply (Hdisjoint k); [now apply list_elem_of_In|].
      apply list_elem_of_In. now left. }
    destruct v; try congruence; rewrite Hset, IH; try assumption;
      rewrite <- ?app_assoc; try reflexivity; exact Hnd.
Qed.

Lemma keys_of_app (o1 o2 : JS.object) :
  Mixin.getKeysFromObject (o1 ++ o2) =
  Mixin.getKeysFromObject o1 ++ Mixin.getKeysFromObject o2.
Proof.
  induction o1 as [|[k v] rest IH]; simpl; [reflexivity|].
  destruct (isFunction v); simpl; now rewrite IH.
Qed.

Lemma keys_of_empty_strings (keys : list string) :
  Mixin.getKeysFromObject (map (fun key => (key, VStr "")) keys) = keys.
Proof. induction keys as [|key rest IH]; simpl; [reflexivity | now rewrite IH]. Qed.

Lemma transformModel_object (constructed : JS.object) :
  NoDup (BaseModel.getKeysFromObject constructed) ->
  forallb (fun key => negb (is_method key)) (BaseModel.getKeysFromObject constructed)
    = true ->
  DbFactory.transformModel constructed =
  map (fun key => (key, VStr "")) (BaseModel.getKeysFromObject constructed) ++
  BaseModel.baseM.
Proof.
  intros Hnd Hnames. unfold DbFactory.transformModel, extend.
  set (keys := BaseModel.getKeysFromObject constructed) in *.
  cbn [fold_left].
  rewrite (fold_set_empty_strings keys []) by exact Hnd.
  cbn [app].
  assert (map fst (map (fun key : string => (key, VStr "")) keys) = keys) as Hfst
    by (rewrite map_map; apply map_id).
  rewrite (extend1_fresh []).
  - cbn [app]. apply extend1_fresh.
    + unfold distinct_names. rewrite map_app, Hfst.
      apply NoDup_app. split; [assumption|]. split.
      * intros key Hkey Hmethod. apply list_elem_of_In in Hkey, Hmethod.
        rewrite forallb_forall in Hnames. specialize (Hnames key Hkey).
        unfold is_method in Hnames.
        apply negb_true_iff in Hnames.
        assert (existsb (String.eqb key) (map fst BaseModel.baseM) = true) as Hyes
          by now apply existsb_eqb_In.
        congruence.
      * apply (bool_decide_unpack _). vm_compute. exact I.
    + unfold BaseModel.baseM. repeat constructor; discriminate.
  - cbn [app]. unfold distinct_names. now rewrite Hfst.
  - apply List.Forall_forall. intros p Hp. apply in_map_iff in Hp as (key & <- & _).
    discriminate.
Qed.

(** X14.  The table [createTable] makes for a model as the factory hands
    it over has one column for each data attribute of the object the
    model's constructor returns, in their order, the column [id] as primary
    key; the methods of the base model are no columns. *)
Theorem createTable_columns_are_the_data_attributes :
  forall (modelName : string) (constructed : JS.object),
    NoDup (BaseModel.getKeysFromObject constructed) ->
    forallb (fun key => negb (is_method key)) (BaseModel.getKeysFromObject constructed)
      = true ->
    WebSQL.createTable_statement modelName (DbFactory.transformModel constructed) =
    "CREATE TABLE IF NOT EXISTS " +:+ modelName +:+ " (" +:+
    String.concat ","
      (map (fun key => if String.eqb key "id" then key +:+ " PRIMARY KEY" else key)
         (BaseModel.getKeysFromObject constructed)) +:+ ");".
Proof.
  intros modelName constructed Hnd Hnames.
  unfold WebSQL.createTable_statement.
  rewrite (transformModel_object constructed Hnd Hnames), keys_of_app.
  rewrite keys_of_empty_strings. cbn [BaseModel.baseM Mixin.getKeysFromObject isFunction].
  rewrite app_nil_r.
  pose proof (column_definitions_text (BaseModel.getKeysFromObject constructed) 0)
    as Hcolumns.
  simpl in Hcolumns. rewrite Hcolumns. now rewrite !string_app_assoc.
Qed.

Lemma createTable_columns_are_the_data_attributes_witness :
  WebSQL.createTable_statement "dummyModel"
    (DbFactory.transformModel
       [("id", VUndefined); ("a", VUndefined); ("asTag", VFun "asTag")]) =
  "CREATE TABLE IF NOT EXISTS " +:+ "dummyModel" +:+ " (" +:+
  String.concat ","
    (map (fun key => if String.eqb key "id" then key +:+ " PRIMARY KEY" else key)
       (BaseModel.getKeysFromObject
          [("id", VUndefined); ("a", VUndefined); ("asTag", VFun "asTag")])) +:+ ");".
Proof.
  apply (createTable_columns_are_the_data_attributes "dummyModel"
           [("id", VUndefined); ("a", VUndefined); ("asTag", VFun "asTag")]).
  - apply (bool_decide_unpack _). vm_compute. exact I.
  - reflexivity.
Defined.

(** *** What a model reads and what is stored of it *)

(** X15.  [clone] returns the object without its function-valued
    properties: the other properties are kept, with their values and in
    their order, and no function is among them. *)
Theorem clone_drops_the_functions :
  forall this : JS.object,
    distinct_names this ->
    BaseModel.clone this = List.filter (fun p => negb (isFunction (snd p))) this.
Proof. intros this Hdistinct. now rewrite clone_data. Qed.

Lemma clone_drops_the_functions_witness :
  BaseModel.clone (BaseModel.createFromObject Sample.dummyModel Sample.first_7) =
  List.filter (fun p => negb (isFunction (snd p)))
    (BaseModel.createFromObject Sample.dummyModel Sample.first_7).
Proof.
  apply (clone_drops_the_functions
           (BaseModel.createFromObject Sample.dummyModel Sample.first_7)).
  apply (bool_decide_unpack _). vm_compute. exact I.
Defined.


Lemma get_model_of (blank object : JS.object) (a : string) :
  distinct_names blank -> distinct_names object ->
  JS.get (BaseModel.createFromObject blank object) a =
  match JS.get blank a with
  | VUndefined =>
      match JS.get BaseModel.baseM a with
      | VUndefined => JS.get object a
      | method => method
      end
  | default => default
  end.
Proof.
  intros Hblank Hobject. rewrite createFromObject_extend1, !get_extend1.
  rewrite (overlay_well_formed blank) by assumption.
  rewrite (overlay_well_formed BaseModel.baseM)
    by (apply (bool_decide_unpack _); vm_compute; exact I).
  rewrite (overlay_well_formed object) by assumption.
  simpl. now destruct (JS.get object a).
Qed.

(** X16.  A model made by [createFromObject] reads, under every name, the
    value the constructor gives when it gives one, otherwise the method of
    the base model of that name, otherwise the value of the object it was
    made from: the defaults of the constructor and the four base methods
    take the place of what was stored under their names. *)
Theorem createFromObject_prefers_the_constructor :
  forall (blank object : JS.object) (a : string),
    distinct_names blank -> distinct_names object ->
    JS.get (BaseModel.createFromObject blank object) a =
    match JS.get blank a with
    | VUndefined =>
        match JS.get BaseModel.baseM a with
        | VUndefined => JS.get object a
        | method => method
        end
    | default => default
    end.
Proof. intros blank object a. apply get_model_of. Qed.

Lemma createFromObject_prefers_the_constructor_witness :
  JS.get (BaseModel.createFromObject [("id", VUndefined); ("kind", VStr "article")]
            [("id", VNum 1); ("kind", VStr "draft"); ("clone", VNum 2)]) "kind" =
  match JS.get [("id", VUndefined); ("kind", VStr "article")] "kind" with
  | VUndefined =>
      match JS.get BaseModel.baseM "kind" with
      | VUndefined =>
          JS.get [("id", VNum 1); ("kind", VStr "draft"); ("clone", VNum 2)] "kind"
      | method => method
      end
  | default => default
  end.
Proof.
  apply (createFromObject_prefers_the_constructor
           [("id", VUndefined); ("kind", VStr "article")]
           [("id", VNum 1); ("kind", VStr "draft"); ("clone", VNum 2)] "kind");
    apply (bool_decide_unpack _); vm_compute; exact I.
Defined.



(** *** [findBy] selects record by record *)

Lemma reduce_results_pointwise (coerce : coercion) (attributes : argument)
    (results kept : list JS.object) :
  reduce_results coerce results attributes = Normal kept ->
  forall result, In result results ->
                 exists b, retained coerce attributes result = Normal b.
Proof.
  revert kept. induction results as [|x rest IH]; simpl; intros kept H result Hin;
    [tauto|].
  destruct (retained coerce attributes x) as [isValid|e] eqn:Hx; simpl in H;
    [|discriminate].
  destruct (reduce_results coerce rest attributes) as [reducedResults|e];
    simpl in H; [|discriminate].
  destruct Hin as [<-|Hin]; [eauto | now apply (IH _ eq_refl)].
Qed.

Lemma filter_all {A : Type} (l : list A) : List.filter (fun _ => true) l = l.
Proof. induction l as [|x rest IH]; simpl; [reflexivity | now rewrite IH]. Qed.

Lemma selection_of_models (blank : JS.object) (p : JS.object -> bool)
    (rs : list (IDB.key * JS.object)) :
  List.filter p (map (BaseModel.createFromObject blank) (map snd rs)) =
  selection blank (fun o => p (BaseModel.createFromObject blank o)) rs.
Proof. unfold selection. now rewrite map_map, filter_map_commute. Qed.

(** The scan. *)
Lemma scan_selects (coerce : coercion) (models : gmap string JS.object)
    (db : database) (modelName : string) (blank : JS.object) (objectStore : IDB.store)
    (attributes orderBy : argument) (found : list JS.object) :
  models !! modelName = Some blank ->
  stores db !! modelName = Some objectStore ->
  findObjectsByAttributeNoIndex coerce models db modelName attributes orderBy =
    Fulfilled found ->
  exists p : JS.object -> bool,
    Permutation found (selection blank p (IDB.records objectStore)) /\
    forall (db2 : database) (objectStore2 : IDB.store),
      stores db2 !! modelName = Some objectStore2 ->
      incl (IDB.records objectStore2) (IDB.records objectStore) ->
      exists found2,
        findObjectsByAttributeNoIndex coerce models db2 modelName attributes orderBy =
          Fulfilled found2 /\
        Permutation found2 (selection blank p (IDB.records objectStore2)).
Proof.
  intros Hmodel Hstore Hfound. unfold findObjectsByAttributeNoIndex in *.
  rewrite Hmodel, Hstore in Hfound. unfold IDB.openCursor in *.
  destruct (given attributes || given orderBy) eqn:Hgiven.
  - destruct (reduce coerce _ attributes orderBy) as [reduced|e] eqn:Hreduce;
      simpl in Hfound; [|discriminate].
    injection Hfound as <-. unfold reduce in Hreduce.
    destruct (reduce_results coerce _ attributes) as [kept|e] eqn:Hkept;
      simpl in Hreduce; [|discriminate].
    pose proof (reduce_results_pointwise _ _ _ _ Hkept) as Hpointwise.
    set (keep := fun model => match retained coerce attributes model with
                              | Normal b => b
                              | Throw _ => false
                              end).
    assert (forall rs : list (IDB.key * JS.object),
               incl rs (IDB.records objectStore) ->
               reduce_results coerce
                 (map (BaseModel.createFromObject blank) (map snd rs)) attributes =
               Normal (selection blank
                         (fun o => keep (BaseModel.createFromObject blank o)) rs))
      as Hselect.
    { intros rs Hincl. rewrite <- selection_of_models.
      apply reduce_results_filter. intros model Hin.
      destruct (Hpointwise model) as [b Hb].
      - rewrite map_map in Hin |- *. apply in_map_iff in Hin as (r & <- & Hr).
        apply in_map_iff. exists r. split; [reflexivity | now apply Hincl].
      - unfold keep. now rewrite Hb. }
    exists (fun o => keep (BaseModel.createFromObject blank o)). split.
    + rewrite (Hselect (IDB.records objectStore)) in Hkept by apply incl_refl.
      injection Hkept as <-.
      destruct orderBy as [| |o]; injection Hreduce as <-; try reflexivity.
      apply sort_permutation.
    + intros db2 objectStore2 Hstore2 Hincl. rewrite Hmodel, Hstore2.
      unfold reduce. rewrite (Hselect _ Hincl). simpl.
      destruct orderBy as [| |o]; eexists; (split; [reflexivity|]); try reflexivity.
      apply sort_permutation.
  - injection Hfound as <-. exists (fun _ => true). split.
    + unfold selection. now rewrite filter_all, map_map.
    + intros db2 objectStore2 Hstore2 Hincl. rewrite Hmodel, Hstore2.
      eexists. split; [reflexivity|].
      unfold selection. now rewrite filter_all, map_map.
Qed.

Lemma index_openCursor_selection (blank : JS.object) (path : IDB.keyPath)
    (objectStore : IDB.store) (range : IDB.range) (direction : IDB.direction) :
  Permutation
    (map (BaseModel.createFromObject blank)
       (IDB.index_openCursor path objectStore range direction))
    (selection blank
       (fun o => match IDB.index_key path o with
                 | Some ik => IDB.includes range ik
                 | None => false
                 end)
       (IDB.records objectStore)).
Proof.
  unfold IDB.index_openCursor, IDB.entries, selection.
  rewrite <- (map_map snd (BaseModel.createFromObject blank)).
  apply Permutation_map.
  transitivity
    (map snd (List.filter (fun e : IDB.entry => IDB.includes range (fst (fst e)))
                (IDB.indexed path (IDB.records objectStore)))).
  - apply Permutation_map.
    transitivity
      (List.filter (fun e : IDB.entry => IDB.includes range (fst (fst e)))
         (JS.sort IDB.entry_compare (IDB.indexed path (IDB.records objectStore)))).
    + destruct direction; [reflexivity | symmetry; apply Permutation_rev].
    + apply filter_permutation, sort_permutation.
  - rewrite (filter_indexed (IDB.includes range)), map_map. reflexivity.
Qed.

(** The indexed path. *)
Lemma index_selects (models : gmap string JS.object)
    (db : database) (modelName : string)
    (blank : JS.object) (objectStore : IDB.store) (attributes orderBy : argument)
    (found : list JS.object) :
  models !! modelName = Some blank ->
  stores db !! modelName = Some objectStore ->
  findObjectsByAttributeWithIndex models db modelName attributes orderBy =
    Fulfilled found ->
  exists p : JS.object -> bool,
    Permutation found (selection blank p (IDB.records objectStore)) /\
    forall (db2 : database) (objectStore2 : IDB.store),
      stores db2 !! modelName = Some objectStore2 ->
      IDB.indexes objectStore2 = IDB.indexes objectStore ->
      incl (IDB.records objectStore2) (IDB.records objectStore) ->
      exists found2,
        findObjectsByAttributeWithIndex models db2 modelName attributes orderBy =
          Fulfilled found2 /\
        Permutation found2 (selection blank p (IDB.records objectStore2)).
Proof.
  intros Hmodel Hstore Hfound. unfold findObjectsByAttributeWithIndex in *.
  rewrite Hmodel, Hstore in Hfound.
  destruct (IDB.index objectStore _) as [storeIndex|] eqn:Hindex; [|discriminate].
  cbn [JS.bind] in Hfound.
  destruct (generateIDBKeyRange attributes orderBy) as [range|e]; [|discriminate].
  destruct (getDirection orderBy) as [direction|e]; [|discriminate].
  simpl in Hfound. injection Hfound as <-.
  exists (fun o => match IDB.index_key (IDB.index_path storeIndex) o with
                   | Some ik => IDB.includes range ik
                   | None => false
                   end).
  split; [apply index_openCursor_selection|].
  intros db2 objectStore2 Hstore2 Hsame _. rewrite Hmodel, Hstore2.
  assert (IDB.index objectStore2
            (JS.toString (Mixin.getKeysFromObject (properties attributes))) =
          Normal storeIndex) as ->
    by (unfold IDB.index in *; now rewrite Hsame).
  simpl.
  eexists. split; [reflexivity | apply index_openCursor_selection].
Qed.

(** [findBy] takes one path for a model and a query, whatever the
    database holds. *)
Lemma findBy_path (coerce : coercion) (models : gmap string JS.object)
    (indexes : gmap string (list index)) (modelName : string) (blank : JS.object)
    (attributes orderBy : argument) :
  models !! modelName = Some blank ->
  (forall db, findBy coerce models indexes db modelName attributes orderBy =
              findObjectsByAttributeNoIndex coerce models db modelName attributes
                orderBy) \/
  (forall db, findBy coerce models indexes db modelName attributes orderBy =
              findObjectsByAttributeWithIndex models db modelName attributes
                orderBy) \/
  (exists e, forall db, findBy coerce models indexes db modelName attributes orderBy =
                        Raised e).
Proof.
  intros Hmodel. unfold findBy. rewrite Hmodel.
  destruct (indexes !! modelName) as [declared|]; [|now left].
  destruct (isValidQuery coerce attributes) as [[|]|e]; [|now left|right; right; eauto].
  destruct (existsb _ declared); [right; now left | now left].
Qed.

Lemma findBy_selects (coerce : coercion) (models : gmap string JS.object)
    (indexes : gmap string (list index)) (db : database) (modelName : string)
    (blank : JS.object) (objectStore : IDB.store) (attributes orderBy : argument)
    (found : list JS.object) :
  models !! modelName = Some blank ->
  stores db !! modelName = Some objectStore ->
  findBy coerce models indexes db modelName attributes orderBy = Fulfilled found ->
  exists p : JS.object -> bool,
    Permutation found (selection blank p (IDB.records objectStore)) /\
    forall (db2 : database) (objectStore2 : IDB.store),
      stores db2 !! modelName = Some objectStore2 ->
      IDB.indexes objectStore2 = IDB.indexes objectStore ->
      incl (IDB.records objectStore2) (IDB.records objectStore) ->
      exists found2,
        findBy coerce models indexes db2 modelName attributes orderBy =
          Fulfilled found2 /\
        Permutation found2 (selection blank p (IDB.records objectStore2)).
Proof.
  intros Hmodel Hstore Hfound.
  destruct (findBy_path coerce models indexes modelName blank attributes orderBy Hmodel)
    as [Hpath|[Hpath|[e Hpath]]]; rewrite Hpath in Hfound; [| |discriminate].
  - destruct (scan_selects _ _ _ _ _ _ _ _ _ Hmodel Hstore Hfound) as (p & Hp & Hnext).
    exists p. split; [assumption|]. intros db2 objectStore2 Hstore2 Hsame Hincl.
    rewrite Hpath. now apply Hnext.
  - destruct (index_selects _ _ _ _ _ _ _ _ Hmodel Hstore Hfound) as (p & Hp & Hnext).
    exists p. split; [assumption|]. intros db2 objectStore2 Hstore2 Hsame Hincl.
    rewrite Hpath. now apply Hnext.
Qed.

(** X18.  [findBy] selects record by record: when it is fulfilled, its
    result holds, in some order, the models of the records that pass a test
    of the record alone; and on any database whose store has the same
    indexes and holds only records of this one it is fulfilled again, with
    the models of the records that pass the same test.  Taking records away
    neither adds a result nor makes the query fail. *)
Theorem findBy_selects_record_by_record :
  forall (coerce : coercion) (models : gmap string JS.object)
         (indexes : gmap string (list index)) (db : database) (modelName : string)
         (blank : JS.object) (objectStore : IDB.store) (attributes orderBy : argument)
         (found : list JS.object),
    models !! modelName = Some blank ->
    stores db !! modelName = Some objectStore ->
    findBy coerce models indexes db modelName attributes orderBy = Fulfilled found ->
    exists p : JS.object -> bool,
      Permutation found (selection blank p (IDB.records objectStore)) /\
      forall (db2 : database) (objectStore2 : IDB.store),
        stores db2 !! modelName = Some objectStore2 ->
        IDB.indexes objectStore2 = IDB.indexes objectStore ->
        incl (IDB.records objectStore2) (IDB.records objectStore) ->
        exists found2,
          findBy coerce models indexes db2 modelName attributes orderBy =
            Fulfilled found2 /\
          Permutation found2 (selection blank p (IDB.records objectStore2)).
Proof.
  intros coerce models indexes db modelName blank objectStore attributes orderBy found.
  apply findBy_selects.
Qed.

Lemma findBy_selects_record_by_record_witness :
  exists p : JS.object -> bool,
    Permutation
      (map (BaseModel.createFromObject Sample.dummyModel)
         [[("id", VNum 2); ("a", VNum 11); ("b", VNum 1)];
          [("id", VNum 3); ("a", VNum 11); ("b", VNum 2)]])
      (selection Sample.dummyModel p (IDB.records Sample.sorted_store)) /\
    forall (db2 : database) (objectStore2 : IDB.store),
      stores db2 !! "dummyModel" = Some objectStore2 ->
      IDB.indexes objectStore2 = IDB.indexes Sample.sorted_store ->
      incl (IDB.records objectStore2) (IDB.records Sample.sorted_store) ->
      exists found2,
        findBy numbers_only Sample.models Sample.index_a db2 "dummyModel"
          (Obj [("a", VNum 11)]) Omitted = Fulfilled found2 /\
        Permutation found2 (selection Sample.dummyModel p (IDB.records objectStore2)).
Proof.
  apply (findBy_selects_record_by_record numbers_only Sample.models Sample.index_a
           Sample.sorted_db "dummyModel" Sample.dummyModel Sample.sorted_store
           (Obj [("a", VNum 11)]) Omitted); vm_compute; reflexivity.
Defined.

(** *** Deleting what was found *)



Lemma to_key_injective (v w : value) (k : IDB.key) :
  IDB.to_key v = Some k -> IDB.to_key w = Some k -> v = w.
Proof. destruct v, w; simpl; congruence. Qed.

Lemma key_eqb_eq (a b : IDB.key) : IDB.eqb a b = true -> a = b.
Proof.
  unfold IDB.eqb. intros H. apply key_compare_eq.
  now destruct (IDB.compare a b).
Qed.

Lemma filed_record (rs : list (IDB.key * JS.object)) (r : IDB.key * JS.object) :
  filed_by_id rs = true -> In r rs -> IDB.to_key (JS.get (snd r) "id") = Some (fst r).
Proof.
  unfold filed_by_id. rewrite forallb_forall. intros Hall Hin.
  specialize (Hall r Hin). simpl in Hall.
  destruct (IDB.to_key (JS.get (snd r) "id")) as [k|]; [|discriminate].
  now apply key_eqb_eq in Hall as ->.
Qed.

Section Deleting.
Variable coerce : coercion.
Variable models : gmap string JS.object.
Variable indexes : gmap string (list index).
Variable db : database.
Variable modelName : string.
Variable blank : JS.object.
Variable objectStore : IDB.store.

Hypothesis registered : models !! modelName = Some blank.
Hypothesis opened : stores db !! modelName = Some objectStore.
Hypothesis id_unset : unset blank "id" = true.
Hypothesis filed : filed_by_id (IDB.records objectStore) = true.
Hypothesis distinct :
  forallb (fun r => well_formed (snd r)) (IDB.records objectStore) = true.




End Deleting.






(** *** What the stores keep under [insert] and [deleteBy] *)

Lemma forallb_place (f : IDB.key * JS.object -> bool) (k : IDB.key) (v : JS.object)
    (rs : list (IDB.key * JS.object)) :
  forallb f (IDB.place k v rs) = f (k, v) && forallb f rs.
Proof.
  induction rs as [|r rest IH]; simpl; [reflexivity|].
  destruct (IDB.ltb k (fst r)); simpl; [reflexivity|].
  rewrite IH. now destruct (f r), (f (k, v)).
Qed.

Lemma forallb_filter {A : Type} (f g : A -> bool) (l : list A) :
  forallb f l = true -> forallb f (List.filter g l) = true.
Proof.
  rewrite !forallb_forall. intros H x Hx. apply filter_In in Hx as [Hx _]. now apply H.
Qed.

Lemma extract_key (o : JS.object) (name : string) (k : IDB.key) :
  IDB.identifier name = true ->
  IDB.extract o name = IDB.Key k -> IDB.to_key (JS.get o name) = Some k.
Proof.
  intros Hname. rewrite extract_identifier by assumption.
  destruct (IDB.hasOwn o name); [|discriminate].
  destruct (JS.get o name); simpl; congruence.
Qed.

Lemma sound_parts (rs : list (IDB.key * JS.object)) :
  sound rs = true <->
  ascending rs = true /\ filed_by_id rs = true /\
  forallb (fun r => well_formed (snd r)) rs = true.
Proof. unfold sound. rewrite !andb_true_iff. tauto. Qed.

Lemma put_keeps_sound (s s' : IDB.store) (v : JS.object) :
  sound (IDB.records s) = true -> distinct_names v ->
  IDB.put s v = Normal (IDB.Success s') ->
  sound (IDB.records s') = true.
Proof.
  intros Hsound Hv Hput. apply sound_parts in Hsound as (Hasc & Hfiled & Hwf).
  apply sound_parts. split; [now apply (put_keeps_ascending s s' v)|].
  unfold IDB.put in Hput.
  destruct (negb (IDB.cloneable (VObj v))); [discriminate|].
  destruct (IDB.extract v "id") as [| |k] eqn:Hid; try discriminate;
    (match type of Hput with context [IDB.conflicts ?s0 ?k0 ?w] =>
       destruct (IDB.conflicts s0 k0 w) end); try discriminate;
    injection Hput as <-; simpl; unfold filed_by_id; rewrite !forallb_place.
  - split; apply andb_true_iff; split;
      try (now apply forallb_filter).
    + simpl. rewrite get_set. simpl. apply key_eqb_refl.
    + simpl. apply bool_decide_eq_true_2. now apply well_formed_set.
  - split; apply andb_true_iff; split;
      try (now apply forallb_filter).
    + simpl. rewrite (extract_key v "id" k eq_refl Hid). apply key_eqb_refl.
    + simpl. now apply bool_decide_eq_true_2.
Qed.

Lemma delete_keeps_sound (s s' : IDB.store) (id : value) :
  sound (IDB.records s) = true -> IDB.delete s id = Normal s' ->
  sound (IDB.records s') = true.
Proof.
  intros Hsound Hdelete. apply sound_parts in Hsound as (Hasc & Hfiled & Hwf).
  apply sound_parts. split; [now apply (delete_keeps_ascending s s' id)|].
  unfold IDB.delete in Hdelete. destruct (IDB.to_key id); [|discriminate].
  injection Hdelete as <-. simpl. split; now apply forallb_filter.
Qed.

Lemma journal_add_consistent (db : database) (storeName : string)
    (objectStore : IDB.store) (r : request) :
  consistent db -> sound (IDB.records objectStore) = true ->
  consistent (journal_add db storeName objectStore r).
Proof.
  intros Hdb Hstore modelName s. unfold journal_add. simpl.
  destruct (decide (storeName = modelName)) as [->|Hne].
  - rewrite lookup_insert_eq. intros H. now injection H as <-.
  - rewrite lookup_insert_ne by assumption. apply Hdb.
Qed.

Lemma insertObject_consistent (models : gmap string JS.object) (modelName : string)
    (db db' : database) (entity : JS.object) (o : outcome unit) :
  consistent db -> insertObject models modelName db entity = (o, db') ->
  consistent db'.
Proof.
  intros Hdb. unfold insertObject.
  destruct (models !! modelName) as [blank|]; [|now intros [= _ <-]].
  destruct (stores db !! modelName) as [objectStore|] eqn:Hstore;
    [|now intros [= _ <-]].
  destruct (IDB.put objectStore _) as [[objectStore'|e']|e] eqn:Hput;
    [|now intros [= _ <-]|now intros [= _ <-]].
  intros [= _ <-]. apply journal_add_consistent; [assumption|].
  eapply put_keeps_sound; [| |exact Hput].
  - now apply (Hdb modelName).
  - apply well_formed_stored_record.
Qed.

Lemma deleteItem_consistent (modelName : string) (db db' : database)
    (item : JS.object) (o : outcome unit) :
  consistent db -> deleteItem modelName db item = (o, db') -> consistent db'.
Proof.
  intros Hdb. unfold deleteItem.
  destruct (stores db !! modelName) as [objectStore|] eqn:Hstore;
    [|now intros [= _ <-]].
  destruct (IDB.delete objectStore _) as [objectStore'|e] eqn:Hdelete;
    [|now intros [= _ <-]].
  intros [= _ <-]. apply journal_add_consistent; [assumption|].
  eapply delete_keeps_sound; [|exact Hdelete]. now apply (Hdb modelName).
Qed.

Lemma in_turn_keeps {A B : Type} (invariant : database -> Prop)
    (operation : database -> A -> outcome B * database) (items : list A) :
  (forall db db' item o, invariant db -> operation db item = (o, db') ->
                         invariant db') ->
  forall (db db' : database) (os : list (outcome B)),
    invariant db -> in_turn operation db items = (os, db') -> invariant db'.
Proof.
  intros Hop. induction items as [|item rest IH]; intros db db' os Hdb; simpl.
  - now intros [= _ <-].
  - destruct (operation db item) as [o db1] eqn:H1.
    destruct (in_turn operation db1 rest) as [os' db2] eqn:H2.
    intros [= _ <-]. eapply IH; [|exact H2]. eapply Hop; [exact Hdb | exact H1].
Qed.

Lemma insert_consistent (models : gmap string JS.object) (modelName : string)
    (db db' : database) (entity : entities) (o : outcome unit) :
  consistent db -> insert models db modelName entity = (o, db') -> consistent db'.
Proof.
  intros Hdb. destruct entity as [entity|array]; simpl.
  - now apply insertObject_consistent.
  - destruct (in_turn (insertObject models modelName) db array) as [os db1] eqn:Hturn.
    assert (consistent db1) as Hdb1.
    { eapply (in_turn_keeps consistent); [|exact Hdb|exact Hturn].
      intros ? ? ? ?. apply insertObject_consistent. }
    destruct (Promise_all os); now intros [= _ <-].
Qed.

Lemma deleteBy_consistent (coerce : coercion) (models : gmap string JS.object)
    (indexes : gmap string (list index)) (modelName : string)
    (db db' : database) (attributes : argument) (o : outcome unit) :
  consistent db ->
  deleteBy coerce models indexes db modelName attributes = (o, db') ->
  consistent db'.
Proof.
  intros Hdb. unfold deleteBy.
  destruct (in_executor _) as [items| | |]; try now intros [= _ <-].
  destruct (Nat.eqb (length items) 0); [now intros [= _ <-]|].
  destruct (in_turn (deleteItem modelName) db items) as [os db1] eqn:Hturn.
  assert (consistent db1) as Hdb1.
  { eapply (in_turn_keeps consistent); [|exact Hdb|exact Hturn].
    intros ? ? ? ?. apply deleteItem_consistent. }
  destruct (Promise_all os); now intros [= _ <-].
Qed.

(** X21.  [insert] and [deleteBy] keep the stores sound, however they end:
    after either, of one entity or of many, on any model and for any query,
    every store still holds its records in key order, no two under one key,
    each under the key of its own [id] and with distinct property names. *)
Theorem insert_and_deleteBy_keep_the_stores_sound :
  forall (coerce : coercion) (models : gmap string JS.object)
         (indexes : gmap string (list index)) (db : database),
    consistent db ->
    (forall (modelName : string) (entity : entities) (o : outcome unit)
            (db' : database),
        insert models db modelName entity = (o, db') -> consistent db') /\
    (forall (modelName : string) (attributes : argument) (o : outcome unit)
            (db' : database),
        deleteBy coerce models indexes db modelName attributes = (o, db') ->
        consistent db').
Proof.
  intros coerce models indexes db Hdb. split.
  - intros modelName entity o db'. now apply insert_consistent.
  - intros modelName attributes o db'. now apply deleteBy_consistent.
Qed.

Lemma insert_and_deleteBy_keep_the_stores_sound_witness :
  (forall (modelName : string) (entity : entities) (o : outcome unit)
          (db' : database),
      insert Sample.models Sample.sorted_db modelName entity = (o, db') ->
      consistent db') /\
  (forall (modelName : string) (attributes : argument) (o : outcome unit)
          (db' : database),
      deleteBy numbers_only Sample.models Sample.index_a Sample.sorted_db modelName
        attributes = (o, db') ->
      consistent db').
Proof.
  apply (insert_and_deleteBy_keep_the_stores_sound numbers_only Sample.models
           Sample.index_a Sample.sorted_db).
  intros modelName objectStore Hstore. unfold Sample.sorted_db in Hstore. simpl in Hstore.
  apply lookup_singleton_Some in Hstore as [_ <-]. vm_compute. reflexivity.
Defined.

(** *** Inserting an array *)

Lemma key_eqb_sym (a b : IDB.key) : IDB.eqb a b = IDB.eqb b a.
Proof.
  unfold IDB.eqb. rewrite (key_compare_antisym a b).
  now destruct (IDB.compare a b).
Qed.



(** *** What can be stored *)














(** *** The shortcut of [findOneBy] for a query on [id] *)

Lemma ascending_one (rs : list (IDB.key * JS.object)) (k : IDB.key) :
  ascending rs = true ->
  (List.length (List.filter (fun r => IDB.eqb (fst r) k) rs) <= 1)%nat.
Proof.
  induction rs as [|r rest IH]; simpl; intros Hasc; [lia|].
  apply andb_true_iff in Hasc as [Hr Hrest].
  destruct (IDB.eqb (fst r) k) eqn:Hk; [|now apply IH].
  apply key_eqb_eq in Hk. subst k.
  assert (List.filter (fun r' => IDB.eqb (fst r') (fst r)) rest = []) as ->; [|simpl; lia].
  destruct (List.filter _ rest) as [|x more] eqn:Hfilter; [reflexivity|]. exfalso.
  assert (In x (List.filter (fun r' => IDB.eqb (fst r') (fst r)) rest)) as Hx
    by (rewrite Hfilter; now left).
  apply filter_In in Hx as [Hx Heq]. rewrite forallb_forall in Hr.
  specialize (Hr x Hx). apply key_eqb_eq in Heq. rewrite Heq in Hr.
  unfold IDB.ltb in Hr. now rewrite key_compare_refl in Hr.
Qed.

Lemma permutation_of_at_most_one {A : Type} (l l' : list A) :
  Permutation l l' -> (List.length l' <= 1)%nat -> l = l'.
Proof.
  intros Hperm Hlen. destruct l' as [|x [|y rest]]; simpl in Hlen; try lia.
  - now apply Permutation_sym, Permutation_nil in Hperm.
  - now apply Permutation_sym, Permutation_length_1_inv in Hperm.
Qed.




(** X23.  On a sound store that has the index on [id], for an [id] that is
    a string or a number other than [NaN], the shortcut [findOneBy] takes
    for a query on [id] alone returns what [findBy] on the same query
    returns first, or [null] when [findBy] returns nothing: the record filed
    under this id, found by the scan or through the index on [id]. *)
Theorem findOneBy_on_id_returns_the_first_of_findBy :
  forall (coerce : coercion) (models : gmap string JS.object)
         (indexes : gmap string (list index)) (db : database) (modelName : string)
         (blank : JS.object) (objectStore : IDB.store) (id : value)
         (orderBy : argument),
    models !! modelName = Some blank ->
    stores db !! modelName = Some objectStore ->
    unset blank "id" = true ->
    scalar id = true ->
    sound (IDB.records objectStore) = true ->
    store_index objectStore "id" = Some (IDB.Attribute "id") ->
    orderBy <> Null ->
    exists found : list JS.object,
      findBy coerce models indexes db modelName (Obj [("id", id)]) orderBy =
        Fulfilled found /\
      findOneBy coerce models indexes db modelName (Obj [("id", id)]) orderBy =
        Fulfilled (head found) /\
      found =
        map (fun r => BaseModel.createFromObject blank (snd r))
          (List.filter (fun r => IDB.eqb (fst r) (key_of id)) (IDB.records objectStore)).
Proof.
  intros coerce models indexes db modelName blank objectStore id orderBy
    Hmodel Hstore Hunset Hid Hsound Hindex Hnull.
  apply sound_parts in Hsound as (Hasc & Hfiled & Hwf).
  set (pq := Equalities [("id", id)]).
  assert (admissible pq = true) as Hpq by (simpl; now rewrite Hid).
  assert (forallb (fun a => unset blank a && negb (is_method a)) (query_keys pq) = true)
    as Hblank by (simpl; now rewrite Hunset).
  assert (forallb (fun r => fits pq (snd r)) (IDB.records objectStore) = true) as Hfit.
  { apply forallb_forall. intros r Hr. rewrite forallb_forall in Hwf.
    unfold fits. now rewrite (Hwf r Hr). }
  assert (List.filter (fun r => answers pq (snd r)) (IDB.records objectStore) =
          List.filter (fun r => IDB.eqb (fst r) (key_of id)) (IDB.records objectStore))
    as Hanswers.
  { apply filter_ext_in. intros r Hr. simpl. rewrite andb_true_r.
    rewrite (strict_equal_scalar _ _ Hid), (filed_record _ r Hfiled Hr).
    apply key_eqb_sym. }
  assert (exists found,
             findBy coerce models indexes db modelName (Obj [("id", id)]) orderBy =
               Fulfilled found /\
             Permutation found
               (map (fun r => BaseModel.createFromObject blank (snd r))
                  (List.filter (fun r => IDB.eqb (fst r) (key_of id))
                     (IDB.records objectStore)))) as (found & Hfound & Hperm).
  { rewrite <- Hanswers.
    destruct (indexes !! modelName) as [declared|] eqn:Hdeclared.
    - rewrite (findBy_by_names coerce models indexes db modelName blank declared
                 (Obj [("id", id)]) orderBy Hmodel Hdeclared).
      + destruct (existsb _ declared).
        * apply (indexed_path_permutation models db modelName blank objectStore
                   pq Hmodel Hstore Hindex eq_refl Hpq Hfit orderBy Hnull).
        * apply (scan_path_permutation coerce models db modelName blank objectStore
                   pq Hmodel Hstore Hpq Hblank Hfit orderBy).
      + simpl. destruct id; simpl; try discriminate; intros [H|[]]; discriminate.
    - rewrite findBy_without_declared_index by assumption.
      apply (scan_path_permutation coerce models db modelName blank objectStore
               pq Hmodel Hstore Hpq Hblank Hfit orderBy). }
  apply permutation_of_at_most_one in Hperm;
    [|rewrite length_map; now apply ascending_one].
  exists found. split; [assumption|]. split; [|assumption].
  rewrite findOneBy_by_id by (simpl; now destruct id).
  unfold findObjectById. rewrite Hmodel, Hstore. simpl.
  unfold IDB.get. rewrite (to_key_scalar id Hid). simpl.
  rewrite find_filter, Hperm.
  now destruct (List.filter (fun r => IDB.eqb (fst r) (key_of id))
                 (IDB.records objectStore)).
Qed.

Lemma findOneBy_on_id_returns_the_first_of_findBy_witness :
  exists found : list JS.object,
    findBy numbers_only Sample.models Sample.index_id Sample.sorted_db "dummyModel"
      (Obj [("id", VNum 3)]) Omitted = Fulfilled found /\
    findOneBy numbers_only Sample.models Sample.index_id Sample.sorted_db "dummyModel"
      (Obj [("id", VNum 3)]) Omitted = Fulfilled (head found) /\
    found =
      map (fun r => BaseModel.createFromObject Sample.dummyModel (snd r))
        (List.filter (fun r => IDB.eqb (fst r) (key_of (VNum 3)))
           (IDB.records Sample.sorted_store)).
Proof.
  apply (findOneBy_on_id_returns_the_first_of_findBy numbers_only Sample.models
           Sample.index_id Sample.sorted_db "dummyModel" Sample.dummyModel
           Sample.sorted_store (VNum 3) Omitted);
    try (vm_compute; reflexivity).
  discriminate.
Defined.

(** X27.  An [id] that is [NaN], what [parseInt] makes of a text without
    digits, is no key: for a registered model with a store, [findOneBy] on
    it never settles and neither does the indexed path of [findBy], the
    request throwing in the callback of [open]; the scan is fulfilled with
    the empty array, [NaN] being equal to nothing. *)
Theorem id_that_is_NaN_settles_only_the_scan :
  forall (coerce : coercion) (models : gmap string JS.object)
         (indexes : gmap string (list index)) (db : database) (modelName : string)
         (blank : JS.object) (objectStore : IDB.store) (orderBy : argument),
    models !! modelName = Some blank ->
    stores db !! modelName = Some objectStore ->
    findOneBy coerce models indexes db modelName (Obj [("id", VNaN)]) orderBy =
      Unsettled /\
    findObjectsByAttributeWithIndex models db modelName (Obj [("id", VNaN)]) orderBy =
      Unsettled /\
    (orderBy <> Null ->
     findObjectsByAttributeNoIndex coerce models db modelName (Obj [("id", VNaN)])
       orderBy = Fulfilled []).
Proof.
  intros coerce models indexes db modelName blank objectStore orderBy Hmodel Hstore.
  split; [|split].
  - rewrite findOneBy_by_id by reflexivity.
    unfold findObjectById. now rewrite Hmodel, Hstore.
  - now apply (findObjectsByAttributeWithIndex_throwing_range _ _ _ blank _ _ DataError).
  - intros Hnull. unfold findObjectsByAttributeNoIndex. rewrite Hmodel, Hstore.
    cbn [given orb]. unfold reduce.
    rewrite (reduce_results_filter coerce _ (fun _ => false)).
    + assert (forall l : list JS.object, List.filter (fun _ => false) l = []) as ->
        by (induction l; [reflexivity | assumption]).
      now destruct orderBy.
    + intros result _. unfold retained. simpl.
      now destruct (get result "id").
Qed.

Lemma id_that_is_NaN_settles_only_the_scan_witness :
  findOneBy numbers_only Sample.models Sample.index_id Sample.sorted_db "dummyModel"
    (Obj [("id", VNaN)]) Omitted = Unsettled /\
  findObjectsByAttributeWithIndex Sample.models Sample.sorted_db "dummyModel"
    (Obj [("id", VNaN)]) Omitted = Unsettled /\
  (Omitted <> Null ->
   findObjectsByAttributeNoIndex numbers_only Sample.models Sample.sorted_db "dummyModel"
     (Obj [("id", VNaN)]) Omitted = Fulfilled []).
Proof.
  apply (id_that_is_NaN_settles_only_the_scan numbers_only Sample.models
           Sample.index_id Sample.sorted_db "dummyModel" Sample.dummyModel
           Sample.sorted_store Omitted); reflexivity.
Defined.

(** *** What is read of [orderBy] *)

(** X24.  The IndexedDB adapter reads of [orderBy] the direction of its
    first attribute and nothing else: [findBy] returns the same for any two
    [orderBy] objects that start with the same direction, whatever the
    attribute it is given for, on the indexed path, where the cursor runs
    through the keys of the index, and whatever attributes follow the first,
    on both paths. *)
Theorem findBy_reads_the_first_direction_of_orderBy :
  forall (coerce : coercion) (models : gmap string JS.object)
         (indexes : gmap string (list index)) (db : database) (modelName : string)
         (attributes : argument) (a b : string) (direction : value)
         (others others' : JS.object),
    findObjectsByAttributeWithIndex models db modelName attributes
      (Obj ((a, direction) :: others)) =
    findObjectsByAttributeWithIndex models db modelName attributes
      (Obj ((b, direction) :: others')) /\
    findBy coerce models indexes db modelName attributes (Obj ((a, direction) :: others)) =
    findBy coerce models indexes db modelName attributes (Obj [(a, direction)]).
Proof.
  intros coerce models indexes db modelName attributes a b direction others others'.
  assert (forall (x y : string) (rest rest' : JS.object),
             findObjectsByAttributeWithIndex models db modelName attributes
               (Obj ((x, direction) :: rest)) =
             findObjectsByAttributeWithIndex models db modelName attributes
               (Obj ((y, direction) :: rest'))) as Hindexed.
  { intros x y rest rest'. unfold findObjectsByAttributeWithIndex, generateIDBKeyRange,
      getDirection. now rewrite !get_first. }
  split; [apply Hindexed|].
  unfold findBy. rewrite (Hindexed a a others []).
  assert (findObjectsByAttributeNoIndex coerce models db modelName attributes
            (Obj ((a, direction) :: others)) =
          findObjectsByAttributeNoIndex coerce models db modelName attributes
            (Obj [(a, direction)])) as ->; [|reflexivity].
  unfold findObjectsByAttributeNoIndex, reduce, given.
  rewrite !orb_true_r. cbn [first_key]. now rewrite !get_first.
Qed.

(** *** Equalities followed by a range, on a compound index *)













Section Leading.
Variable coerce : coercion.
Variable models : gmap string JS.object.
Variable db : database.
Variable modelName : string.
Variable blank : JS.object.
Variable objectStore : IDB.store.
Variable terms : JS.object.
Variable a : string.
Variable lo uo first : bool.
Variable l u : value.

Let q : range_query := Between lo l uo u first.
Let keys : list string := map fst terms ++ [a].
Let attributes : argument := Obj (leading_query terms a q).

Hypothesis registered : models !! modelName = Some blank.
Hypothesis opened : stores db !! modelName = Some objectStore.
Hypothesis index_on_keys :
  store_index objectStore (JS.toString keys) = Some (IDB.Attributes keys).
Hypothesis named : identifiers keys = true.
Hypothesis some_terms : terms <> [].
Hypothesis scalars : forallb (fun t => scalar (snd t)) terms = true.
Hypothesis distinct : well_formed (leading_query terms a q) = true.
Hypothesis accepted : admissible (Range a q) = true.
Hypothesis blank_unset :
  forallb (fun key => unset blank key && negb (is_method key)) keys = true.
Hypothesis records_fit :
  forallb (fun r => well_formed (snd r) && same_kind (JS.get (snd r) a) l)
    (IDB.records objectStore) = true.









End Leading.


